(* ===== verification/_CoqProject ===== *)
-Q . S2P
Prelude.v
Ffi.v
Client.v
Utf8.v
Buffer.v
Timestamp.v
Backoff.v
Mvcc.v
Transaction.v
Bridge.v
Equiv.v
Resolve.v
GC.v
Wf.v
Progress.v
Oracle.v
Scan.v
Rollback.v
Concurrency.v
Pessimistic.v
