(* ===== verification/Prelude.v ===== *)
(** * A verification development of tikv-client-cpp

    The repository is a C++ binding of the TiKV transactional client.
    [src/src/lib.rs] is a [cxx] bridge: each function of its
    [extern "Rust"] block takes C++ strings and vectors, calls the Rust
    crate [tikv_client] on a Tokio runtime ([TOKIO_RUNTIME.block_on]) and
    converts the result into the bridge's shared structs ([Key],
    [KvPair], [PrewriteResult], [OptionalValue]) and enum ([Bound]).
    The engine those functions drive lives in [tikv_client], which is
    not under [src/]: the mutation buffer, the transaction and its
    two-phase commit split into primary and secondary phases, the
    key-value backend and its timestamp oracle, the lock back-off and the
    timestamp type.  That engine is modelled from the specification and
    marked [spec_modelled] in the manifest.  Everything of [lib.rs] is
    translated from the code.

    ** The files, in dependency order

    - [Prelude] (this file): keys as [list Byte.byte] with the
      lexicographic byte order of every key comparison ([key_compare],
      [key_lt], [key_le], with their order instances), [u64]/[i64]
      wrap-around ([wrap_u64], [wrap_i64]), the error taxonomy of the
      specification (section 7) with [Utf8Error] and [Panicked] for the
      code's own failures, the [result] type and its bind notation in
      [tikv_scope], the hint databases [tikv] and [tikv_rw].
    - [Ffi]: the [cxx::bridge] data of lib.rs 32-55, [Bound] as its
      [u8] representation (C++ may pass any value), and [to_bound_range]
      (lib.rs 494-513) with its [panic!] arms; the conversions of the
      results ([optional_value_of], [kv_pair_of], [key_of]).
    - [Client]: [transaction_client_new] and
      [transaction_client_new_with_config] (lib.rs 231-281) and
      [create_slog_logger] (lib.rs 199-229): the UTF-8 check of every
      C++ string ([utf8_valid], the table of [std::str::from_utf8]), the
      [Config] built, the log file opened, the process-wide logger
      installed once ([START.call_once]) and returned by
      [slog_scope::logger()], then the connection ([connect],
      spec-modelled).  The process is a record [Process] passed and
      returned.
    - [Utf8]: [encode_utf8], the RFC 3629 encoder, the reference
      the check [utf8_valid] is proved equal to.
    - [Buffer]: the mutation buffer, an association list in insertion
      order (an upsert keeps the position), and [merge_scan], the merge
      of buffered writes into a backend scan.
    - [Timestamp]: [Timestamp::from_version] and [version] on the
      [i64] physical/18-bit logical split, modelled from the
      specification ([tikv_client] is not in the repository).
    - [Backoff]: [Backoff::no_jitter_backoff] with [u32] attempts and
      [u64] delays doubled by a shift, and [retry_lock], the loop that
      retries a lock conflict while the policy grants a delay; [wait]
      is what other clients do meanwhile.
    - [Mvcc]: [Class Backend], the capabilities the engine is written
      against (fetch a timestamp, read, scan, lock, prewrite, commit,
      rollback, gc: section 9 of the specification), and [Module Mvcc],
      the in-memory multi-version store implementing it ([gmap]s of
      versions, newest first, and of locks; the safepoint; the oracle).
    - [Transaction]: the transaction record and its state machine
      ([TxnStatus], [Txn.allowed]), and one definition per operation
      of [tikv_client::Transaction] ([Txn.get], [get_for_update],
      [batch_get], [scan], [put], [delete], [prewrite_primary],
      [prewrite_secondary], [commit_primary], [commit_secondary],
      [commit], [rollback]), each guarded by the status it starts from.
    - [Bridge]: one definition per function of lib.rs 283-599, named
      as in the code, composed of the conversions of [Ffi] and
      [Timestamp] and the operations of [Transaction] and [Mvcc];
      [Call] and [bridge_call] are the calls C++ can make on a
      transaction (the [extern "Rust"] block), [bridge_run] a sequence
      of them; [ClientCall] and [client_call] the calls on the client
      (lib.rs 78-87), [SnapshotCall] and [snapshot_call] the reads on a
      snapshot (lib.rs 143-166).
    - [Equiv]: [split_commit], the split commit a C++ caller drives
      through the bridge, and [batch_reads], one read per key: the
      references the one-shot [transaction_commit] and the batch reads
      are proved equal to.
    - [Resolve]: the reader that resolves the locks it meets by
      consulting their primary ([Resolve.primary_status],
      [Resolve.resolve_key]), as a second [Backend] record
      ([resolving_backend]) over the same store, whose oracle and
      writes are [Mvcc]'s.
    - [GC]: [agree_from], two stores a reader at or above a timestamp
      cannot tell apart (resolving readers included), and the proof
      that [client_gc] leaves a store that agrees with the old one from
      the safepoint.
    - [Wf]: the type of a transaction ([same_type]: mode, start
      timestamp, lock back-off) and its well-formedness ([txn_wf]: one
      buffer entry per key, and [status_ok], the fields each status
      implies);
      [exec_cases], the case analysis of one engine step.
    - [Progress]: [free_for], the condition under which a key can be
      prewritten, and the proof that an unhindered commit succeeds.
    - [Oracle]: [Class OracleLaws], the contract of the timestamp
      oracle (section 2 of the specification) stated over [Backend],
      its instance [Mvcc_oracle] for the in-memory store, and what the
      bridge gets from it on any backend.
    - [Scan]: [ScanView.view_scan], a reference definition of what a
      scan returns, and the proof that the bridge's scans compute it.
    - [Rollback]: rolling back before any prewrite restores the store.
    - [Concurrency]: many transactions over one store ([Sys],
      [sys_step]) and the invariants that make the protocol safe.
    - [Pessimistic]: the release of a pessimistic lock by the commit
      of the transaction that took it.

    ** What the theorems show (claims C1-C37 of the manifest)

    - Isolation and atomicity across transactions ([Concurrency]): in
      every state reachable by any interleaving of calls on the client
      ([client_call]: the begins and GC), bridge calls on any
      transactions, [current_timestamp]s and [snapshot_new]s, two
      committed versions of a key never
      overlap (C1); a transaction whose key is locked by another one, or
      committed after its start, cannot commit and becomes [Failed]
      (C6); pessimistic locks exclude each other until rollback (C8), and a
      pessimistic lock on a key read but not written is released by the
      commit ([Pessimistic], C9).
      The proof is an invariant of the store ([store_ok]: per key, a
      [chain] of versions and locks newer than every version) and of
      each transaction ([txn_ok]), preserved operation by operation.
    - The commit ([Bridge], [Equiv], [Progress]): put/delete then
      commit, and a snapshot after the commit reads the writes (C2), one
      before it reads the older versions (C3); read-your-own-writes and
      delete hiding (C4, C15); the one-shot commit equals the split
      commit a C++ caller drives (C10); a reader that resolves locks
      never sees a write of the split commit before [commit_primary],
      and sees all of them from the commit timestamp on once it has
      succeeded, whether or not [commit_secondary] has run ([Resolve],
      C11); a commit nothing hinders succeeds
      (C12).
    - Reads ([Scan], [Equiv], [GC]): a successful [transaction_scan]
      equals the reference scan (C5) and so is at most [limit] long,
      strictly ascending, inside the range and free of buffered deletes
      (C14); it succeeds when no lock blocks the range (C36); a
      snapshot's scan agrees with its point reads (C37); [batch_get] is
      [get] on each key, for transactions (C16) and snapshots (C17); GC
      never changes what a reader at or above the safepoint sees, one
      that resolves locks included, since it keeps the versions the
      locks in doubt need (C13, C23) and only moves the safepoint forward (C24).
    - Rollback (C7) and the state machine: terminal transactions reject
      every call (C18), the commit point is never undone (C19), every
      call follows an edge of section 4.2 (C20), and every call keeps a
      transaction well formed: its mode, start timestamp and lock
      back-off, one buffer entry per key, and the primary and commit
      timestamp its status implies (C22).
    - Timestamps and integers: on any backend whose oracle satisfies
      [OracleLaws], a commit timestamp is above its start timestamp and
      a later begin starts later (C21); the lock back-off of
      [transaction_client_begin_optimistic_with_option] grants exactly
      [retry] delays [min 500 ((2 * 2^i) mod 2^64)], which are 0 from the
      64th on (C26); the retry loop ends after exactly [retry] retries
      (C27).
    - What the code does where the specification says otherwise or
      nothing (the findings): the secondaries are committed at whatever
      timestamp C++ passes (C25) and their errors dropped (C29), the
      back-off wraps (C26), the empty primary key is "none" (C28), the
      logger and the endpoints' check (C30, C31), the bound panic (C34);
      and
      [prewrite_secondary_foreign_start]: the primary and start
      timestamp [transaction_prewrite_secondary] is given are not
      checked either.
    - Client construction (C30-C32); the UTF-8 check of every C++
      string accepts exactly the RFC 3629 encodings (C33); bound
      conversion (C34, C35).

    ** Bounds and fuel

    Integers are [Z] with the wrap-around of their Rust type written
    out.  [Backoff.delays] and [retry_lock] take fuel; the theorems
    require fuel at least [Z.to_nat max_attempts], the number of delays
    the policy grants, and [transaction_client_begin_optimistic_with_option]
    passes exactly that ([prewrite_retry] uses [Z.to_nat (max_attempts)]),
    so the loop always ends by the policy, never by fuel (C27).  A scan's
    [u32] limit is [Z.to_nat limit].  Every other definition is
    structurally recursive.

    ** Not modelled

    - The Tokio runtime: each [block_on] is the sequential evaluation
      of the call it wraps; calls of different transactions interleave
      at call granularity ([sys_step]); a retry sleeps while nothing else
      runs ([Backoff.no_wait]) in [Concurrency], and under any [wait] in
      [Backoff].
    - The network and the cluster behind [tikv_client]: one in-memory
      store ([Mvcc]).  Reads through [Mvcc_backend] that meet a lock
      fail with [LockConflict]; [resolving_backend] resolves the lock
      instead, and every read that succeeds on the first returns the
      same on the second ([read_conservative], [scan_conservative]), so
      the theorems on reads carry over.  The resolution's clean-up
      writes are not kept, and a lock whose primary is still locked is
      reported as [LockConflict] (no TTL, no waiting).  Timeouts and
      [CommitAmbiguous] are not modelled.
    - Logging output ([debug!] timings) and the drop of the Rust
      objects.
    - The inside of [tikv_client]: its timestamp conversions follow the
      specification's raw 64-bit ordinal, on which every [u64] version
      crosses the bridge unchanged ([version_from_version]); a checked
      conversion that panics on versions at or above 2^63 would change
      only those versions.  Its GC call is the safepoint advance of
      section 4.1 ([Mvcc.gc]); the lock resolution a GC run may do is
      that of [Resolve], not repeated there.
    - Pessimistic locks of keys read by [get_for_update] but not
      written: the one-shot [commit] releases them, the split commit of
      lib.rs 434-492 has no step that does; [Equiv] states the
      equivalence of the two paths for transactions whose locks are all
      on written keys. *)

From stdpp Require Export base list gmap countable sorting.
From Stdlib Require Export Strings.Byte ZArith Lia.
From stdpp Require Export strings.

Declare Scope tikv_scope.
Delimit Scope tikv_scope with tikv.
Open Scope tikv_scope.

(** ** Bytes and byte strings *)

Abbreviation byte := Byte.byte.

#[export] Instance byte_eq_dec : EqDecision byte := Byte.byte_eq_dec.

#[export] Instance byte_countable : Countable byte.
Proof.
  refine (inj_countable' Byte.to_N (fun n => default Byte.x00 (Byte.of_N n)) _).
  intros b. by rewrite Byte.of_to_N.
Defined.

(** [Vec<u8>] of the bridge and [tikv_client::Key]/[Value] bodies. *)
Abbreviation bytes := (list byte).

(** A byte string written as a string literal, for concrete runs. *)
Definition bs (s : String.string) : bytes := String.list_byte_of_string s.
Arguments bs s%_string.

(** Lexicographic comparison of byte strings by unsigned byte value,
    the order of [Vec<u8>] in Rust and of keys in TiKV. *)
Fixpoint key_compare (a b : bytes) : comparison :=
  match a, b with
  | [], [] => Eq
  | [], _ :: _ => Lt
  | _ :: _, [] => Gt
  | x :: a', y :: b' =>
      match N.compare (Byte.to_N x) (Byte.to_N y) with
      | Eq => key_compare a' b'
      | c => c
      end
  end.

Definition key_lt (a b : bytes) : Prop := key_compare a b = Lt.
Definition key_le (a b : bytes) : Prop := key_compare a b <> Gt.

#[export] Instance key_lt_dec : RelDecision key_lt.
Proof. intros a b. unfold key_lt. apply _. Defined.
#[export] Instance key_le_dec : RelDecision key_le.
Proof. intros a b. unfold key_le. apply _. Defined.

Infix "<k" := key_lt (at level 70) : tikv_scope.
Infix "<=k" := key_le (at level 70) : tikv_scope.

(** ** Machine integers *)

Definition u64_modulus : Z := (2 ^ 64)%Z.
Definition u32_modulus : Z := (2 ^ 32)%Z.
Definition is_u64 (z : Z) : bool := ((0 <=? z) && (z <? u64_modulus))%Z.
Definition is_u32 (z : Z) : bool := ((0 <=? z) && (z <? u32_modulus))%Z.

(** [x as u64] on an integer of any width: reduction modulo 2^64. *)
Definition wrap_u64 (z : Z) : Z := (z mod u64_modulus)%Z.

(** [x as i64]: the two's-complement reading of the low 64 bits. *)
Definition wrap_i64 (z : Z) : Z :=
  let m := (z mod u64_modulus)%Z in
  if (m <? 2 ^ 63)%Z then m else (m - u64_modulus)%Z.

(** ** Errors and results *)

(** The error kinds of the specification (section 7), plus the errors
    the bridge itself raises: a C++ string that is not UTF-8
    ([CxxString::to_str]) and a [panic!]. *)
Inductive Error :=
| ConnectionError
| TimestampError
| LockConflict
| WriteConflict
| KeyLockedTimeout
| CommitAmbiguous
| InvalidState
| InvalidRange
| GcRejected
| LockNotFound
| NoMutations
| Utf8Error
| Panicked.

#[export] Instance Error_eq_dec : EqDecision Error.
Proof. solve_decision. Defined.

(** [anyhow::Result<A>]. *)
Inductive result (A : Type) : Type :=
| Ok (a : A)
| Err (e : Error).
Arguments Ok {A} a.
Arguments Err {A} e.

Definition result_bind {A B} (r : result A) (f : A -> result B) : result B :=
  match r with
  | Ok a => f a
  | Err e => Err e
  end.

Definition result_map {A B} (f : A -> B) (r : result A) : result B :=
  match r with
  | Ok a => Ok (f a)
  | Err e => Err e
  end.

Definition is_ok {A} (r : result A) : bool :=
  match r with Ok _ => true | Err _ => false end.

(** The [?] operator of Rust. *)
Notation "x <- r ;; k" := (result_bind r (fun x => k))
  (at level 60, r at next level, right associativity) : tikv_scope.

(** ** Generic lemmas *)

Create HintDb tikv discriminated.
Create Rewrite HintDb tikv_rw.

Lemma result_bind_Ok {A B} (r : result A) (f : A -> result B) b :
  result_bind r f = Ok b <-> exists a, r = Ok a /\ f a = Ok b.
Proof. destruct r; simpl; split; [eauto | intros (?&?&?); congruence | done | intros (?&?&?); done]. Qed.

Lemma result_bind_Err {A B} (r : result A) (f : A -> result B) e :
  result_bind r f = Err e <-> r = Err e \/ exists a, r = Ok a /\ f a = Err e.
Proof.
  destruct r; simpl; split.
  - eauto.
  - intros [?|(?&?&?)]; congruence.
  - intros H; left; congruence.
  - intros [?|(?&?&?)]; congruence.
Qed.

(** The list functions a scan is built of depend only on the values of
    their function on the members of the list. *)
Lemma omap_ext_in {A B} (f g : A -> option B) (l : list A) :
  (forall x, x ∈ l -> f x = g x) -> omap f l = omap g l.
Proof. intros Hfg. apply list_omap_ext, Forall_Forall2_diag, Forall_forall. exact Hfg. Qed.

Lemma existsb_ext_in {A} (f g : A -> bool) (l : list A) :
  (forall x, x ∈ l -> f x = g x) -> existsb f l = existsb g l.
Proof.
  induction l as [|x l IH]; intros Hfg; [done|]. simpl.
  rewrite (Hfg x), IH by set_solver. done.
Qed.

(** Filtering out elements the search cannot match leaves its result. *)
Lemma find_filter {A} (f g : A -> bool) (l : list A) :
  (forall x, f x = true -> g x = true) -> List.find f (filter (fun x => g x = true) l) = List.find f l.
Proof.
  intros Hfg. induction l as [|x l IH]; [done|]. rewrite filter_cons. simpl.
  destruct (f x) eqn:E.
  - rewrite decide_True by auto. simpl. by rewrite E.
  - case_decide; simpl; rewrite ?E; done.
Qed.

Lemma existsb_false_elem {A} (f : A -> bool) (l : list A) x :
  existsb f l = false -> x ∈ l -> f x = false.
Proof.
  intros Hl Hx. destruct (f x) eqn:E; [|done].
  rewrite <- Hl. symmetry. apply existsb_exists. exists x. split; [by apply list_elem_of_In|done].
Qed.

Lemma key_compare_refl a : key_compare a a = Eq.
Proof. induction a as [|x a IH]; simpl; [done|]. by rewrite N.compare_refl. Qed.

Lemma key_compare_eq a b : key_compare a b = Eq <-> a = b.
Proof.
  split; [|intros ->; apply key_compare_refl].
  revert b; induction a as [|x a IH]; intros [|y b]; simpl; try done.
  destruct (N.compare_spec (Byte.to_N x) (Byte.to_N y)) as [E|E|E]; try done.
  intros H. f_equal; [|by apply IH].
  apply (f_equal Byte.of_N) in E. rewrite !Byte.of_to_N in E. congruence.
Qed.

Lemma key_compare_antisym a b : key_compare b a = CompOpp (key_compare a b).
Proof.
  revert b; induction a as [|x a IH]; intros [|y b]; simpl; try done.
  rewrite (N.compare_antisym (Byte.to_N x)).
  destruct (N.compare (Byte.to_N x) (Byte.to_N y)); simpl; auto.
Qed.

Lemma key_compare_Lt_trans a b c :
  key_compare a b = Lt -> key_compare b c = Lt -> key_compare a c = Lt.
Proof.
  revert b c; induction a as [|x a IH]; intros [|y b] [|z c]; simpl; try done.
  destruct (N.compare_spec (Byte.to_N x) (Byte.to_N y)) as [E1|E1|E1];
  destruct (N.compare_spec (Byte.to_N y) (Byte.to_N z)) as [E2|E2|E2];
  destruct (N.compare_spec (Byte.to_N x) (Byte.to_N z)) as [E3|E3|E3];
  try done; try lia; eauto.
Qed.

#[export] Instance key_lt_strict : StrictOrder key_lt.
Proof.
  split.
  - intros a H. unfold key_lt in H. by rewrite key_compare_refl in H.
  - intros a b c. apply key_compare_Lt_trans.
Qed.

Lemma key_le_lt_eq a b : a <=k b <-> a <k b \/ a = b.
Proof.
  unfold key_le, key_lt. rewrite <- key_compare_eq.
  destruct (key_compare a b); intuition congruence.
Qed.

Lemma key_lt_asym_le a b : a <k b -> ~ b <=k a.
Proof. unfold key_lt, key_le. rewrite (key_compare_antisym a b). intros ->. simpl. tauto. Qed.

Lemma key_not_lt a b : ~ a <k b <-> b <=k a.
Proof.
  unfold key_lt, key_le. rewrite (key_compare_antisym a b).
  destruct (key_compare a b); simpl; intuition congruence.
Qed.

#[export] Instance key_le_total : Total key_le.
Proof.
  intros a b. unfold key_le. rewrite (key_compare_antisym a b).
  destruct (key_compare a b); simpl; [left|left|right]; congruence.
Qed.

#[export] Instance key_le_po : PartialOrder key_le.
Proof.
  repeat split.
  - intros a. apply key_le_lt_eq. by right.
  - intros a b c Hab Hbc. apply key_le_lt_eq in Hab, Hbc. apply key_le_lt_eq.
    destruct Hab as [Hab| ->], Hbc as [Hbc| ->]; eauto. left; by transitivity b.
  - intros a b Hab Hba. apply key_le_lt_eq in Hab as [Hab|]; [|done].
    by apply key_lt_asym_le in Hab.
Qed.

#[export] Hint Resolve key_compare_refl key_le_lt_eq : tikv.

(** [Ok]/[Err] equalities, as generated by a bind that ran. *)
Ltac simplify_result :=
  repeat match goal with
  | H : Ok _ = Ok _ |- _ => injection H as H; subst
  | H : Ok _ = Err _ |- _ => discriminate H
  | H : Err _ = Ok _ |- _ => discriminate H
  | H : Err _ = Err _ |- _ => injection H as H; subst
  | H : result_bind _ _ = Ok _ |- _ => apply result_bind_Ok in H as (?&?&?)
  end.
