(* ===== verification/Ffi.v ===== *)
(** * The [cxx::bridge] data and the pure conversions of [lib.rs]

    The shared structs and the shared enum [Bound] of [mod ffi]
    (lib.rs 30-55), the conversion [to_bound_range] (lib.rs 494-513),
    the [Option<Vec<u8>>] to [OptionalValue] conversion written out in
    [transaction_get], [transaction_get_for_update] and [snapshot_get],
    and the [KvPair]/[Key] conversions of the scan functions.  The
    [BoundRange] that [to_bound_range] builds is the pair of
    [std::ops::Bound]s of [tikv_client]; its membership predicate,
    which every scan filters keys with, is modelled from section 4.4 of
    the specification. *)

From S2P Require Import Prelude.

(** ** The bridge's shared types *)

(** [struct Key { key: Vec<u8> }] *)
Record Key := mkKey { key : bytes }.

(** [struct KvPair { key: Vec<u8>, value: Vec<u8> }] *)
Record KvPair := mkKvPair { pair_key : bytes; pair_value : bytes }.

(** [struct PrewriteResult { key: Vec<u8>, version: u64 }] *)
Record PrewriteResult := mkPrewriteResult { pw_key : bytes; pw_version : Z }.

(** [struct OptionalValue { is_none: bool, value: Vec<u8> }] *)
Record OptionalValue := mkOptionalValue { is_none : bool; ov_value : bytes }.

(** [enum Bound { Included, Excluded, Unbounded }].  A shared enum of
    [cxx] is, on the Rust side, a struct holding its discriminant
    ([repr: u8]) with one associated constant per variant: C++ can
    pass any [u8], which is why [to_bound_range] has a [_] arm. *)
Record Bound := mkBound { repr : Z }.
Definition Included : Bound := mkBound 0.
Definition Excluded : Bound := mkBound 1.
Definition Unbounded : Bound := mkBound 2.

(** [std::ops::Bound<Vec<u8>>] *)
Inductive OpsBound :=
| OIncluded (k : bytes)
| OExcluded (k : bytes)
| OUnbounded.

(** [tikv_client::BoundRange { from, to }] *)
Record BoundRange := mkBoundRange { range_from : OpsBound; range_to : OpsBound }.

(** ** [to_bound_range] (lib.rs 494-513) *)

(** One of the two [match]es: [None] is the [panic!("unexpected bound")]
    arm. *)
Definition to_ops_bound (k : bytes) (b : Bound) : option OpsBound :=
  match repr b with
  | 0%Z => Some (OIncluded k)
  | 1%Z => Some (OExcluded k)
  | 2%Z => Some (OUnbounded)
  | _ => None
  end.

Definition to_bound_range (start : bytes) (start_bound : Bound)
    (end_ : bytes) (end_bound : Bound) : result BoundRange :=
  match to_ops_bound start start_bound with
  | None => Err Panicked
  | Some sb =>
      match to_ops_bound end_ end_bound with
      | None => Err Panicked
      | Some eb => Ok (mkBoundRange sb eb)
      end
  end.

(** ** Membership (specification, section 4.4) *)

Definition lower_ok (b : OpsBound) (k : bytes) : bool :=
  match b with
  | OIncluded s => bool_decide (s <=k k)
  | OExcluded s => bool_decide (s <k k)
  | OUnbounded => true
  end.

Definition upper_ok (b : OpsBound) (k : bytes) : bool :=
  match b with
  | OIncluded e => bool_decide (k <=k e)
  | OExcluded e => bool_decide (k <k e)
  | OUnbounded => true
  end.

Definition range_contains (r : BoundRange) (k : bytes) : bool :=
  lower_ok (range_from r) k && upper_ok (range_to r) k.

(** ** Result conversions *)

(** The [match] on [Option<Vec<u8>>] of [transaction_get]
    (lib.rs 317-326), [transaction_get_for_update] (333-342) and
    [snapshot_get] (542-551). *)
Definition optional_value_of (o : option bytes) : OptionalValue :=
  match o with
  | Some value => mkOptionalValue false value
  | None => mkOptionalValue true []
  end.

(** How the C++ caller reads an [OptionalValue] back. *)
Definition value_of_optional (ov : OptionalValue) : option bytes :=
  if is_none ov then None else Some (ov_value ov).

(** The closures [|tikv_client::KvPair(key, value)| KvPair { key:
    key.into(), value }] and [|key| Key { key: key.into() }]. *)
Definition kv_pair_of (kv : bytes * bytes) : KvPair := mkKvPair kv.1 kv.2.
Definition key_of (k : bytes) : Key := mkKey k.

(** ** Lemmas *)

Definition valid_bound (b : Bound) : bool := bool_decide (0 <= repr b < 3)%Z.

Lemma valid_bound_to_ops k b :
  valid_bound b = match to_ops_bound k b with Some _ => true | None => false end.
Proof.
  unfold valid_bound, to_ops_bound.
  destruct b as [[|[[p|p|]|[p|p|]|]|p]]; simpl; apply bool_decide_eq_false_2 || done; lia.
Qed.

Lemma key_le_refl k : k <=k k.
Proof. apply key_le_lt_eq. by right. Qed.

Lemma key_lt_le_trans a b c : a <k b -> b <=k c -> a <k c.
Proof. intros H1 H2. apply key_le_lt_eq in H2 as [H2| ->]; [by transitivity b|done]. Qed.

Lemma key_le_lt_trans a b c : a <=k b -> b <k c -> a <k c.
Proof. intros H1 H2. apply key_le_lt_eq in H1 as [H1| ->]; [by transitivity b|done]. Qed.

#[export] Hint Resolve key_le_refl key_lt_le_trans key_le_lt_trans : tikv.

Lemma bound_cases b :
  valid_bound b = true -> b = Included \/ b = Excluded \/ b = Unbounded.
Proof.
  unfold valid_bound. rewrite bool_decide_eq_true.
  destruct b as [r]; simpl; intros H.
  assert (r = 0 \/ r = 1 \/ r = 2)%Z as [ -> | [ -> | -> ] ] by lia; auto.
Qed.

Lemma to_bound_range_Ok s sb e eb r :
  to_bound_range s sb e eb = Ok r ->
  exists fb tb, to_ops_bound s sb = Some fb /\ to_ops_bound e eb = Some tb /\
    r = mkBoundRange fb tb.
Proof.
  unfold to_bound_range.
  destruct (to_ops_bound s sb), (to_ops_bound e eb); intros H; simplify_result; eauto.
Qed.

(** C34. [to_bound_range] never fails on the three variants of [Bound],
    and on any other discriminant it takes the [panic!] arm: the result
    is [Ok] exactly when both discriminants are valid, and the only error
    is [Panicked]. *)
Theorem to_bound_range_total s sb e eb :
  is_ok (to_bound_range s sb e eb) = valid_bound sb && valid_bound eb /\
  (forall err, to_bound_range s sb e eb = Err err -> err = Panicked).
Proof.
  rewrite (valid_bound_to_ops s sb), (valid_bound_to_ops e eb).
  unfold to_bound_range.
  destruct (to_ops_bound s sb), (to_ops_bound e eb); split; intros; simplify_result; done.
Qed.

(** C35. The range built by [to_bound_range] contains exactly the keys
    the specification's predicate admits (section 4.4): an [Included]
    bound admits a key equal to it, an [Excluded] bound skips it, and
    [Unbounded] removes the constraint on its side. *)
Theorem to_bound_range_contains s sb e eb r k :
  to_bound_range s sb e eb = Ok r ->
  range_contains r k = true <->
    (sb = Included -> s <=k k) /\ (sb = Excluded -> s <k k) /\
    (eb = Included -> k <=k e) /\ (eb = Excluded -> k <k e).
Proof.
  intros H. pose proof H as H'. apply to_bound_range_Ok in H as (fb & tb & Hf & Ht & ->).
  assert (valid_bound sb = true /\ valid_bound eb = true) as [Vs Ve].
  { rewrite (valid_bound_to_ops s sb), (valid_bound_to_ops e eb), Hf, Ht. done. }
  unfold range_contains. simpl. rewrite andb_true_iff.
  apply bound_cases in Vs as [ -> | [ -> | -> ] ]; apply bound_cases in Ve as [ -> | [ -> | -> ] ];
    unfold to_ops_bound, Included, Excluded, Unbounded in *; simpl in Hf, Ht;
    simplify_eq; simpl; rewrite ?bool_decide_eq_true.
  all: split; [intros [H1 H2]; repeat split; intros E; simplify_eq; done|].
  all: intros (H1 & H2 & H3 & H4); split; eauto.
Qed.

(** The scan of the specification's example, [scan("a", "c")] with
    [(Included, Excluded)], admits ["b"]. *)
Lemma to_bound_range_contains_witness :
  to_bound_range (bs "a") Included (bs "c") Excluded =
    Ok (mkBoundRange (OIncluded (bs "a")) (OExcluded (bs "c"))) /\
  (range_contains (mkBoundRange (OIncluded (bs "a")) (OExcluded (bs "c"))) (bs "b") = true <->
    (Included = Included -> bs "a" <=k bs "b") /\ (Included = Excluded -> bs "a" <k bs "b") /\
    (Excluded = Included -> bs "b" <=k bs "c") /\ (Excluded = Excluded -> bs "b" <k bs "c")).
Proof.
  split; [reflexivity|].
  apply (to_bound_range_contains (bs "a") Included (bs "c") Excluded). reflexivity.
Defined.
