(* ===== verification/Client.v ===== *)
(** * Building a [TransactionClient]: configuration, logging, connection

    [transaction_client_new] (lib.rs 231-252) and
    [transaction_client_new_with_config] (lib.rs 254-281) turn their C++
    strings into Rust strings ([CxxString::to_str], which fails on bytes
    that are not UTF-8), build a [tikv_client::Config], install the
    log file through [create_slog_logger] (lib.rs 199-229) and connect.

    - [utf8_valid] is the check of [std::str::from_utf8] (RFC 3629: no
      overlong forms, no surrogates, nothing above U+10FFFF);
    - [Process] is what [create_slog_logger] reads and changes in the
      process: the local clock ([chrono::Local::now]), which paths can be
      opened, the log files created, the [Once] named [START], whether a
      [log] logger is already installed, and [slog_scope]'s global logger;
    - [connect] is [tikv_client::TransactionClient::new_with_config],
      modelled from the specification (section 4.1): it fails with
      [ConnectionError] when no endpoint is reachable or when TLS
      material is given and cannot be read.

    A panic ([expect], [unwrap]) is the error [Panicked]: [cxx] does not
    let it unwind into C++ and aborts the process, so nothing after it
    runs. *)

From S2P Require Import Prelude.

(** ** UTF-8 *)

Definition byte_in (lo hi : N) (b : byte) : bool :=
  (lo <=? Byte.to_N b)%N && (Byte.to_N b <=? hi)%N.

(** A continuation byte, [0x80..=0xBF]. *)
Definition cont (b : byte) : bool := byte_in 0x80 0xBF b.

(** The table of [core::str::validations::run_utf8_validation]: the
    first byte fixes the length and the range of the second byte. *)
Fixpoint utf8_valid (l : bytes) : bool :=
  match l with
  | [] => true
  | b0 :: rest =>
      if byte_in 0x00 0x7F b0 then utf8_valid rest
      else if byte_in 0xC2 0xDF b0 then
        match rest with
        | b1 :: rest' => cont b1 && utf8_valid rest'
        | _ => false
        end
      else if byte_in 0xE0 0xEF b0 then
        match rest with
        | b1 :: b2 :: rest' =>
            (if Byte.eqb b0 Byte.xe0 then byte_in 0xA0 0xBF b1
             else if Byte.eqb b0 Byte.xed then byte_in 0x80 0x9F b1
             else cont b1) && cont b2 && utf8_valid rest'
        | _ => false
        end
      else if byte_in 0xF0 0xF4 b0 then
        match rest with
        | b1 :: b2 :: b3 :: rest' =>
            (if Byte.eqb b0 Byte.xf0 then byte_in 0x90 0xBF b1
             else if Byte.eqb b0 Byte.xf4 then byte_in 0x80 0x8F b1
             else cont b1) && cont b2 && cont b3 && utf8_valid rest'
        | _ => false
        end
      else false
  end.

(** [CxxString::to_str]: the same bytes as a [&str], or [Utf8Error]. *)
Definition to_str (s : bytes) : result bytes :=
  if utf8_valid s then Ok s else Err Utf8Error.

(** [.map(|str| str.to_str()...).collect::<Result<Vec<_>, _>>()]: the
    first error in order, or all the strings. *)
Fixpoint collect_to_str (l : list bytes) : result (list bytes) :=
  match l with
  | [] => Ok []
  | s :: l' =>
      match to_str s with
      | Err e => Err e
      | Ok s' => match collect_to_str l' with Err e => Err e | Ok ss => Ok (s' :: ss) end
      end
  end.

(** ** [tikv_client::Config] *)

Record Config := mkConfig {
  ca_path : option bytes;
  cert_path : option bytes;
  key_path : option bytes;
  (** seconds *)
  timeout : Z;
}.

(** [Config::default()]: plaintext, a two-second timeout. *)
Definition config_default : Config := mkConfig None None None 2.

Definition with_timeout (c : Config) (t : Z) : Config :=
  mkConfig (ca_path c) (cert_path c) (key_path c) t.

(** ** The log file *)

(** The fields of [chrono::Local::now()] that the format uses. *)
Record DateTime := mkDateTime {
  year : Z; month : Z; day : Z; hour : Z; minute : Z; second : Z;
}.

Definition digit (d : Z) : byte :=
  match Byte.of_N (48 + Z.to_N d)%N with Some b => b | None => "0"%byte end.

(** The last [n] decimal digits of [v], zero-padded: [%m], [%d], [%H],
    [%M], [%S] are [pad_digits 2], [%Y] of a year of [0..=9999] is
    [pad_digits 4]. *)
Fixpoint pad_digits (n : nat) (v : Z) : bytes :=
  match n with
  | O => []
  | S n' => pad_digits n' (v / 10) ++ [digit (v mod 10)]
  end.

(** [format("/tikv-client-%Y%m%d%H%M%S.log")] *)
Definition log_file_name (dt : DateTime) : bytes :=
  bs "/tikv-client-" ++ pad_digits 4 (year dt) ++ pad_digits 2 (month dt) ++
  pad_digits 2 (day dt) ++ pad_digits 2 (hour dt) ++ pad_digits 2 (minute dt) ++
  pad_digits 2 (second dt) ++ bs ".log".

(** ** The process *)

Record Process := mkProcess {
  clock : DateTime;
  (** whether [OpenOptions::new().create(true).write(true).open(path)] succeeds *)
  can_open : bytes -> bool;
  (** the log files opened, in order *)
  log_files : list bytes;
  (** [START.call_once] has run *)
  start_done : bool;
  (** a [log] logger is installed ([slog_stdlog::init] fails then) *)
  std_log_set : bool;
  (** [slog_scope]'s global logger: the file it writes to *)
  global_logger : option bytes;
}.

(** The process when the library is loaded: [START] has not run
    ([static START: Once = Once::new()]), no log file is open and no
    logger is installed. *)
Definition process_start (clk : DateTime) (can_open : bytes -> bool) : Process :=
  mkProcess clk can_open [] false false None.

Definition opened (p : Process) (path : bytes) : Process :=
  mkProcess (clock p) (can_open p) (log_files p ++ [path]) (start_done p) (std_log_set p)
    (global_logger p).

(** The body of [START.call_once]: the global logger becomes the new
    one, then [slog_stdlog::init().unwrap()]. *)
Definition start_once (p : Process) (logger : bytes) : result unit * Process :=
  let p' := mkProcess (clock p) (can_open p) (log_files p) true true (Some logger) in
  if std_log_set p then (Err Panicked, p') else (Ok tt, p').

(** [slog_scope::logger()]: the global logger (a discarding one, [None],
    when none is set). *)
Definition scope_logger (p : Process) : option bytes := global_logger p.

(** lib.rs 199-229.  The logger returned is the global one: the file of
    the first call, whatever [log_path] this call was given. *)
Definition create_slog_logger (p : Process) (log_path : bytes) : result (option bytes) * Process :=
  match to_str log_path with
  | Err e => (Err e, p)
  | Ok log_path =>
      let log_path := log_path ++ log_file_name (clock p) in
      if negb (can_open p log_path) then (Err Panicked, p)
      else
        let p1 := opened p log_path in
        if start_done p1 then (Ok (scope_logger p1), p1)
        else
          match start_once p1 log_path with
          | (Err e, p2) => (Err e, p2)
          | (Ok _, p2) => (Ok (scope_logger p2), p2)
          end
  end.

(** ** Connecting *)

(** The cluster as the client sees it. *)
Record Network := mkNetwork {
  reachable : bytes -> bool;
  readable : bytes -> bool;
}.

(** A connected client: the endpoints, the configuration and the
    logger it was built with. *)
Record TransactionClient := mkClient {
  endpoints : list bytes;
  client_config : Config;
  client_logger : option bytes;
}.

(** [tikv_client::TransactionClient::new_with_config], from the
    specification: some endpoint must answer, and TLS material, when the
    three paths are given, must be readable. *)
Definition connect (net : Network) (eps : list bytes) (cfg : Config) (log : option bytes)
    : result TransactionClient :=
  if negb (existsb (reachable net) eps) then Err ConnectionError
  else
    match ca_path cfg, cert_path cfg, key_path cfg with
    | Some ca, Some cert, Some key =>
        if readable net ca && readable net cert && readable net key
        then Ok (mkClient eps cfg log) else Err ConnectionError
    | _, _, _ => Ok (mkClient eps cfg log)
    end.

(** lib.rs 231-252: the configuration, the logger, the endpoints, the
    connection, in this order. *)
Definition transaction_client_new (p : Process) (net : Network) (pd_endpoints : list bytes)
    (log_path : bytes) (timeout : Z) : result TransactionClient * Process :=
  let config := with_timeout config_default timeout in
  match create_slog_logger p log_path with
  | (Err e, p') => (Err e, p')
  | (Ok log, p') =>
      match collect_to_str pd_endpoints with
      | Err e => (Err e, p')
      | Ok pd_endpoints => (connect net pd_endpoints config log, p')
      end
  end.

(** lib.rs 254-281: the three TLS paths are converted first, and all
    three are always given. *)
Definition transaction_client_new_with_config (p : Process) (net : Network)
    (pd_endpoints : list bytes) (log_path ca_path cert_path key_path : bytes) (timeout : Z)
    : result TransactionClient * Process :=
  match to_str ca_path with
  | Err e => (Err e, p)
  | Ok ca =>
      match to_str cert_path with
      | Err e => (Err e, p)
      | Ok cert =>
          match to_str key_path with
          | Err e => (Err e, p)
          | Ok key =>
              let config := mkConfig (Some ca) (Some cert) (Some key) timeout in
              match create_slog_logger p log_path with
              | (Err e, p') => (Err e, p')
              | (Ok log, p') =>
                  match collect_to_str pd_endpoints with
                  | Err e => (Err e, p')
                  | Ok pd_endpoints => (connect net pd_endpoints config log, p')
                  end
              end
          end
      end
  end.

(** ** A concrete process, for the witnesses *)

Definition demo_clock : DateTime := mkDateTime 2024 3 5 7 8 9.
Definition demo_process : Process := process_start demo_clock (fun _ => true).
Definition demo_net : Network := mkNetwork (fun _ => true) (fun _ => true).
Definition demo_client (eps : list bytes) (lp : bytes) : TransactionClient :=
  mkClient eps (mkConfig None None None 5) (Some (lp ++ log_file_name demo_clock)).

(** ** Lemmas *)

Lemma collect_to_str_Ok l l' : collect_to_str l = Ok l' <-> forallb utf8_valid l = true /\ l' = l.
Proof.
  revert l'. induction l as [|x l IH]; intros l'; simpl.
  { split; [intros [= <-]|intros [_ ->]]; done. }
  unfold to_str. destruct (utf8_valid x); simpl; [|split; [done|by intros []]].
  destruct (collect_to_str l) as [ss|e] eqn:E; split.
  - intros [= <-]. by destruct (proj1 (IH ss) eq_refl) as [? ->].
  - intros [Hf ->]. pose proof (proj2 (IH l) (conj Hf eq_refl)). congruence.
  - done.
  - intros [Hf ->]. pose proof (proj2 (IH l) (conj Hf eq_refl)). congruence.
Qed.

Lemma collect_to_str_Err l e : collect_to_str l = Err e <-> e = Utf8Error /\ forallb utf8_valid l = false.
Proof.
  induction l as [|x l IH]; simpl; [split; [done|by intros []]|].
  unfold to_str. destruct (utf8_valid x); simpl; [|split; [by intros [= <-]|by intros [-> _]]].
  destruct (collect_to_str l) as [ss|e'] eqn:E.
  - pose proof (proj1 (collect_to_str_Ok l ss) E) as [Hf _]. rewrite Hf.
    split; [done|by intros []].
  - rewrite <- IH. split; congruence.
Qed.

(** The logger of a successful [create_slog_logger], and the process it
    leaves: one more log file, [START] done, and the global logger that
    of the first call. *)
Lemma create_slog_logger_Ok p lp log p' :
  create_slog_logger p lp = (Ok log, p') ->
  utf8_valid lp = true /\ can_open p (lp ++ log_file_name (clock p)) = true /\
  log = (if start_done p then global_logger p else Some (lp ++ log_file_name (clock p))) /\
  p' = mkProcess (clock p) (can_open p) (log_files p ++ [lp ++ log_file_name (clock p)])
         true (if start_done p then std_log_set p else true) log.
Proof.
  unfold create_slog_logger, to_str. destruct (utf8_valid lp); [|done].
  destruct (can_open p _) eqn:Ho; [|done]. simpl.
  destruct (start_done p) eqn:Hs; simpl.
  - intros [= <- <-]. split_and!; try done. by destruct p; simpl in *; subst.
  - unfold start_once. simpl. destruct (std_log_set p); [done|]. intros [= <- <-]. done.
Qed.

Lemma create_slog_logger_Err p lp e p' :
  create_slog_logger p lp = (Err e, p') ->
  (utf8_valid lp = false /\ e = Utf8Error /\ p' = p) \/ e = Panicked.
Proof.
  unfold create_slog_logger, to_str. destruct (utf8_valid lp); [|intros [= <- <-]; by left].
  destruct (can_open p _); simpl; [|intros [= <- _]; by right].
  destruct (start_done p); simpl; [done|]. unfold start_once. simpl.
  destruct (std_log_set p); [intros [= <- _]; by right|done].
Qed.

(** ** Theorems *)

(** A log path that is not UTF-8 fails before anything happens. *)
Lemma client_new_bad_log_path p net eps lp to :
  utf8_valid lp = false -> transaction_client_new p net eps lp to = (Err Utf8Error, p).
Proof. intros Hv. unfold transaction_client_new, create_slog_logger, to_str. by rewrite Hv. Qed.

(** C31. Building a client with an endpoint that is not UTF-8 fails with
    [Utf8Error], but only after the log file has been created and the
    process-wide logger installed: the failed construction leaves the
    process changed (a new log file, [START] done, the global logger set
    to the new file if it was the first). *)
Theorem client_new_bad_endpoint p net eps lp to :
  utf8_valid lp = true -> can_open p (lp ++ log_file_name (clock p)) = true ->
  (start_done p = true \/ std_log_set p = false) ->
  forallb utf8_valid eps = false ->
  exists p', transaction_client_new p net eps lp to = (Err Utf8Error, p') /\
    log_files p' = log_files p ++ [lp ++ log_file_name (clock p)] /\
    start_done p' = true /\
    global_logger p' = (if start_done p then global_logger p else Some (lp ++ log_file_name (clock p))).
Proof.
  intros Hv Ho Hs He. unfold transaction_client_new.
  destruct (create_slog_logger p lp) as [[log|e] p1] eqn:Hc.
  - apply create_slog_logger_Ok in Hc as (_ & _ & Hlog & ->).
    rewrite (proj2 (collect_to_str_Err eps Utf8Error) (conj eq_refl He)).
    by eexists; split_and!.
  - exfalso. revert Hc. unfold create_slog_logger, to_str. rewrite Hv, Ho. simpl.
    unfold start_once. simpl. destruct (start_done p), (std_log_set p); naive_solver.
Qed.

(** C30. Only the first client of the process logs to its own file:
    when a second client is built with another [log_path], its log file
    is created, but the logger it receives is the global one, that of
    the first client's file ([START.call_once] installs a global logger
    once, and [create_slog_logger] returns [slog_scope::logger()]). *)
Theorem second_client_shares_logger p net eps1 lp1 to1 c1 p1 eps2 lp2 to2 c2 p2 :
  start_done p = false ->
  transaction_client_new p net eps1 lp1 to1 = (Ok c1, p1) ->
  transaction_client_new p1 net eps2 lp2 to2 = (Ok c2, p2) ->
  client_logger c1 = Some (lp1 ++ log_file_name (clock p)) /\
  client_logger c2 = client_logger c1 /\
  log_files p2 = log_files p ++ [lp1 ++ log_file_name (clock p); lp2 ++ log_file_name (clock p)].
Proof.
  intros Hs. unfold transaction_client_new.
  destruct (create_slog_logger p lp1) as [[log1|] q1] eqn:H1; [|done].
  apply create_slog_logger_Ok in H1 as (_ & _ & Hl1 & ->). rewrite Hs in Hl1.
  destruct (collect_to_str eps1) as [e1|]; [|done]. intros Hc1. injection Hc1 as Hc1 <-.
  destruct (create_slog_logger _ lp2) as [[log2|] q2] eqn:H2; [|done].
  apply create_slog_logger_Ok in H2 as (_ & _ & Hl2 & ->). simpl in Hl2.
  destruct (collect_to_str eps2) as [e2|]; [|done]. intros Hc2. injection Hc2 as Hc2 <-.
  unfold connect in Hc1, Hc2. simpl in *.
  repeat case_match; simplify_eq; simpl; rewrite <- app_assoc; done.
Qed.

(** C32. A client built by [transaction_client_new] is plaintext with
    the given timeout (in seconds) and the given endpoints, all of them
    UTF-8 and one of them reachable; one built by
    [transaction_client_new_with_config] always carries the three TLS
    paths, each UTF-8 and readable. *)
Theorem client_new_config p net eps lp to c p' ca cert key :
  (transaction_client_new p net eps lp to = (Ok c, p') ->
   client_config c = mkConfig None None None to /\ endpoints c = eps /\
   forallb utf8_valid eps = true /\ existsb (reachable net) eps = true) /\
  (transaction_client_new_with_config p net eps lp ca cert key to = (Ok c, p') ->
   client_config c = mkConfig (Some ca) (Some cert) (Some key) to /\ endpoints c = eps /\
   forallb utf8_valid (ca :: cert :: key :: eps) = true /\ existsb (reachable net) eps = true /\
   readable net ca && readable net cert && readable net key = true).
Proof.
  split.
  - unfold transaction_client_new. destruct (create_slog_logger p lp) as [[log|] q] ; [|done].
    destruct (collect_to_str eps) as [eps'|] eqn:E; [|done].
    apply collect_to_str_Ok in E as [Hf ->]. unfold connect.
    destruct (existsb _ _); simpl; [|done]. intros; simplify_eq. done.
  - unfold transaction_client_new_with_config, to_str.
    destruct (utf8_valid ca) eqn:Hca, (utf8_valid cert) eqn:Hce, (utf8_valid key) eqn:Hk; try done.
    destruct (create_slog_logger p lp) as [[log|] q] ; [|done].
    destruct (collect_to_str eps) as [eps'|] eqn:E; [|done].
    apply collect_to_str_Ok in E as [Hf ->]. unfold connect. simpl.
    destruct (existsb _ _); simpl; [|done].
    destruct (readable net ca && readable net cert && readable net key) eqn:Hr; [|done].
    intros; simplify_eq. simpl. by rewrite Hca, Hce, Hk, Hf.
Qed.

(** ** Witnesses *)

Lemma client_new_bad_endpoint_witness :
  utf8_valid (bs "/tmp") = true /\
  can_open demo_process (bs "/tmp" ++ log_file_name (clock demo_process)) = true /\
  (start_done demo_process = true \/ std_log_set demo_process = false) /\
  forallb utf8_valid [[Byte.xff]] = false /\
  exists p', transaction_client_new demo_process demo_net [[Byte.xff]] (bs "/tmp") 5 = (Err Utf8Error, p') /\
    log_files p' = log_files demo_process ++ [bs "/tmp" ++ log_file_name (clock demo_process)] /\
    start_done p' = true /\
    global_logger p' = (if start_done demo_process then global_logger demo_process
                        else Some (bs "/tmp" ++ log_file_name (clock demo_process))).
Proof.
  assert (Hs : start_done demo_process = true \/ std_log_set demo_process = false) by (right; reflexivity).
  split; [reflexivity|]. split; [reflexivity|]. split; [exact Hs|]. split; [reflexivity|].
  exact (client_new_bad_endpoint demo_process demo_net [[Byte.xff]] (bs "/tmp") 5
           eq_refl eq_refl Hs eq_refl).
Defined.

Lemma second_client_shares_logger_witness :
  start_done demo_process = false /\
  transaction_client_new demo_process demo_net [bs "pd:2379"] (bs "/tmp/a") 5 =
    (Ok (demo_client [bs "pd:2379"] (bs "/tmp/a")),
     (transaction_client_new demo_process demo_net [bs "pd:2379"] (bs "/tmp/a") 5).2) /\
  transaction_client_new (transaction_client_new demo_process demo_net [bs "pd:2379"] (bs "/tmp/a") 5).2
    demo_net [bs "pd:2379"] (bs "/tmp/b") 5 =
    (Ok (demo_client [bs "pd:2379"] (bs "/tmp/a")),
     (transaction_client_new (transaction_client_new demo_process demo_net [bs "pd:2379"] (bs "/tmp/a") 5).2
        demo_net [bs "pd:2379"] (bs "/tmp/b") 5).2) /\
  (client_logger (demo_client [bs "pd:2379"] (bs "/tmp/a")) =
     Some (bs "/tmp/a" ++ log_file_name (clock demo_process)) /\
   client_logger (demo_client [bs "pd:2379"] (bs "/tmp/a")) =
     client_logger (demo_client [bs "pd:2379"] (bs "/tmp/a")) /\
   log_files (transaction_client_new (transaction_client_new demo_process demo_net [bs "pd:2379"] (bs "/tmp/a") 5).2
        demo_net [bs "pd:2379"] (bs "/tmp/b") 5).2 =
     log_files demo_process ++ [bs "/tmp/a" ++ log_file_name (clock demo_process);
                                bs "/tmp/b" ++ log_file_name (clock demo_process)]).
Proof.
  assert (H1 : transaction_client_new demo_process demo_net [bs "pd:2379"] (bs "/tmp/a") 5 =
    (Ok (demo_client [bs "pd:2379"] (bs "/tmp/a")),
     (transaction_client_new demo_process demo_net [bs "pd:2379"] (bs "/tmp/a") 5).2)) by reflexivity.
  assert (H2 : transaction_client_new (transaction_client_new demo_process demo_net [bs "pd:2379"] (bs "/tmp/a") 5).2
    demo_net [bs "pd:2379"] (bs "/tmp/b") 5 =
    (Ok (demo_client [bs "pd:2379"] (bs "/tmp/a")),
     (transaction_client_new (transaction_client_new demo_process demo_net [bs "pd:2379"] (bs "/tmp/a") 5).2
        demo_net [bs "pd:2379"] (bs "/tmp/b") 5).2)) by reflexivity.
  split; [reflexivity|]. split; [exact H1|]. split; [exact H2|].
  exact (second_client_shares_logger demo_process _ _ _ _ _ _ _ _ _ _ _ eq_refl H1 H2).
Defined.

Lemma client_new_config_witness :
  transaction_client_new demo_process demo_net [bs "pd:2379"] (bs "/tmp/a") 5 =
    (Ok (demo_client [bs "pd:2379"] (bs "/tmp/a")),
     (transaction_client_new demo_process demo_net [bs "pd:2379"] (bs "/tmp/a") 5).2) /\
  (client_config (demo_client [bs "pd:2379"] (bs "/tmp/a")) = mkConfig None None None 5 /\
   endpoints (demo_client [bs "pd:2379"] (bs "/tmp/a")) = [bs "pd:2379"] /\
   forallb utf8_valid [bs "pd:2379"] = true /\ existsb (reachable demo_net) [bs "pd:2379"] = true).
Proof.
  assert (H1 : transaction_client_new demo_process demo_net [bs "pd:2379"] (bs "/tmp/a") 5 =
    (Ok (demo_client [bs "pd:2379"] (bs "/tmp/a")),
     (transaction_client_new demo_process demo_net [bs "pd:2379"] (bs "/tmp/a") 5).2)) by reflexivity.
  split; [exact H1|].
  exact (proj1 (client_new_config demo_process demo_net [bs "pd:2379"] (bs "/tmp/a") 5 _ _ [] [] []) H1).
Defined.
