(* ===== verification/Utf8.v ===== *)
(** * UTF-8: the check of [CxxString::to_str] is exactly RFC 3629

    [transaction_client_new] and [transaction_client_new_with_config]
    (lib.rs 231-281) accept a C++ string only when [CxxString::to_str]
    does, that is when [std::str::from_utf8] finds its bytes valid
    ([Client.utf8_valid], the byte table of the Rust standard library).
    This file gives the reference definition of a valid string, the
    concatenated RFC 3629 encodings of Unicode scalar values
    ([encode_utf8]), and proves that the table accepts exactly those
    byte strings: encoding any scalar values gives a string the check
    accepts, and every string it accepts decodes into scalar values
    whose encoding is that string.  Bytes are handled through their
    value [n_of b] in [0, 256). *)

From S2P Require Import Prelude Client.

Local Open Scope Z_scope.

(** A Unicode scalar value: a code point that is not a surrogate. *)
Definition scalar (c : Z) : Prop := 0 <= c < 0x110000 /\ ~ (0xD800 <= c <= 0xDFFF).

Definition byte_of (z : Z) : byte := default Byte.x00 (Byte.of_N (Z.to_N z)).
Definition n_of (b : byte) : Z := Z.of_N (Byte.to_N b).

(** The RFC 3629 encoding of a code point: one to four bytes. *)
Definition encode_utf8 (c : Z) : bytes :=
  if decide (c < 0x80) then [byte_of c]
  else if decide (c < 0x800) then [byte_of (0xC0 + c / 64); byte_of (0x80 + c mod 64)]
  else if decide (c < 0x10000) then
    [byte_of (0xE0 + c / 4096); byte_of (0x80 + (c / 64) mod 64); byte_of (0x80 + c mod 64)]
  else
    [byte_of (0xF0 + c / 262144); byte_of (0x80 + (c / 4096) mod 64);
     byte_of (0x80 + (c / 64) mod 64); byte_of (0x80 + c mod 64)].

(** The UTF-8 byte strings. *)
Definition utf8_encoding (l : bytes) : Prop :=
  exists cs, Forall scalar cs /\ l = mjoin (encode_utf8 <$> cs).

(** ** Bytes as numbers *)

Section Bytes.

Lemma n_of_bound b : 0 <= n_of b < 256.
Proof. unfold n_of. pose proof (Byte.to_N_bounded b). lia. Qed.

Lemma n_of_byte_of z : 0 <= z < 256 -> n_of (byte_of z) = z.
Proof.
  intros Hz. unfold n_of, byte_of. destruct (Byte.of_N (Z.to_N z)) as [b|] eqn:E.
  - apply Byte.to_of_N in E. simpl. rewrite E. lia.
  - apply Byte.of_N_None_iff in E. lia.
Qed.

Lemma byte_of_n_of b : byte_of (n_of b) = b.
Proof. unfold byte_of, n_of. by rewrite N2Z.id, Byte.of_to_N. Qed.

Lemma byte_in_n (lo hi : N) b :
  byte_in lo hi b = bool_decide (Z.of_N lo <= n_of b <= Z.of_N hi).
Proof.
  unfold byte_in, n_of. case_bool_decide as Hb.
  - apply andb_true_iff. split; apply N.leb_le; lia.
  - apply not_true_iff_false. rewrite andb_true_iff, !N.leb_le. lia.
Qed.

Lemma eqb_n a b : Byte.eqb a b = bool_decide (n_of a = n_of b).
Proof.
  case_bool_decide as Hn.
  - apply Byte.byte_dec_lb. rewrite <- (byte_of_n_of a), <- (byte_of_n_of b). by rewrite Hn.
  - destruct (Byte.eqb a b) eqn:E; [|done]. apply Byte.byte_dec_bl in E. by subst.
Qed.
End Bytes.

(** The checks of [utf8_valid] on byte values. *)
Ltac utf8_n := rewrite ?byte_in_n, ?eqb_n; cbn [Z.of_N n_of Byte.to_N].

(** ** Encoding then checking *)

Section Encode.

(** What [lia] needs of [c / 64], [c / 4096], [c / 262144] and the
    remainders the encoder takes. *)
Ltac div_facts c :=
  pose proof (Z.div_mod c 64 ltac:(lia)); pose proof (Z.mod_pos_bound c 64 ltac:(lia));
  pose proof (Z.div_mod (c / 64) 64 ltac:(lia)); pose proof (Z.mod_pos_bound (c / 64) 64 ltac:(lia));
  pose proof (Z.div_mod (c / 4096) 64 ltac:(lia)); pose proof (Z.mod_pos_bound (c / 4096) 64 ltac:(lia));
  pose proof (Z.div_div c 64 64 ltac:(lia) ltac:(lia));
  pose proof (Z.div_div c 4096 64 ltac:(lia) ltac:(lia));
  change (64 * 64) with 4096 in *; change (4096 * 64) with 262144 in *.

(** The check accepts the encoding of a scalar value and goes on with
    what follows it. *)
Lemma utf8_valid_encode c rest :
  scalar c -> utf8_valid (encode_utf8 c ++ rest) = utf8_valid rest.
Proof.
  intros [Hc Hs]. div_facts c. unfold encode_utf8.
  repeat case_decide; cbn [app utf8_valid]; unfold cont; utf8_n;
    rewrite ?n_of_byte_of by lia;
    repeat first [rewrite bool_decide_true by lia | rewrite bool_decide_false by lia];
    try reflexivity.
  all: repeat (case_bool_decide; try lia); reflexivity.
Qed.
End Encode.

(** ** Checking then decoding *)

Section Decode.

(** Each accepted sequence of one to four bytes is the encoding of the
    code point it denotes. *)
Lemma encode_1 b0 : 0 <= n_of b0 <= 127 -> encode_utf8 (n_of b0) = [b0].
Proof. intros. unfold encode_utf8. rewrite decide_True by lia. by rewrite byte_of_n_of. Qed.

Lemma encode_2 b0 b1 :
  194 <= n_of b0 <= 223 -> 128 <= n_of b1 <= 191 ->
  encode_utf8 ((n_of b0 - 192) * 64 + (n_of b1 - 128)) = [b0; b1].
Proof.
  intros. unfold encode_utf8. rewrite decide_False, decide_True by lia.
  set (n0 := n_of b0) in *. set (n1 := n_of b1) in *.
  set (c := (n0 - 192) * 64 + (n1 - 128)).
  replace (c / 64) with (n0 - 192) by (apply Z.div_unique_pos with (n1 - 128); unfold c; lia).
  replace (c mod 64) with (n1 - 128) by (apply Z.mod_unique_pos with (n0 - 192); unfold c; lia).
  replace (192 + (n0 - 192)) with n0 by lia. replace (128 + (n1 - 128)) with n1 by lia.
  subst n0 n1. by rewrite !byte_of_n_of.
Qed.

Lemma encode_3 b0 b1 b2 :
  224 <= n_of b0 <= 239 -> 128 <= n_of b1 <= 191 -> 128 <= n_of b2 <= 191 ->
  (n_of b0 = 224 -> 160 <= n_of b1) -> (n_of b0 = 237 -> n_of b1 <= 159) ->
  encode_utf8 ((n_of b0 - 224) * 4096 + (n_of b1 - 128) * 64 + (n_of b2 - 128)) = [b0; b1; b2].
Proof.
  intros. unfold encode_utf8. rewrite decide_False, decide_False, decide_True by lia.
  set (n0 := n_of b0) in *. set (n1 := n_of b1) in *. set (n2 := n_of b2) in *.
  set (c := (n0 - 224) * 4096 + (n1 - 128) * 64 + (n2 - 128)).
  replace (c / 4096) with (n0 - 224)
    by (apply Z.div_unique_pos with ((n1 - 128) * 64 + (n2 - 128)); unfold c; lia).
  replace (c / 64) with ((n0 - 224) * 64 + (n1 - 128))
    by (apply Z.div_unique_pos with (n2 - 128); unfold c; lia).
  replace (((n0 - 224) * 64 + (n1 - 128)) mod 64) with (n1 - 128)
    by (apply Z.mod_unique_pos with (n0 - 224); lia).
  replace (c mod 64) with (n2 - 128)
    by (apply Z.mod_unique_pos with ((n0 - 224) * 64 + (n1 - 128)); unfold c; lia).
  replace (224 + (n0 - 224)) with n0 by lia. replace (128 + (n1 - 128)) with n1 by lia.
  replace (128 + (n2 - 128)) with n2 by lia.
  subst n0 n1 n2. by rewrite !byte_of_n_of.
Qed.

Lemma encode_4 b0 b1 b2 b3 :
  240 <= n_of b0 <= 244 -> 128 <= n_of b1 <= 191 -> 128 <= n_of b2 <= 191 -> 128 <= n_of b3 <= 191 ->
  (n_of b0 = 240 -> 144 <= n_of b1) -> (n_of b0 = 244 -> n_of b1 <= 143) ->
  encode_utf8 ((n_of b0 - 240) * 262144 + (n_of b1 - 128) * 4096 + (n_of b2 - 128) * 64 +
               (n_of b3 - 128)) = [b0; b1; b2; b3].
Proof.
  intros. unfold encode_utf8. rewrite !decide_False by lia.
  set (n0 := n_of b0) in *. set (n1 := n_of b1) in *. set (n2 := n_of b2) in *.
  set (n3 := n_of b3) in *.
  set (c := (n0 - 240) * 262144 + (n1 - 128) * 4096 + (n2 - 128) * 64 + (n3 - 128)).
  replace (c / 262144) with (n0 - 240)
    by (apply Z.div_unique_pos with ((n1 - 128) * 4096 + (n2 - 128) * 64 + (n3 - 128)); unfold c; lia).
  replace (c / 4096) with ((n0 - 240) * 64 + (n1 - 128))
    by (apply Z.div_unique_pos with ((n2 - 128) * 64 + (n3 - 128)); unfold c; lia).
  replace (((n0 - 240) * 64 + (n1 - 128)) mod 64) with (n1 - 128)
    by (apply Z.mod_unique_pos with (n0 - 240); lia).
  replace (c / 64) with ((n0 - 240) * 4096 + (n1 - 128) * 64 + (n2 - 128))
    by (apply Z.div_unique_pos with (n3 - 128); unfold c; lia).
  replace (((n0 - 240) * 4096 + (n1 - 128) * 64 + (n2 - 128)) mod 64) with (n2 - 128)
    by (apply Z.mod_unique_pos with ((n0 - 240) * 64 + (n1 - 128)); lia).
  replace (c mod 64) with (n3 - 128)
    by (apply Z.mod_unique_pos with ((n0 - 240) * 4096 + (n1 - 128) * 64 + (n2 - 128)); unfold c; lia).
  replace (240 + (n0 - 240)) with n0 by lia. replace (128 + (n1 - 128)) with n1 by lia.
  replace (128 + (n2 - 128)) with n2 by lia. replace (128 + (n3 - 128)) with n3 by lia.
  subst n0 n1 n2 n3. by rewrite !byte_of_n_of.
Qed.
End Decode.

Section Equivalence.

Lemma encoding_app c l rest :
  scalar c -> encode_utf8 c = l -> utf8_encoding rest -> utf8_encoding (l ++ rest).
Proof. intros Hc <- (cs & Hcs & ->). exists (c :: cs). split; [by constructor|done]. Qed.

(** Every string the check accepts is a UTF-8 encoding. *)
Lemma utf8_valid_decode l : utf8_valid l = true -> utf8_encoding l.
Proof.
  induction l as [l IH] using (induction_ltof1 _ (@length _)); unfold ltof in IH.
  destruct l as [|b0 rest]; [intros _; by exists []|].
  intros Hv. cbn [utf8_valid] in Hv. unfold cont in Hv. rewrite ?byte_in_n, ?eqb_n in Hv.
  cbn [Z.of_N n_of Byte.to_N] in Hv. pose proof (n_of_bound b0).
  destruct (decide (0 <= n_of b0 <= 127)).
  { rewrite bool_decide_true in Hv by done. change (b0 :: rest) with ([b0] ++ rest).
    apply (encoding_app (n_of b0)); [split; lia|by apply encode_1|apply IH; [simpl; lia|done]]. }
  rewrite bool_decide_false in Hv by done.
  destruct (decide (194 <= n_of b0 <= 223)).
  { rewrite bool_decide_true in Hv by done. destruct rest as [|b1 rest]; [done|].
    rewrite ?byte_in_n in Hv.
    apply andb_true_iff in Hv as [Hc1%bool_decide_eq_true Hv].
    change (b0 :: b1 :: rest) with ([b0; b1] ++ rest).
    apply (encoding_app ((n_of b0 - 192) * 64 + (n_of b1 - 128)));
      [split; lia|by apply encode_2|apply IH; [simpl; lia|done]]. }
  rewrite bool_decide_false in Hv by done.
  destruct (decide (224 <= n_of b0 <= 239)).
  { rewrite bool_decide_true in Hv by done. destruct rest as [|b1 [|b2 rest]]; [done|done|].
    rewrite ?byte_in_n in Hv.
    apply andb_true_iff in Hv as [Hv Hv']. apply andb_true_iff in Hv as [Hv Hc2%bool_decide_eq_true].
    assert (128 <= n_of b1 <= 191 /\ (n_of b0 = 224 -> 160 <= n_of b1) /\
            (n_of b0 = 237 -> n_of b1 <= 159)) as (Hc1 & Ha & Hb)
      by (repeat case_bool_decide; try done; split_and!; intros; lia).
    change (b0 :: b1 :: b2 :: rest) with ([b0; b1; b2] ++ rest).
    apply (encoding_app ((n_of b0 - 224) * 4096 + (n_of b1 - 128) * 64 + (n_of b2 - 128)));
      [split; lia|by apply encode_3|apply IH; [simpl; lia|done]]. }
  rewrite bool_decide_false in Hv by done.
  destruct (decide (240 <= n_of b0 <= 244)); [|by rewrite bool_decide_false in Hv].
  rewrite bool_decide_true in Hv by done. destruct rest as [|b1 [|b2 [|b3 rest]]]; [done|done|done|].
  rewrite ?byte_in_n in Hv.
  apply andb_true_iff in Hv as [Hv Hv']. apply andb_true_iff in Hv as [Hv Hc3%bool_decide_eq_true].
  apply andb_true_iff in Hv as [Hv Hc2%bool_decide_eq_true].
  assert (128 <= n_of b1 <= 191 /\ (n_of b0 = 240 -> 144 <= n_of b1) /\
          (n_of b0 = 244 -> n_of b1 <= 143)) as (Hc1 & Ha & Hb)
    by (repeat case_bool_decide; try done; split_and!; intros; lia).
  change (b0 :: b1 :: b2 :: b3 :: rest) with ([b0; b1; b2; b3] ++ rest).
  apply (encoding_app ((n_of b0 - 240) * 262144 + (n_of b1 - 128) * 4096 + (n_of b2 - 128) * 64 +
                       (n_of b3 - 128))); [split; lia|by apply encode_4|apply IH; [simpl; lia|done]].
Qed.

(** The check of [std::str::from_utf8] is RFC 3629. *)
Lemma utf8_valid_iff l : utf8_valid l = true <-> utf8_encoding l.
Proof.
  split; [apply utf8_valid_decode|]. intros (cs & Hcs & ->).
  induction Hcs as [|c cs Hc _ IH]; [done|].
  change (mjoin (encode_utf8 <$> c :: cs)) with (encode_utf8 c ++ mjoin (encode_utf8 <$> cs)).
  by rewrite utf8_valid_encode.
Qed.

#[export] Instance utf8_encoding_dec l : Decision (utf8_encoding l).
Proof.
  refine (cast_if (decide (utf8_valid l = true))); by rewrite <- utf8_valid_iff.
Defined.

(** C33. The endpoints' conversion of [transaction_client_new]
    (lib.rs 240-243: [to_str] on every C++ string, collected into a
    [Result]) accepts exactly the vectors of UTF-8 strings in the sense
    of RFC 3629 (concatenated encodings of Unicode scalar values), and
    returns them unchanged; any other vector fails with [Utf8Error]. *)
Theorem collect_to_str_utf8 ls :
  collect_to_str ls = if decide (Forall utf8_encoding ls) then Ok ls else Err Utf8Error.
Proof.
  induction ls as [|l ls IH]; [done|]. cbn [collect_to_str]. unfold to_str.
  destruct (utf8_valid l) eqn:E.
  - rewrite IH. apply utf8_valid_iff in E.
    destruct (decide (Forall utf8_encoding ls)) as [Hls|Hls].
    + by rewrite decide_True by (by constructor).
    + rewrite decide_False; [done|]. intros Hf. apply Hls. by inversion Hf.
  - rewrite decide_False; [done|]. inversion 1 as [|? ? Hl]; subst.
    apply utf8_valid_iff in Hl. congruence.
Qed.
End Equivalence.
