(* ===== verification/Buffer.v ===== *)
(** * The mutation buffer of a transaction

    [tikv_client]'s transaction buffer, modelled from the specification
    (sections 3 and 4.2): an insertion-ordered map from keys to
    [Put value] or [Del] in which the last write to a key wins, read
    before the backend (read-your-own-writes), whose first key is the
    default primary of the two-phase commit, and whose writes are
    merged into the backend's scan results. *)

From S2P Require Import Prelude Ffi.

(** [BufferEntry::Put(v) | BufferEntry::Del] *)
Inductive Mutation :=
| Put (v : bytes)
| Del.

#[export] Instance Mutation_eq_dec : EqDecision Mutation.
Proof. solve_decision. Defined.

(** Insertion order is kept: the keys of the list are distinct and a
    key keeps its position when it is written again. *)
Abbreviation Buffer := (list (bytes * Mutation)).

Module Buffer.

Definition empty : Buffer := [].

Fixpoint lookup (b : Buffer) (k : bytes) : option Mutation :=
  match b with
  | [] => None
  | (k', m) :: b' => if decide (k = k') then Some m else lookup b' k
  end.

(** Upsert: replace the entry of [k] in place, or append it. *)
Fixpoint insert (b : Buffer) (k : bytes) (m : Mutation) : Buffer :=
  match b with
  | [] => [(k, m)]
  | (k', m') :: b' =>
      if decide (k = k') then (k, m) :: b' else (k', m') :: insert b' k m
  end.

Definition put (b : Buffer) (k v : bytes) : Buffer := insert b k (Put v).
Definition delete (b : Buffer) (k : bytes) : Buffer := insert b k Del.

(** The value a read sees: the buffered write if there is one, else
    what the backend returned. *)
Definition get_or (b : Buffer) (k : bytes) (backend : option bytes) : option bytes :=
  match lookup b k with
  | Some (Put v) => Some v
  | Some Del => None
  | None => backend
  end.

Definition keys (b : Buffer) : list bytes := fst <$> b.

(** The default primary: the first key written. *)
Definition first_key (b : Buffer) : option bytes := head (keys b).

(** Well-formedness: every key appears once. *)
Definition wf (b : Buffer) : Prop := NoDup (keys b).

(** ** Merge with a backend scan *)

(** Keys by ascending byte order. *)
Definition sort_pairs (l : list (bytes * bytes)) : list (bytes * bytes) :=
  merge_sort (fun p q => p.1 <=k q.1) l.

(** The buffered puts in range. *)
Definition puts_in (b : Buffer) (r : BoundRange) : list (bytes * bytes) :=
  omap (fun '(k, m) => match m with Put v => if range_contains r k then Some (k, v) else None
                                   | Del => None end) b.

(** The entries of a scan over [r] limited to [limit]: the backend's
    pairs (all pairs of the range at the snapshot) whose key is not
    buffered, the buffered puts of the range, in ascending key order,
    cut at [limit]. *)
Definition merge_scan (b : Buffer) (backend : list (bytes * bytes)) (r : BoundRange)
    (limit : nat) : list (bytes * bytes) :=
  take limit (sort_pairs (filter (fun kv => lookup b kv.1 = None) backend ++ puts_in b r)).

(** ** Lemmas *)

Lemma lookup_insert_eq b k m : lookup (insert b k m) k = Some m.
Proof. induction b as [|[k' m'] b IH]; simpl; repeat case_decide; simpl; try case_decide; naive_solver. Qed.

Lemma lookup_insert_ne b k k' m : k <> k' -> lookup (insert b k m) k' = lookup b k'.
Proof.
  intros Hne. induction b as [|[k0 m0] b IH]; simpl.
  - by case_decide.
  - repeat (case_decide; simpl); subst; try done; congruence.
Qed.

Lemma keys_insert_in b k m : k ∈ keys b -> keys (insert b k m) = keys b.
Proof.
  induction b as [|[k0 m0] b IH]; simpl; [by intros ?%elem_of_nil|].
  intros Hin. case_decide; subst; simpl; [done|].
  rewrite IH; [done|]. apply elem_of_cons in Hin as [->|]; [done|done].
Qed.

Lemma keys_insert_notin b k m : k ∉ keys b -> keys (insert b k m) = keys b ++ [k].
Proof.
  induction b as [|[k0 m0] b IH]; simpl; [done|].
  intros Hin. case_decide; subst; [set_solver|]. simpl. rewrite IH; [done|set_solver].
Qed.

Lemma lookup_Some_keys b k m : lookup b k = Some m -> k ∈ keys b.
Proof.
  induction b as [|[k0 m0] b IH]; simpl; [done|].
  case_decide; subst; [intros; left|intros; right; auto].
Qed.

Lemma lookup_None_keys b k : lookup b k = None <-> k ∉ keys b.
Proof.
  induction b as [|[k0 m0] b IH]; simpl; [set_solver|].
  case_decide; subst; [split; [done|set_solver]|]. rewrite IH. set_solver.
Qed.

Lemma insert_wf b k m : wf b -> wf (insert b k m).
Proof.
  unfold wf. intros Hwf. destruct (decide (k ∈ keys b)).
  - by rewrite keys_insert_in.
  - rewrite keys_insert_notin; [|done]. apply NoDup_app; split; [done|].
    split; [set_solver|]. apply NoDup_singleton.
Qed.

Lemma lookup_filter_ne (b : Buffer) p k :
  lookup (filter (fun km => km.1 <> p) b) k = if decide (k = p) then None else lookup b k.
Proof.
  induction b as [|[k0 m0] b IH]; simpl; [by case_decide|].
  rewrite filter_cons. simpl. repeat (case_decide; simpl); subst; try done; congruence.
Qed.

Lemma wf_filter P `{forall km, Decision (P km)} (b : Buffer) : wf b -> wf (filter P b).
Proof.
  unfold wf, keys. induction b as [|[k0 m0] b IH]; simpl; [done|].
  intros [Hn Hd]%NoDup_cons. rewrite filter_cons. case_decide; simpl; [|by auto].
  apply NoDup_cons; split; [|by auto].
  intros Hin. apply Hn. apply list_elem_of_fmap in Hin as ([k' m'] & -> & Hin).
  apply list_elem_of_filter in Hin as [_ Hin]. apply list_elem_of_fmap. by exists (k', m').
Qed.

Lemma lookup_keys_Some b k : k ∈ keys b -> exists m, lookup b k = Some m.
Proof.
  intros Hk. destruct (lookup b k) eqn:E; [by eauto|].
  apply lookup_None_keys in E. done.
Qed.

(** Under [wf], membership is lookup. *)
Lemma elem_of_wf b k m : wf b -> (k, m) ∈ b <-> lookup b k = Some m.
Proof.
  unfold wf, keys. induction b as [|[k0 m0] b IH]; simpl; intros Hwf.
  { split; [by intros ?%elem_of_nil|done]. }
  apply NoDup_cons in Hwf as [Hn Hwf]. rewrite elem_of_cons. case_decide; subst.
  - split; [intros [[= ->]|Hin]; [done|]|intros [= ->]; by left].
    exfalso. apply Hn, list_elem_of_fmap. by exists (k0, m).
  - rewrite <- IH by done. naive_solver.
Qed.

Lemma puts_in_cons k m b r :
  puts_in ((k, m) :: b) r =
    match m with
    | Put v => if range_contains r k then (k, v) :: puts_in b r else puts_in b r
    | Del => puts_in b r
    end.
Proof. destruct m; [|reflexivity]. unfold puts_in; simpl. by destruct (range_contains r k). Qed.

Lemma puts_in_keys b r k : k ∈ fst <$> puts_in b r -> k ∈ keys b.
Proof.
  induction b as [|[k0 m0] b IH]; [done|]. rewrite puts_in_cons. unfold keys; simpl.
  rewrite elem_of_cons. destruct m0; [destruct (range_contains r k0)|]; simpl;
    rewrite ?elem_of_cons; intuition.
Qed.

Lemma puts_in_NoDup b r : wf b -> NoDup (fst <$> puts_in b r).
Proof.
  unfold wf. induction b as [|[k m] b IH]; [constructor|]. rewrite puts_in_cons.
  unfold keys; simpl. intros [Hn Hwf]%NoDup_cons.
  destruct m; [destruct (range_contains r k)|]; simpl; auto.
  constructor; [|by auto]. intros Hk%puts_in_keys. done.
Qed.

Lemma elem_of_puts_in b r k v :
  wf b -> (k, v) ∈ puts_in b r <-> lookup b k = Some (Put v) /\ range_contains r k = true.
Proof.
  intros Hwf. unfold puts_in. rewrite list_elem_of_omap, <- elem_of_wf by done. split.
  - intros ([k' [v'|]] & Hin & Hm); [|done].
    destruct (range_contains r k') eqn:E; simplify_eq. done.
  - intros [Hin Hr]. exists (k, Put v). by rewrite Hr.
Qed.

#[export] Hint Resolve insert_wf wf_filter : tikv.
#[export] Hint Rewrite lookup_insert_eq : tikv_rw.

End Buffer.
