(* ===== verification/Timestamp.v ===== *)
(** * Timestamps and their 64-bit versions

    The bridge passes timestamps to C++ as [u64] versions: it converts
    with [Timestamp::from_version] ([client_gc], lib.rs 284;
    [transaction_prewrite_secondary], 467; [transaction_commit_secondary],
    489; [snapshot_new_with_timestamp], 528) and back with
    [TimestampExt::version] (lib.rs 449, 478, 538).  Both conversions
    belong to [tikv_client], which is not in the repository; they are
    modelled from the specification (section 3: a timestamp is an
    "opaque 64-bit value with a total order", [version()] its "raw
    comparable ordinal", "no wraparound handling is required"): a pair
    of [i64]s, a physical part and an 18-bit logical part, obtained by
    [version as i64], an arithmetic shift right and a mask, and read
    back as the raw 64-bit ordinal, so that [version] inverts
    [from_version] on every [u64] ([version_from_version]).  A checked
    conversion back (one that panics on a negative [i64], i.e. on a
    version at or above 2^63) would differ from this model only on such
    versions, which the specification places outside a deployment's
    lifetime. *)

From S2P Require Import Prelude.

Record Timestamp := mkTimestamp {
  physical : Z;
  logical : Z;
  suffix_bits : Z;
}.

Module Timestamp.

Definition PHYSICAL_SHIFT_BITS : Z := 18.
Definition LOGICAL_MASK : Z := (2 ^ PHYSICAL_SHIFT_BITS - 1)%Z.

Definition from_version (version : Z) : Timestamp :=
  let v := wrap_i64 version in
  mkTimestamp (Z.shiftr v PHYSICAL_SHIFT_BITS) (Z.land v LOGICAL_MASK) 0.

(** The raw ordinal: [(self.physical << 18) + self.logical], each
    [i64] operation wrapping, read as the 64-bit value it denotes. *)
Definition version (ts : Timestamp) : Z :=
  wrap_u64 (wrap_i64 (wrap_i64 (Z.shiftl (physical ts) PHYSICAL_SHIFT_BITS) + logical ts)).

End Timestamp.

(** ** Theorems *)

Section TimestampTheorems.
Local Open Scope Z_scope.

Lemma wrap_i64_range z : - 2 ^ 63 <= wrap_i64 z < 2 ^ 63.
Proof.
  unfold wrap_i64, u64_modulus.
  pose proof (Z.mod_pos_bound z (2 ^ 64) ltac:(lia)).
  destruct (Z.ltb_spec (z mod 2 ^ 64) (2 ^ 63)); lia.
Qed.

Lemma wrap_i64_small z : - 2 ^ 63 <= z < 2 ^ 63 -> wrap_i64 z = z.
Proof.
  intros Hz. unfold wrap_i64, u64_modulus.
  assert (E : z mod 2 ^ 64 = if Z.leb 0 z then z else z + 2 ^ 64).
  { destruct (Z.leb_spec 0 z).
    - apply Z.mod_small; lia.
    - rewrite <- (Z.mod_add z 1) by lia. apply Z.mod_small; lia. }
  rewrite E. destruct (Z.leb_spec 0 z);
    [destruct (Z.ltb_spec z (2 ^ 63)) | destruct (Z.ltb_spec (z + 2 ^ 64) (2 ^ 63))]; lia.
Qed.

Lemma wrap_u64_i64 z : wrap_u64 (wrap_i64 z) = wrap_u64 z.
Proof.
  unfold wrap_u64, wrap_i64, u64_modulus.
  destruct (Z.ltb_spec (z mod 2 ^ 64) (2 ^ 63)).
  - by rewrite Z.mod_mod by lia.
  - rewrite Zminus_mod, Z.mod_mod, Z.mod_same, Z.sub_0_r, Z.mod_mod by lia. done.
Qed.

(** [Timestamp::from_version] and [version] are inverse on every
    [u64]: the versions the bridge hands to C++ and reads back from it
    ([transaction_prewrite_secondary], [transaction_commit_secondary],
    [snapshot_new_with_timestamp], [client_gc]) denote the timestamps
    they came from, including versions at and above 2^63 that the
    conversion reads as negative [i64]s. *)
Theorem version_from_version v :
  0 <= v < u64_modulus -> Timestamp.version (Timestamp.from_version v) = v.
Proof.
  intros Hv. unfold Timestamp.version, Timestamp.from_version,
    Timestamp.LOGICAL_MASK, Timestamp.PHYSICAL_SHIFT_BITS. cbn [physical logical].
  set (w := wrap_i64 v). pose proof (wrap_i64_range v) as Hw. fold w in Hw.
  rewrite Z.shiftr_div_pow2, Z.shiftl_mul_pow2 by lia.
  replace (2 ^ 18 - 1) with (Z.ones 18) by reflexivity.
  rewrite Z.land_ones by lia.
  pose proof (Z.div_mod w (2 ^ 18) ltac:(lia)) as Hd.
  pose proof (Z.mod_pos_bound w (2 ^ 18) ltac:(lia)) as Hm.
  rewrite (wrap_i64_small (w / 2 ^ 18 * 2 ^ 18)) by lia.
  replace (w / 2 ^ 18 * 2 ^ 18 + w mod 2 ^ 18) with w by lia.
  rewrite wrap_i64_small by lia. subst w. rewrite wrap_u64_i64.
  unfold wrap_u64. apply Z.mod_small. exact Hv.
Qed.

End TimestampTheorems.
