(* ===== verification/Backoff.v ===== *)
(** * The lock back-off policy

    [transaction_client_begin_optimistic_with_option] (lib.rs 300-314)
    replaces the lock back-off of the default optimistic retry options by
    [Backoff::no_jitter_backoff(2, 500, retry)].  The policy is modelled
    from the specification (section 4.1: exponential back-off without
    jitter, base delay 2, capped at 500, at most [retry] attempts) on the
    integer widths of [tikv_client]'s [Backoff]: attempts are [u32],
    delays [u64], and the delay doubles by a shift on [u64].

    [retry_lock] is the loop that retries an operation failing with a
    lock conflict while the policy grants a delay; what happens during a
    delay (other transactions progressing) is the parameter [wait]. *)

From S2P Require Import Prelude.

Inductive BackoffKind :=
| NoBackoff
| NoJitter.

Record Backoff := mkBackoff {
  kind : BackoffKind;
  current_attempts : Z;
  max_attempts : Z;
  base_delay_ms : Z;
  current_delay_ms : Z;
  max_delay_ms : Z;
}.

Module Backoff.

Definition no_backoff : Backoff := mkBackoff NoBackoff 0 0 0 0 0.

Definition no_jitter_backoff (base_delay_ms max_delay_ms : Z) (max_attempts : Z) : Backoff :=
  mkBackoff NoJitter 0 max_attempts base_delay_ms base_delay_ms max_delay_ms.

(** [next_delay_duration]: [None] once the attempts are used up;
    otherwise one more attempt is counted and, without jitter, the delay
    is the current one capped at the maximum, and the current one is
    shifted left by one bit on [u64]. *)
Definition next_delay_duration (b : Backoff) : option Z * Backoff :=
  if decide (max_attempts b <= current_attempts b)%Z then (None, b)
  else
    let attempts := (current_attempts b + 1)%Z in
    match kind b with
    | NoBackoff =>
        (None, mkBackoff (kind b) attempts (max_attempts b) (base_delay_ms b)
                 (current_delay_ms b) (max_delay_ms b))
    | NoJitter =>
        (Some (Z.min (max_delay_ms b) (current_delay_ms b)),
         mkBackoff (kind b) attempts (max_attempts b) (base_delay_ms b)
           (wrap_u64 (Z.shiftl (current_delay_ms b) 1)) (max_delay_ms b))
    end.

(** The delays a policy grants, in order, until it refuses ([fuel]
    bounds the unfolding; [max_attempts] is a [u32], so [2^32] is
    enough). *)
Fixpoint delays (fuel : nat) (b : Backoff) : list Z :=
  match fuel with
  | O => []
  | S f =>
      match next_delay_duration b with
      | (Some d, b') => d :: delays f b'
      | (None, _) => []
      end
  end.

(** The lock back-off of [transaction_client_begin_optimistic_with_option]. *)
Definition lock_backoff_with_retry (retry : Z) : Backoff := no_jitter_backoff 2 500 retry.

Section Retry.
Context {St A : Type}.
(** What the rest of the system does while this task sleeps [d] ms. *)
Variable wait : Z -> St -> St.
Variable attempt : St -> result (A * St).

(** Retry [attempt] after each [LockConflict] while the policy grants a
    delay; the last conflict is returned once it refuses. *)
Fixpoint retry_lock (fuel : nat) (b : Backoff) (s : St) : result (A * St) * Backoff * St :=
  match attempt s with
  | Err LockConflict =>
      match fuel, next_delay_duration b with
      | S f, (Some d, b') => retry_lock f b' (wait d s)
      | _, (_, b') => (Err LockConflict, b', s)
      end
  | r => (r, b, s)
  end.
End Retry.

(** A run with no other client: sleeping changes nothing. *)
Definition no_wait {St : Type} (_ : Z) (s : St) : St := s.

End Backoff.

(** ** Theorems *)

Section BackoffTheorems.
Local Open Scope Z_scope.

Lemma shiftl1_wrap c : wrap_u64 (Z.shiftl (wrap_u64 c) 1) = wrap_u64 (c * 2).
Proof.
  unfold wrap_u64. rewrite Z.shiftl_mul_pow2 by lia.
  by rewrite Z.mul_mod_idemp_l by (unfold u64_modulus; lia).
Qed.

(** The delays of a no-jitter policy from any state: the remaining
    attempts, each the current delay doubled on [u64] and capped. *)
Lemma delays_no_jitter fuel a m base c mx :
  0 <= a -> 0 <= c < u64_modulus -> (Z.to_nat (m - a) <= fuel)%nat ->
  Backoff.delays fuel (mkBackoff NoJitter a m base c mx) =
    (fun i => Z.min mx (wrap_u64 (c * 2 ^ Z.of_nat i))) <$> seq 0 (Z.to_nat (m - a)).
Proof.
  revert a c. induction fuel as [|f IH]; intros a c Ha Hc Hf; simpl.
  - by replace (Z.to_nat (m - a)) with 0%nat by lia.
  - unfold Backoff.next_delay_duration; cbn [kind current_attempts max_attempts current_delay_ms max_delay_ms base_delay_ms].
    destruct (decide (m <= a)) as [Hle|Hgt].
    { by replace (Z.to_nat (m - a)) with 0%nat by lia. }
    assert (Hw : 0 <= wrap_u64 (Z.shiftl c 1) < u64_modulus)
      by (unfold wrap_u64; apply Z.mod_pos_bound; unfold u64_modulus; lia).
    rewrite IH by lia.
    replace (Z.to_nat (m - a)) with (S (Z.to_nat (m - (a + 1)))) by lia.
    cbn [seq fmap list_fmap]. rewrite <- (seq_shift _ 0), <- list_fmap_compose.
    f_equal.
    + f_equal. unfold wrap_u64. rewrite Z.mul_1_r. symmetry. apply Z.mod_small. lia.
    + apply list_fmap_ext. intros i x _. unfold compose. f_equal.
      replace c with (wrap_u64 c) at 1 by (unfold wrap_u64; apply Z.mod_small; lia).
      rewrite shiftl1_wrap. unfold wrap_u64.
      rewrite Z.mul_mod_idemp_l by (unfold u64_modulus; lia).
      f_equal. rewrite <- Z.mul_assoc. f_equal.
      rewrite Nat2Z.inj_succ, Z.pow_succ_r by lia. lia.
Qed.

(** The lock back-off with a retry limit [retry] grants exactly [retry]
    delays, the [i]-th (from 0) being [min 500 ((2 * 2^i) mod 2^64)]. *)
Theorem lock_backoff_delays retry fuel :
  0 <= retry -> (Z.to_nat retry <= fuel)%nat ->
  Backoff.delays fuel (Backoff.lock_backoff_with_retry retry) =
    (fun i => Z.min 500 (wrap_u64 (2 * 2 ^ Z.of_nat i))) <$> seq 0 (Z.to_nat retry).
Proof.
  intros Hr Hf. unfold Backoff.lock_backoff_with_retry, Backoff.no_jitter_backoff.
  rewrite delays_no_jitter; [|lia|unfold u64_modulus; lia|lia].
  by rewrite Z.sub_0_r.
Qed.


(** With no other client, retrying cannot change the outcome. *)
Lemma retry_lock_no_wait {St A} (attempt : St -> result (A * St)) fuel b s :
  exists b', Backoff.retry_lock Backoff.no_wait attempt fuel b s = (attempt s, b', s).
Proof.
  revert b. induction fuel as [|f IH]; intros b; simpl;
    destruct (attempt s) as [|[]] eqn:E; eauto;
    destruct (Backoff.next_delay_duration b) as [[d|] b']; eauto.
  all: destruct (IH b') as [b'' Hb]; rewrite E in Hb; eauto.
Qed.

(** The retry loop terminates: given fuel for the attempts the
    policy has left, it only gives up on a lock conflict once the
    no-jitter policy has granted all its attempts, whatever the rest of
    the system does during the delays. *)
Theorem retry_lock_uses_budget {St A} (wait : Z -> St -> St)
    (attempt : St -> result (A * St)) fuel b s b' s' :
  kind b = NoJitter ->
  (Z.to_nat (max_attempts b - current_attempts b) <= fuel)%nat ->
  Backoff.retry_lock wait attempt fuel b s = (Err LockConflict, b', s') ->
  max_attempts b' <= current_attempts b'.
Proof.
  revert b s. induction fuel as [|f IH]; intros b s Hk Hf; simpl;
    destruct (attempt s) as [|[]]; intros Hr; simplify_eq;
    unfold Backoff.next_delay_duration in *; rewrite ?Hk in Hr;
    destruct (decide (max_attempts b <= current_attempts b)); simplify_eq; try done; try lia.
  apply IH in Hr; [done|done|simpl; lia].
Qed.


(** The loop never changes the attempt budget and never counts past it. *)
Lemma retry_lock_bounds {St A} (wait : Z -> St -> St) (attempt : St -> result (A * St))
    fuel b s r b' s' :
  current_attempts b <= max_attempts b ->
  Backoff.retry_lock wait attempt fuel b s = (r, b', s') ->
  max_attempts b' = max_attempts b /\ current_attempts b' <= max_attempts b'.
Proof.
  revert b s. induction fuel as [|f IH]; intros b s Hb; simpl;
    destruct (attempt s) as [|[]]; intros Hr; simplify_eq; try done;
    unfold Backoff.next_delay_duration in *;
    destruct (decide (max_attempts b <= current_attempts b)); simplify_eq; try done;
    destruct (kind b); simplify_eq; simpl; try lia.
  all: apply IH in Hr; simpl in *; lia.
Qed.
End BackoffTheorems.
