(* ===== verification/Mvcc.v ===== *)
(** * The key-value backend and the timestamp oracle

    The backend the transaction engine drives (specification, sections 2,
    4 and 9: "capability interfaces ({fetch_timestamp}, {read, lock,
    prewrite, commit, rollback, gc}) so the core can be tested against an
    in-memory fake"), modelled from the specification.

    - [Class Backend]: the capabilities, the interface the transaction of
      [Transaction] is written against;
    - [Module Mvcc]: the in-memory multi-version store that implements it:
      per key a list of committed versions (newest first), a lock table,
      the GC safepoint and the last timestamp the oracle issued. *)

From S2P Require Import Prelude Ffi Buffer.

(** ** The interface *)

Class Backend (S : Type) := {
  (** [current_timestamp]: a fresh timestamp, larger than every
      timestamp issued before. *)
  kv_fetch_ts : S -> Z * S;
  (** Snapshot read of one key at a timestamp. *)
  kv_read : S -> bytes -> Z -> result (option bytes);
  (** All pairs of a range visible at a timestamp, ascending. *)
  kv_scan : S -> BoundRange -> Z -> result (list (bytes * bytes));
  (** Pessimistic lock of a key for the transaction started at [ts]. *)
  kv_lock : S -> bytes -> bytes -> Z -> result S;
  (** Prewrite of one key: key, mutation, primary, start timestamp. *)
  kv_prewrite : S -> bytes -> Mutation -> bytes -> Z -> result S;
  (** Commit of one key: key, start timestamp, commit timestamp. *)
  kv_commit : S -> bytes -> Z -> Z -> result S;
  (** Rollback of one key's lock for a start timestamp. *)
  kv_rollback : S -> bytes -> Z -> result S;
  (** Advance the GC safepoint; [false] when it is not an advance. *)
  kv_gc : S -> Z -> bool * S;
}.

(** ** The in-memory implementation *)

Module Mvcc.

(** A lock: the primary it points to, the start timestamp of its
    transaction, and the mutation it carries ([None] for a pessimistic
    lock taken by [get_for_update]). *)
Record Lock := mkLock {
  lock_primary : bytes;
  lock_ts : Z;
  lock_mut : option Mutation;
}.

(** A committed version. *)
Record Write := mkWrite {
  write_start : Z;
  write_commit : Z;
  write_mut : Mutation;
}.

Record Store := mkStore {
  versions : gmap bytes (list Write);
  locks : gmap bytes Lock;
  safepoint : Z;
  tso : Z;
}.

Definition init : Store := mkStore ∅ ∅ 0 0.

Definition versions_of (s : Store) (k : bytes) : list Write :=
  default [] (versions s !! k).

(** The newest version committed at or before [ts]. *)
Fixpoint visible (ws : list Write) (ts : Z) : option Mutation :=
  match ws with
  | [] => None
  | w :: ws' => if decide (write_commit w <= ts)%Z then Some (write_mut w) else visible ws' ts
  end.

Definition value_of (m : option Mutation) : option bytes :=
  match m with Some (Put v) => Some v | _ => None end.

(** A lock of a transaction that started at or before [ts] blocks a
    read at [ts]: its commit timestamp is not known yet. *)
Definition blocks (s : Store) (k : bytes) (ts : Z) : bool :=
  match locks s !! k with
  | Some l => bool_decide (lock_ts l <= ts)%Z && bool_decide (is_Some (lock_mut l))
  | None => false
  end.

Definition fetch_ts (s : Store) : Z * Store :=
  let t := (tso s + 1)%Z in (t, mkStore (versions s) (locks s) (safepoint s) t).

Definition read (s : Store) (k : bytes) (ts : Z) : result (option bytes) :=
  if blocks s k ts then Err LockConflict
  else Ok (value_of (visible (versions_of s k) ts)).

(** The keys ever written or locked, ascending. *)
Definition all_keys (s : Store) : list bytes :=
  merge_sort key_le (elements (dom (versions s) ∪ dom (locks s))).

Definition scan (s : Store) (r : BoundRange) (ts : Z) : result (list (bytes * bytes)) :=
  let ks := filter (fun k => range_contains r k = true) (all_keys s) in
  if existsb (fun k => blocks s k ts) ks then Err LockConflict
  else Ok (omap (fun k => (fun v => (k, v)) <$> value_of (visible (versions_of s k) ts)) ks).

Definition with_locks (s : Store) (ls : gmap bytes Lock) : Store :=
  mkStore (versions s) ls (safepoint s) (tso s).

(** A version committed at or after [start] conflicts with a
    transaction that started at [start]. *)
Definition write_conflict (s : Store) (k : bytes) (start : Z) : bool :=
  existsb (fun w => bool_decide (start <= write_commit w)%Z) (versions_of s k).

Definition lock_key (s : Store) (k primary : bytes) (start : Z) : result Store :=
  match locks s !! k with
  | Some l => if decide (lock_ts l = start) then Ok s else Err KeyLockedTimeout
  | None =>
      if write_conflict s k start then Err WriteConflict
      else Ok (with_locks s (<[k := mkLock primary start None]> (locks s)))
  end.

(** Prewrite: a lock of another transaction is a conflict (retryable);
    a version committed since [start] is a write conflict; the
    transaction's own lock (pessimistic, or a repeated prewrite) is
    replaced. *)
Definition prewrite (s : Store) (k : bytes) (m : Mutation) (primary : bytes) (start : Z)
    : result Store :=
  match locks s !! k with
  | Some l =>
      if decide (lock_ts l = start)
      then Ok (with_locks s (<[k := mkLock primary start (Some m)]> (locks s)))
      else Err LockConflict
  | None =>
      if write_conflict s k start then Err WriteConflict
      else Ok (with_locks s (<[k := mkLock primary start (Some m)]> (locks s)))
  end.

(** Commit: the transaction's lock becomes a version at [commit]; a
    key already committed by it is left as it is (a repeated commit);
    anything else means the lock was rolled back or never written. *)
Definition commit_key (s : Store) (k : bytes) (start commit : Z) : result Store :=
  match locks s !! k with
  | Some (mkLock _ ts (Some m)) =>
      if decide (ts = start) then
        Ok (mkStore (<[k := mkWrite start commit m :: versions_of s k]> (versions s))
                    (delete k (locks s)) (safepoint s) (tso s))
      else Err LockNotFound
  | _ =>
      if existsb (fun w => bool_decide (write_start w = start)) (versions_of s k)
      then Ok s else Err LockNotFound
  end.

Definition rollback_key (s : Store) (k : bytes) (start : Z) : result Store :=
  match locks s !! k with
  | Some l => if decide (lock_ts l = start) then Ok (with_locks s (delete k (locks s))) else Ok s
  | None => Ok s
  end.

(** A prewritten lock of the transaction started at [ts] is still in
    the store: a reader that meets it will look for the version of its
    primary carrying [ts]. *)
Definition in_doubt (s : Store) (ts : Z) : bool :=
  existsb (fun kl => bool_decide (lock_ts kl.2 = ts /\ is_Some (lock_mut kl.2))) (map_to_list (locks s)).

(** GC keeps, per key, the versions committed after the safepoint, the
    newest one at or before it, and of the older ones those a lock still
    in doubt needs (specification, section 4.1: the versions "no longer
    needed by any transaction whose start timestamp is >= safepoint" are
    reclaimed): every read at or after the safepoint keeps its result,
    and so does the resolution of every lock. *)
Fixpoint prune (needed : Z -> bool) (ws : list Write) (sp : Z) : list Write :=
  match ws with
  | [] => []
  | w :: ws' =>
      if decide (write_commit w <= sp)%Z then w :: filter (fun w' => needed (write_start w') = true) ws'
      else w :: prune needed ws' sp
  end.

Definition gc (s : Store) (sp : Z) : bool * Store :=
  if decide (safepoint s < sp)%Z
  then (true, mkStore ((fun ws => prune (in_doubt s) ws sp) <$> versions s) (locks s) sp (tso s))
  else (false, s).

End Mvcc.

#[export] Instance Mvcc_backend : Backend Mvcc.Store := {
  kv_fetch_ts := Mvcc.fetch_ts;
  kv_read := Mvcc.read;
  kv_scan := Mvcc.scan;
  kv_lock := Mvcc.lock_key;
  kv_prewrite := Mvcc.prewrite;
  kv_commit := Mvcc.commit_key;
  kv_rollback := Mvcc.rollback_key;
  kv_gc := Mvcc.gc;
}.

(** ** Lemmas on the store's operations *)

Section MvccLemmas.
Import Mvcc.

Lemma prewrite_Ok s k m p ts s' :
  prewrite s k m p ts = Ok s' ->
  s' = with_locks s (<[k := mkLock p ts (Some m)]> (locks s)).
Proof. unfold prewrite. repeat case_match; intros; by simplify_result. Qed.

Lemma commit_key_locked s k p ts m c :
  locks s !! k = Some (mkLock p ts (Some m)) ->
  commit_key s k ts c =
    Ok (mkStore (<[k := mkWrite ts c m :: versions_of s k]> (versions s))
                (delete k (locks s)) (safepoint s) (tso s)).
Proof. unfold commit_key. intros ->. by rewrite decide_True. Qed.

(** A commit of another key leaves a key's lock and versions alone. *)
Lemma commit_key_frame s k k' ts c s' :
  commit_key s k' ts c = Ok s' -> k <> k' ->
  locks s' !! k = locks s !! k /\ versions s' !! k = versions s !! k.
Proof.
  unfold commit_key. intros Hc Hne. repeat case_match; simplify_result; try done.
  simpl. rewrite lookup_insert_ne, lookup_delete_ne by congruence. done.
Qed.

(** The only error of a commit is [LockNotFound]. *)
Lemma commit_key_Err s k ts c e : commit_key s k ts c = Err e -> e = LockNotFound.
Proof. unfold commit_key. repeat case_match; intros; by simplify_result. Qed.

(** A key with no lock and no version of the start timestamp cannot
    be committed. *)
Lemma commit_key_missing s k ts c :
  locks s !! k = None -> Forall (fun w => write_start w <> ts) (versions_of s k) ->
  commit_key s k ts c = Err LockNotFound.
Proof.
  unfold commit_key. intros -> Hv. destruct (existsb _ _) eqn:E; [|done].
  apply existsb_exists in E as (w & Hw & Hs%bool_decide_eq_true).
  rewrite Forall_forall in Hv. exfalso. apply (Hv w); [by apply list_elem_of_In|done].
Qed.

(** Rolling back a key never fails; it erases the key's lock when it
    belongs to the given start timestamp. *)
Lemma rollback_key_Ok s k ts :
  rollback_key s k ts =
    Ok (match locks s !! k with
        | Some l => if decide (lock_ts l = ts) then with_locks s (delete k (locks s)) else s
        | None => s
        end).
Proof. unfold rollback_key. by repeat case_match. Qed.

Lemma rollback_key_spec s k ts :
  exists s1, rollback_key s k ts = Ok s1 /\ versions s1 = versions s /\ tso s1 = tso s /\
    forall k', locks s1 !! k' =
      if decide (k' = k) then
        match locks s !! k with
        | Some l => if decide (lock_ts l = ts) then None else Some l
        | None => None
        end
      else locks s !! k'.
Proof.
  rewrite rollback_key_Ok. eexists; split; [done|].
  destruct (locks s !! k) as [l|] eqn:E; [case_decide|]; simpl;
    split_and!; try done; intros k'; case_decide; subst;
    rewrite ?E; try (rewrite decide_True by done); try done;
    rewrite ?lookup_delete_eq; try done; rewrite ?lookup_delete_ne; try done; congruence.
Qed.

Lemma visible_cons w ws ts :
  visible (w :: ws) ts = if decide (write_commit w <= ts)%Z then Some (write_mut w) else visible ws ts.
Proof. done. Qed.

Lemma read_unlocked s k ts :
  locks s !! k = None -> read s k ts = Ok (value_of (visible (versions_of s k) ts)).
Proof. unfold read, blocks. by intros ->. Qed.
End MvccLemmas.

#[export] Hint Resolve prewrite_Ok commit_key_locked : tikv.
#[export] Hint Rewrite visible_cons : tikv_rw.
