(* ===== verification/Transaction.v ===== *)
(** * The transaction: buffer, state machine and two-phase commit

    [tikv_client::Transaction] as the specification describes it
    (sections 3, 4.2, 5 and 7), written against the [Backend] interface:
    every operation takes the transaction and the backend state and
    returns its result with both updated.

    - reads ([get], [get_for_update], [batch_get], [scan], [scan_keys])
      see the buffer first, then the backend at the start timestamp;
    - writes ([put], [delete]) only touch the buffer;
    - the commit is split into [prewrite_primary], [prewrite_secondary],
      [commit_primary] and [commit_secondary], and [commit] runs the four;
      prewrites retry lock conflicts under the transaction's lock
      back-off ([Backoff.retry_lock]);
    - [rollback] discards the buffer and erases the locks it installed;
    - every operation but [rollback] requires the status its step of the
      state machine starts from and fails with [InvalidState] otherwise. *)

From S2P Require Import Prelude Ffi Buffer Backoff Mvcc.

Inductive TxnMode := Optimistic | Pessimistic.

Inductive TxnStatus :=
| Active
| Prewriting
| Committing
| Committed
| RolledBack
| Failed.

#[export] Instance TxnStatus_eq_dec : EqDecision TxnStatus.
Proof. solve_decision. Defined.

Definition terminal (st : TxnStatus) : bool :=
  match st with Committed | RolledBack | Failed => true | _ => false end.

Record Transaction := mkTxn {
  txn_mode : TxnMode;
  start_ts : Z;
  buffer : Buffer;
  status : TxnStatus;
  lock_backoff : Backoff;
  (** keys locked by [get_for_update] *)
  locked : list bytes;
  (** the primary and the start timestamp the locks carry, fixed by the
      prewrite that ran *)
  primary : option bytes;
  lock_start : Z;
  commit_ts : option Z;
}.

Module Txn.

Definition new (mode : TxnMode) (ts : Z) (bo : Backoff) : Transaction :=
  mkTxn mode ts [] Active bo [] None ts None.

Definition set_buffer (t : Transaction) (b : Buffer) : Transaction :=
  mkTxn (txn_mode t) (start_ts t) b (status t) (lock_backoff t) (locked t)
    (primary t) (lock_start t) (commit_ts t).
Definition set_status (t : Transaction) (st : TxnStatus) : Transaction :=
  mkTxn (txn_mode t) (start_ts t) (buffer t) st (lock_backoff t) (locked t)
    (primary t) (lock_start t) (commit_ts t).
Definition set_locked (t : Transaction) (ks : list bytes) : Transaction :=
  mkTxn (txn_mode t) (start_ts t) (buffer t) (status t) (lock_backoff t) ks
    (primary t) (lock_start t) (commit_ts t).
Definition set_prewritten (t : Transaction) (p : bytes) (ts : Z) : Transaction :=
  mkTxn (txn_mode t) (start_ts t) (buffer t) Prewriting (lock_backoff t) (locked t)
    (Some p) ts (commit_ts t).
Definition set_committing (t : Transaction) (c : Z) : Transaction :=
  mkTxn (txn_mode t) (start_ts t) (buffer t) Committing (lock_backoff t) (locked t)
    (primary t) (lock_start t) (Some c).

(** The operations of a transaction, as the labels of its steps. *)
Inductive Op :=
| OGet (k : bytes)
| OGetForUpdate (k : bytes)
| OBatchGet (ks : list bytes)
| OScan (r : BoundRange) (limit : nat)
| OScanKeys (r : BoundRange) (limit : nat)
| OPut (k v : bytes)
| ODelete (k : bytes)
| OPrewritePrimary (pk : option bytes)
| OPrewriteSecondary (p : bytes) (ts : Z)
| OCommitPrimary
| OCommitSecondary (c : Z)
| OCommit
| ORollback.

(** The edges of the state machine of section 4.2 (staying in place
    included): [Active] to [Committed] is [commit] of a read-only
    transaction or the four steps at once, [Prewriting] to [Committed]
    is [commit_secondary] of a transaction that prewrote secondaries
    for another one's primary, [Failed] to [RolledBack] the clean-up of
    a failed prewrite. *)
Definition allowed (st st' : TxnStatus) : bool :=
  bool_decide (st = st') ||
  match st, st' with
  | Active, (Prewriting | Failed | RolledBack | Committed) => true
  | Prewriting, (Committing | Committed | Failed | RolledBack) => true
  | Committing, Committed => true
  | Failed, RolledBack => true
  | _, _ => false
  end.

Section Ops.
Context {S : Type} `{Backend S}.
(** What other clients do to the backend while a prewrite sleeps. *)
Variable wait : Z -> S -> S.

Abbreviation out A := (result A * Transaction * S)%type.

Definition guard {A} (ok : TxnStatus -> bool) (t : Transaction) (s : S)
    (k : out A) : out A :=
  if ok (status t) then k else (Err InvalidState, t, s).

Definition is_active (st : TxnStatus) : bool := bool_decide (st = Active).

(** ** Reads *)

Definition get (t : Transaction) (s : S) (k : bytes) : out (option bytes) :=
  guard is_active t s
    match Buffer.lookup (buffer t) k with
    | Some m => (Ok (Buffer.get_or (buffer t) k None), t, s)
    | None => (kv_read s k (start_ts t), t, s)
    end.

(** Pessimistic mode locks the key first; optimistic mode is a read. *)
Definition get_for_update (t : Transaction) (s : S) (k : bytes) : out (option bytes) :=
  guard is_active t s
    match txn_mode t with
    | Optimistic => get t s k
    | Pessimistic =>
        match kv_lock s k k (start_ts t) with
        | Err e => (Err e, t, s)
        | Ok s' => get (set_locked t (k :: locked t)) s' k
        end
    end.

(** One key of [batch_get]: the buffer, else the backend. *)
Definition batch_step (k : bytes) (acc : out (list (bytes * bytes))) : out (list (bytes * bytes)) :=
  match acc with
  | (Ok l, t1, s1) =>
      match Buffer.lookup (buffer t1) k with
      | Some _ => (Ok (default l ((fun v => (k, v) :: l) <$> Buffer.get_or (buffer t1) k None)), t1, s1)
      | None =>
          match kv_read s1 k (start_ts t1) with
          | Ok o => (Ok (default l ((fun v => (k, v) :: l) <$> o)), t1, s1)
          | Err e => (Err e, t1, s1)
          end
      end
  | err => err
  end.

(** Keys without a value are left out; a repeated key is read once. *)
Definition batch_get (t : Transaction) (s : S) (ks : list bytes)
    : out (list (bytes * bytes)) :=
  guard is_active t s (fold_right batch_step (Ok [], t, s) (remove_dups ks)).

Definition scan (t : Transaction) (s : S) (r : BoundRange) (limit : nat)
    : out (list (bytes * bytes)) :=
  guard is_active t s
    match kv_scan s r (start_ts t) with
    | Ok kvs => (Ok (Buffer.merge_scan (buffer t) kvs r limit), t, s)
    | Err e => (Err e, t, s)
    end.

Definition scan_keys (t : Transaction) (s : S) (r : BoundRange) (limit : nat)
    : out (list bytes) :=
  match scan t s r limit with
  | (r', t', s') => (result_map (fmap fst) r', t', s')
  end.

(** ** Writes *)

Definition put (t : Transaction) (s : S) (k v : bytes) : out unit :=
  guard is_active t s (Ok tt, set_buffer t (Buffer.put (buffer t) k v), s).

Definition delete (t : Transaction) (s : S) (k : bytes) : out unit :=
  guard is_active t s (Ok tt, set_buffer t (Buffer.delete (buffer t) k), s).

(** ** Two-phase commit *)

(** One prewrite under the lock back-off (a clone of the policy per
    request; [max_attempts] bounds the retries). *)
Definition prewrite_retry (t : Transaction) (s : S) (k : bytes) (m : Mutation)
    (p : bytes) (ts : Z) : result unit * S :=
  let bo := lock_backoff t in
  match Backoff.retry_lock wait
          (fun s0 => result_map (fun s1 => (tt, s1)) (kv_prewrite s0 k m p ts))
          (Z.to_nat (max_attempts bo)) bo s with
  | (Ok (_, s'), _, _) => (Ok tt, s')
  | (Err e, _, s') => (Err e, s')
  end.

Fixpoint prewrite_all (t : Transaction) (s : S) (muts : Buffer) (p : bytes) (ts : Z)
    : result unit * S :=
  match muts with
  | [] => (Ok tt, s)
  | (k, m) :: muts' =>
      match prewrite_retry t s k m p ts with
      | (Ok _, s') => prewrite_all t s' muts' p ts
      | err => err
      end
  end.

(** The primary is the caller's key, or the first key of the buffer. *)
Definition prewrite_primary (t : Transaction) (s : S) (pk : option bytes)
    : out (bytes * Z) :=
  guard is_active t s
    match default (Buffer.first_key (buffer t)) (Some <$> pk) with
    | None => (Err NoMutations, t, s)
    | Some p =>
        match Buffer.lookup (buffer t) p with
        | None => (Err NoMutations, t, s)
        | Some m =>
            match prewrite_retry t s p m p (start_ts t) with
            | (Ok _, s') => (Ok (p, start_ts t), set_prewritten t p (start_ts t), s')
            | (Err e, s') => (Err e, set_status t Failed, s')
            end
        end
    end.

(** Every buffered key but the primary, each lock pointing to the
    given primary and start timestamp. *)
Definition prewrite_secondary (t : Transaction) (s : S) (p : bytes) (ts : Z) : out unit :=
  guard (fun st => bool_decide (st = Active \/ st = Prewriting)) t s
    match prewrite_all t s (filter (fun km => km.1 <> p) (buffer t)) p ts with
    | (Ok _, s') => (Ok tt, set_prewritten t p ts, s')
    | (Err e, s') => (Err e, set_status t Failed, s')
    end.

(** A fresh commit timestamp, then the primary's lock becomes a
    committed version: the transaction is committed from here on. *)
Definition commit_primary (t : Transaction) (s : S) : out Z :=
  guard (fun st => bool_decide (st = Prewriting)) t s
    match primary t with
    | None => (Err InvalidState, t, s)
    | Some p =>
        let '(c, s1) := kv_fetch_ts s in
        match kv_commit s1 p (lock_start t) c with
        | Ok s2 => (Ok c, set_committing t c, s2)
        | Err e => (Err e, set_status t Failed, s1)
        end
    end.

Fixpoint commit_all (s : S) (ks : list bytes) (ts c : Z) : result unit * S :=
  match ks with
  | [] => (Ok tt, s)
  | k :: ks' =>
      match kv_commit s k ts c with
      | Ok s' => commit_all s' ks' ts c
      | Err e => (Err e, s)
      end
  end.

Definition secondaries (t : Transaction) : list bytes :=
  filter (fun k => Some k <> primary t) (Buffer.keys (buffer t)).

(** The secondaries are committed at [c]; the transaction is
    committed whatever happens to them. *)
Definition commit_secondary (t : Transaction) (s : S) (c : Z) : out unit :=
  guard (fun st => bool_decide (st = Prewriting \/ st = Committing)) t s
    match commit_all s (secondaries t) (lock_start t) c with
    | (r, s') => (r, set_status t Committed, s')
    end.

Fixpoint rollback_all (s : S) (ks : list bytes) (ts : Z) : result unit * S :=
  match ks with
  | [] => (Ok tt, s)
  | k :: ks' =>
      match kv_rollback s k ts with
      | Ok s' => rollback_all s' ks' ts
      | Err e => (Err e, s)
      end
  end.

(** Pessimistic locks of keys only read (not written) are released at
    the end; a written key's lock is the prewrite's. *)
Definition release_locks (t : Transaction) (s : S) : S :=
  (rollback_all s (filter (fun k => k ∉ Buffer.keys (buffer t)) (locked t)) (start_ts t)).2.

(** [commit]: a read-only transaction just ends; otherwise the four
    steps in order.  A failure of the secondary commits is not the
    transaction's failure. *)
Definition commit (t : Transaction) (s : S) : out (option Z) :=
  guard is_active t s
    match buffer t with
    | [] => (Ok None, set_status t Committed, release_locks t s)
    | _ =>
        match prewrite_primary t s None with
        | (Err e, t1, s1) => (Err e, t1, s1)
        | (Ok (p, ts), t1, s1) =>
            match prewrite_secondary t1 s1 p ts with
            | (Err e, t2, s2) => (Err e, t2, s2)
            | (Ok _, t2, s2) =>
                match commit_primary t2 s2 with
                | (Err e, t3, s3) => (Err e, t3, s3)
                | (Ok c, t3, s3) =>
                    match commit_secondary t3 s3 c with
                    | (_, t4, s4) => (Ok (Some c), t4, release_locks t4 s4)
                    end
                end
            end
        end
    end.

(** [rollback]: before any prewrite the buffer is dropped and the
    pessimistic locks of [get_for_update] are released, written keys
    included; after a prewrite (or a failed one) every lock the
    transaction may have installed is erased.  A failure to erase a lock
    is reported. *)
Definition rollback (t : Transaction) (s : S) : out unit :=
  match status t with
  | Active =>
      match rollback_all s (locked t) (start_ts t) with
      | (Ok _, s') => (Ok tt, set_status (set_buffer t []) RolledBack, s')
      | (Err e, s') => (Err e, t, s')
      end
  | Prewriting | Failed =>
      match rollback_all s (Buffer.keys (buffer t)) (lock_start t) with
      | (Ok _, s') => (Ok tt, set_status (set_buffer t []) RolledBack, release_locks t s')
      | (Err e, s') => (Err e, t, s')
      end
  | _ => (Err InvalidState, t, s)
  end.

Definition drop {A} (r : out A) : bool * Transaction * S :=
  match r with (r', t', s') => (is_ok r', t', s') end.

(** One step of the transaction: whether it succeeded, and the new
    transaction and backend. *)
Definition exec (o : Op) (t : Transaction) (s : S) : bool * Transaction * S :=
  match o with
  | OGet k => drop (get t s k)
  | OGetForUpdate k => drop (get_for_update t s k)
  | OBatchGet ks => drop (batch_get t s ks)
  | OScan r l => drop (scan t s r l)
  | OScanKeys r l => drop (scan_keys t s r l)
  | OPut k v => drop (put t s k v)
  | ODelete k => drop (delete t s k)
  | OPrewritePrimary pk => drop (prewrite_primary t s pk)
  | OPrewriteSecondary p ts => drop (prewrite_secondary t s p ts)
  | OCommitPrimary => drop (commit_primary t s)
  | OCommitSecondary c => drop (commit_secondary t s c)
  | OCommit => drop (commit t s)
  | ORollback => drop (rollback t s)
  end.

(** The transaction's steps, any operation. *)
Definition step (x y : Transaction * S) : Prop :=
  exists o b, exec o x.1 x.2 = (b, y.1, y.2).

End Ops.

End Txn.

(** ** A concrete transaction, for the theorems' witnesses *)

(** An optimistic transaction started at 1, on a store whose oracle has
    issued 1, before and after [put("a","1")] and [put("b","2")]. *)
Definition demo_t0 : Transaction := Txn.new Optimistic 1 (Backoff.no_jitter_backoff 2 500 3).
Definition demo_s0 : Mvcc.Store := Mvcc.mkStore ∅ ∅ 0 1.
Definition demo_t2 : Transaction :=
  Txn.set_buffer demo_t0 (Buffer.put (Buffer.put [] (bs "a") (bs "1")) (bs "b") (bs "2")).

(** ** Theorems *)

Section Theorems.
Context {S : Type} `{Backend S}.
Variable wait : Z -> S -> S.

Ltac txn_unfold :=
  unfold Txn.exec, Txn.drop, Txn.get, Txn.get_for_update, Txn.batch_get, Txn.scan_keys,
    Txn.scan, Txn.put, Txn.delete, Txn.prewrite_primary, Txn.prewrite_secondary,
    Txn.commit_primary, Txn.commit_secondary, Txn.commit, Txn.rollback, Txn.guard,
    Txn.is_active in *.

Lemma guard_reject {A} ok t s (k : result A * Transaction * S) :
  ok (status t) = false -> Txn.guard ok t s k = (Err InvalidState, t, s).
Proof. unfold Txn.guard. by intros ->. Qed.

(** [batch_get] reads only: the transaction and the backend are left
    as they were. *)
Lemma batch_fold_frame t s ks r t' s' :
  fold_right Txn.batch_step (Ok [], t, s) ks = (r, t', s') -> t' = t /\ s' = s.
Proof.
  revert r t' s'. induction ks as [|k ks IH]; simpl; intros r t' s' Hf; [by simplify_eq|].
  destruct (fold_right _ _ ks) as [[[l|e] t1] s1]; destruct (IH _ _ _ eq_refl) as [-> ->];
    unfold Txn.batch_step in Hf; repeat case_match; by simplify_eq.
Qed.

(** Every operation moves the transaction along an edge of the
    state machine of section 4.2 (or leaves its status as it was):
    [Active] to [Prewriting], [Failed], [RolledBack] or [Committed];
    [Prewriting] to [Committing], [Committed], [Failed] or
    [RolledBack]; [Committing] to [Committed]; [Failed] to [RolledBack]. *)
Theorem exec_allowed o t s b t' s' :
  Txn.exec wait o t s = (b, t', s') -> Txn.allowed (status t) (status t') = true.
Proof.
  intros Hx. destruct o; txn_unfold; destruct (status t) eqn:E;
    repeat first [ progress txn_unfold | progress simplify_eq | progress (simpl in * )
                 | match goal with H : fold_right _ _ _ = _ |- _ =>
                     apply batch_fold_frame in H as [-> ->] end
                 | case_match ];
    rewrite ?E; try done.
Qed.

(** A status reachable from [Committing] or [Committed] by one edge. *)
Definition decided (st : TxnStatus) : bool :=
  bool_decide (st = Committing \/ st = Committed).

Lemma allowed_decided st st' :
  Txn.allowed st st' = true -> decided st = true -> decided st' = true.
Proof.
  unfold Txn.allowed, decided. rewrite orb_true_iff, !bool_decide_eq_true.
  destruct st, st'; naive_solver.
Qed.

(** Terminal states reject every operation: on a [Committed],
    [RolledBack] or [Failed] transaction each operation fails and
    changes neither the transaction nor the backend, except the
    [rollback] that cleans up after a [Failed] prewrite. *)
Theorem terminal_rejects o t s :
  terminal (status t) = true ->
  (o = Txn.ORollback -> status t <> Failed) ->
  Txn.exec wait o t s = (false, t, s).
Proof.
  intros Ht Hr. destruct o; txn_unfold; destruct (status t) eqn:E; try done;
    simpl; rewrite ?E; try done.
  exfalso. by apply (Hr eq_refl).
Qed.

(** The commit point: once [commit_primary] has succeeded
    (status [Committing]) no sequence of operations can roll the
    transaction back or fail it; it stays [Committing] until
    [commit_secondary] makes it [Committed], and stays there. *)
Theorem committed_stays_committed x y :
  rtc (Txn.step wait) x y ->
  decided (status x.1) = true -> decided (status y.1) = true.
Proof.
  induction 1 as [|x z y [o [b Hx]] _ IH]; [done|].
  intros Hd. apply IH. destruct x, z. eapply allowed_decided; [|exact Hd].
  eapply exec_allowed. exact Hx.
Qed.

(** Read-your-own-writes: after [put k v], [get k] in the same
    transaction returns [v] before any commit, without reading the
    backend; the [put] itself does not touch the backend. *)
Theorem read_your_writes t s k v t' s' :
  Txn.put t s k v = (Ok tt, t', s') ->
  s' = s /\ Txn.get t' s' k = (Ok (Some v), t', s').
Proof.
  unfold Txn.put, Txn.get, Txn.guard, Txn.is_active.
  destruct (bool_decide (status t = Active)) eqn:E; intros Hp; simplify_eq.
  split; [done|]. simpl. rewrite E. unfold Buffer.put, Buffer.get_or.
  by rewrite Buffer.lookup_insert_eq.
Qed.

(** A buffered delete hides the key: after [delete k], [get k]
    returns nothing even when the backend holds a value for it. *)
Theorem delete_hides t s k t' s' :
  Txn.delete t s k = (Ok tt, t', s') ->
  s' = s /\ Txn.get t' s' k = (Ok None, t', s').
Proof.
  unfold Txn.delete, Txn.get, Txn.guard, Txn.is_active.
  destruct (bool_decide (status t = Active)) eqn:E; intros Hp; simplify_eq.
  split; [done|]. simpl. rewrite E. unfold Buffer.delete, Buffer.get_or.
  by rewrite Buffer.lookup_insert_eq.
Qed.

(** A commit that reports no timestamp had nothing to commit. *)
Lemma commit_Ok_None t s t' s' :
  Txn.commit wait t s = (Ok None, t', s') -> buffer t = [].
Proof.
  unfold Txn.commit, Txn.guard. destruct (Txn.is_active (status t)); [|by intros; simplify_eq].
  destruct (buffer t) eqn:Eb; [done|]. rewrite <- Eb.
  repeat case_match; intros; simplify_eq.
Qed.
End Theorems.


(** ** A transaction alone on the in-memory store *)

(** With [Backoff.no_wait] no other client acts while a prewrite
    sleeps; the lemmas below give the store each step leaves. *)
Section Sequential.

Lemma prewrite_retry_seq t (s : Mvcc.Store) k m p ts :
  Txn.prewrite_retry Backoff.no_wait t s k m p ts =
    match Mvcc.prewrite s k m p ts with Ok s' => (Ok tt, s') | Err e => (Err e, s) end.
Proof.
  unfold Txn.prewrite_retry.
  destruct (retry_lock_no_wait (fun s0 => result_map (fun s1 => (tt, s1)) (kv_prewrite s0 k m p ts))
              (Z.to_nat (max_attempts (lock_backoff t))) (lock_backoff t) s) as [b' ->].
  simpl. by destruct (Mvcc.prewrite s k m p ts).
Qed.

Lemma prewrite_all_seq t (s : Mvcc.Store) muts p ts s' :
  Buffer.wf muts ->
  Txn.prewrite_all Backoff.no_wait t s muts p ts = (Ok tt, s') ->
  Mvcc.versions s' = Mvcc.versions s /\ Mvcc.tso s' = Mvcc.tso s /\
  forall k, Mvcc.locks s' !! k =
    match Buffer.lookup muts k with
    | Some m => Some (Mvcc.mkLock p ts (Some m))
    | None => Mvcc.locks s !! k
    end.
Proof.
  revert s. induction muts as [|[k m] muts IH]; intros s Hwf Hp; simpl in Hp.
  - by simplify_eq.
  - rewrite prewrite_retry_seq in Hp. destruct (Mvcc.prewrite s k m p ts) as [s1|e] eqn:E; [|done].
    apply prewrite_Ok in E as ->.
    unfold Buffer.wf, Buffer.keys in Hwf. simpl in Hwf. apply NoDup_cons in Hwf as [Hn Hwf].
    destruct (IH _ Hwf Hp) as (Hv & Ht & Hl). simpl in *.
    split_and!; [done|done|]. intros k'. rewrite Hl. simpl. case_decide; subst.
    + rewrite (proj2 (Buffer.lookup_None_keys _ _)) by done. by rewrite lookup_insert_eq.
    + rewrite lookup_insert_ne; [done|congruence].
Qed.

Lemma commit_all_seq (s : Mvcc.Store) ks ts c :
  NoDup ks ->
  (forall k, k ∈ ks -> exists p m, Mvcc.locks s !! k = Some (Mvcc.mkLock p ts (Some m))) ->
  exists s', Txn.commit_all s ks ts c = (Ok tt, s') /\ Mvcc.tso s' = Mvcc.tso s /\
    forall k,
      (k ∈ ks -> Mvcc.locks s' !! k = None /\ exists p m,
          Mvcc.locks s !! k = Some (Mvcc.mkLock p ts (Some m)) /\
          Mvcc.versions s' !! k = Some (Mvcc.mkWrite ts c m :: Mvcc.versions_of s k)) /\
      (k ∉ ks -> Mvcc.locks s' !! k = Mvcc.locks s !! k /\
                 Mvcc.versions s' !! k = Mvcc.versions s !! k).
Proof.
  revert s. induction ks as [|k ks IH]; intros s Hnd Hl; simpl.
  { exists s. split_and!; [done|done|]. intros k. split; [by intros ?%elem_of_nil|done]. }
  apply NoDup_cons in Hnd as [Hn Hnd].
  destruct (Hl k) as (p & m & Hk); [by left|].
  rewrite (commit_key_locked _ _ _ _ _ _ Hk).
  set (s1 := Mvcc.mkStore _ _ _ _).
  destruct (IH s1) as (s' & Hc & Ht & Hs'); [done| |].
  { intros k' Hk'. simpl. rewrite lookup_delete_ne by (intros ->; done). apply Hl. by right. }
  exists s'. split_and!; [done|done|]. intros k'.
  destruct (Hs' k') as [Hin Hout]. split.
  - intros [->|Hk']%elem_of_cons.
    + destruct (Hout Hn) as [-> ->]. simpl. rewrite lookup_delete_eq, lookup_insert_eq.
      split; [done|eauto].
    + destruct (Hin Hk') as (HN & p' & m' & Hl' & Hv'). split; [done|].
      exists p', m'. simpl in Hl', Hv'.
      assert (k <> k') by (intros ->; done).
      rewrite lookup_delete_ne in Hl' by done. split; [done|].
      rewrite Hv'. unfold Mvcc.versions_of. simpl. by rewrite lookup_insert_ne.
  - intros Hk'. assert (k <> k' /\ k' ∉ ks) as [Hne Hk2] by set_solver.
    destruct (Hout Hk2) as [-> ->]. simpl.
    by rewrite lookup_delete_ne, lookup_insert_ne.
Qed.

(** A secondary whose lock is gone and which has no version of the
    start timestamp stops the secondary commits with [LockNotFound]: it
    stays uncommitted, whatever the keys before it did. *)
Lemma commit_all_stuck (s : Mvcc.Store) ks ts c k :
  k ∈ ks -> Mvcc.locks s !! k = None ->
  Forall (fun w => Mvcc.write_start w <> ts) (Mvcc.versions_of s k) ->
  exists s', Txn.commit_all s ks ts c = (Err LockNotFound, s') /\
    Mvcc.locks s' !! k = None /\ Mvcc.versions s' !! k = Mvcc.versions s !! k.
Proof.
  revert s. induction ks as [|k' ks IH]; intros s Hk Hl Hv; [by apply elem_of_nil in Hk|]. simpl.
  destruct (decide (k = k')) as [<-|Hne].
  { rewrite (commit_key_missing _ _ _ _ Hl Hv). eauto. }
  apply elem_of_cons in Hk as [->|Hk]; [by destruct Hne|].
  destruct (Mvcc.commit_key s k' ts c) as [s1|e] eqn:Hc.
  - destruct (commit_key_frame _ _ _ _ _ _ Hc Hne) as [Hl1 Hv1].
    destruct (IH s1) as (s' & Hr & Hl' & Hv'); [done|congruence|unfold Mvcc.versions_of; by rewrite Hv1|].
    exists s'. split_and!; congruence.
  - apply commit_key_Err in Hc as ->. eauto.
Qed.

(** Rolling back a list of keys never fails; it erases exactly the
    locks of those keys that carry the given start timestamp. *)
Lemma rollback_all_seq (s : Mvcc.Store) ks ts :
  exists s', Txn.rollback_all s ks ts = (Ok tt, s') /\
    Mvcc.versions s' = Mvcc.versions s /\ Mvcc.tso s' = Mvcc.tso s /\
    forall k, Mvcc.locks s' !! k =
      if decide (k ∈ ks) then
        match Mvcc.locks s !! k with
        | Some l => if decide (Mvcc.lock_ts l = ts) then None else Some l
        | None => None
        end
      else Mvcc.locks s !! k.
Proof.
  revert s. induction ks as [|k ks IH]; intros s; simpl.
  { exists s. split_and!; try done; intros k; by rewrite decide_False by set_solver. }
  destruct (rollback_key_spec s k ts) as (s1 & E & Hv1 & Ht1 & Hl1).
  cbn [kv_rollback Mvcc_backend]. rewrite E.
  destruct (IH s1) as (s' & Hr & Hv & Ht & Hl).
  exists s'. split_and!; [done|congruence|congruence|]. intros k'.
  rewrite Hl, !Hl1. repeat case_decide; subst; try done; try set_solver.
  all: destruct (Mvcc.locks s !! k) as [l|]; [|done].
  all: case_decide; simpl; try done; by rewrite decide_False.
Qed.

(** The lock table after both prewrite phases: every buffered key is
    locked with its mutation, pointing to the primary. *)
Lemma prewrite_phase_seq t (s : Mvcc.Store) p ts t1 s1 t2 s2 :
  Buffer.wf (buffer t) ->
  Txn.prewrite_primary Backoff.no_wait t s None = (Ok (p, ts), t1, s1) ->
  Txn.prewrite_secondary Backoff.no_wait t1 s1 p ts = (Ok tt, t2, s2) ->
  ts = start_ts t /\ t2 = Txn.set_prewritten t p ts /\ p ∈ Buffer.keys (buffer t) /\
  Mvcc.versions s2 = Mvcc.versions s /\ Mvcc.tso s2 = Mvcc.tso s /\
  forall k, Mvcc.locks s2 !! k =
    match Buffer.lookup (buffer t) k with
    | Some m => Some (Mvcc.mkLock p ts (Some m))
    | None => Mvcc.locks s !! k
    end.
Proof.
  intros Hwf H1 H2. unfold Txn.prewrite_primary, Txn.guard, Txn.is_active in H1.
  case_bool_decide; [|done]. simpl in H1.
  destruct (Buffer.first_key (buffer t)) as [p0|]; [|done].
  destruct (Buffer.lookup (buffer t) p0) as [m0|] eqn:Em; [|done].
  rewrite prewrite_retry_seq in H1.
  destruct (Mvcc.prewrite s p0 m0 p0 (start_ts t)) as [s0|] eqn:Ep; [|done].
  simplify_eq. apply prewrite_Ok in Ep as ->.
  unfold Txn.prewrite_secondary, Txn.guard in H2.
  case_bool_decide as Hg; [|exfalso; apply Hg; by right].
  simpl in H2.
  destruct (Txn.prewrite_all _ _ _ _ _ _) as [[[]|e] s2'] eqn:Ea; simplify_eq.
  apply prewrite_all_seq in Ea as (Hv & Ht & Hl); [|by apply Buffer.wf_filter].
  split_and!; try done.
  { by eapply Buffer.lookup_Some_keys. }
  intros k. rewrite Hl, Buffer.lookup_filter_ne. simpl.
  case_decide; subst.
  - by rewrite lookup_insert_eq, Em.
  - destruct (Buffer.lookup (buffer t) k); [done|]. by rewrite lookup_insert_ne.
Qed.

Lemma secondaries_spec t k :
  k ∈ Txn.secondaries t <-> k ∈ Buffer.keys (buffer t) /\ Some k <> primary t.
Proof. unfold Txn.secondaries. rewrite list_elem_of_filter. tauto. Qed.

(** Committing the primary: a fresh commit timestamp, and the primary's
    lock becomes a version at it; every other key is as it was. *)
Lemma commit_primary_seq t (s2 : Mvcc.Store) p ts mp c t3 s3 :
  Mvcc.locks s2 !! p = Some (Mvcc.mkLock p ts (Some mp)) ->
  Txn.commit_primary (Txn.set_prewritten t p ts) s2 = (Ok c, t3, s3) ->
  c = (Mvcc.tso s2 + 1)%Z /\ t3 = Txn.set_committing (Txn.set_prewritten t p ts) c /\
  s3 =Mvcc.mkStore (<[p := Mvcc.mkWrite ts c mp :: Mvcc.versions_of s2 p]> (Mvcc.versions s2))
                    (delete p (Mvcc.locks s2)) (Mvcc.safepoint s2) c.
Proof.
  intros Elp H3. unfold Txn.commit_primary, Txn.guard in H3. simpl in H3.
  cbn [kv_fetch_ts kv_commit Mvcc_backend] in H3. unfold Mvcc.fetch_ts in H3.
  rewrite (commit_key_locked _ _ p ts mp) in H3 by done. by simplify_eq.
Qed.

(** Committing the primary, then the secondaries, of a transaction
    whose buffered keys are all locked: every buffered key gets a
    version at the commit timestamp and loses its lock. *)
Lemma commit_phase_seq t (s2 : Mvcc.Store) p ts c t3 s3 r t4 s4 :
  Buffer.wf (buffer t) ->
  (forall k, k ∈ Buffer.keys (buffer t) -> exists m,
      Buffer.lookup (buffer t) k = Some m /\ Mvcc.locks s2 !! k = Some (Mvcc.mkLock p ts (Some m))) ->
  p ∈ Buffer.keys (buffer t) ->
  Txn.commit_primary (Txn.set_prewritten t p ts) s2 = (Ok c, t3, s3) ->
  Txn.commit_secondary t3 s3 c = (r, t4, s4) ->
  c = (Mvcc.tso s2 + 1)%Z /\ r = Ok tt /\
  t4 = Txn.set_status (Txn.set_committing (Txn.set_prewritten t p ts) c) Committed /\
  Mvcc.tso s4 = c /\
  forall k,
    (k ∈ Buffer.keys (buffer t) -> Mvcc.locks s4 !! k = None /\ exists m,
        Buffer.lookup (buffer t) k = Some m /\
        Mvcc.versions s4 !! k = Some (Mvcc.mkWrite ts c m :: Mvcc.versions_of s2 k)) /\
    (k ∉ Buffer.keys (buffer t) ->
        Mvcc.locks s4 !! k = Mvcc.locks s2 !! k /\ Mvcc.versions s4 !! k = Mvcc.versions s2 !! k).
Proof.
  intros Hwf Hl Hp H3 H4.
  destruct (Hl p Hp) as (mp & Emp & Elp).
  destruct (commit_primary_seq t s2 p ts mp c t3 s3 Elp H3) as (-> & -> & ->).
  unfold Txn.commit_secondary, Txn.guard in H4. simpl in H4.
  set (s3 := Mvcc.mkStore _ _ _ _) in H4.
  destruct (commit_all_seq s3 (Txn.secondaries (Txn.set_committing (Txn.set_prewritten t p ts) (Mvcc.tso s2 + 1)))
              ts (Mvcc.tso s2 + 1)) as (s4' & Hc & Ht4 & Hs4).
  { apply NoDup_filter. exact Hwf. }
  { intros k [Hk Hne]%secondaries_spec. simpl in Hne.
    destruct (Hl k Hk) as (m & _ & Elk). exists p, m. simpl.
    rewrite lookup_delete_ne by congruence. done. }
  rewrite Hc in H4. simplify_eq. split_and!; try done.
  intros k. destruct (Hs4 k) as [Hin Hout]. rewrite secondaries_spec in Hin, Hout. simpl in Hin, Hout.
  split.
  - intros Hk. destruct (decide (k = p)) as [->|Hne].
    + destruct Hout as [-> ->]; [naive_solver|]. simpl.
      rewrite lookup_delete_eq, lookup_insert_eq. split; [done|]. exists mp.
      split; [done|]. done.
    + destruct Hin as (HN & p' & m' & Hl' & Hv'); [split; [done|congruence]|].
      split; [done|]. destruct (Hl k Hk) as (m & Em & Elk). exists m. split; [done|].
      simpl in Hl'. rewrite lookup_delete_ne in Hl' by congruence. rewrite Elk in Hl'.
      simplify_eq. rewrite Hv'. unfold Mvcc.versions_of. simpl. by rewrite lookup_insert_ne by congruence.
  - intros Hk. assert (k <> p) by (intros ->; done).
    destruct Hout as [-> ->]; [naive_solver|]. simpl.
    by rewrite lookup_delete_ne, lookup_insert_ne by congruence.
Qed.

(** Releasing the pessimistic locks leaves every written key as it is. *)
Lemma release_locks_seq t (s : Mvcc.Store) :
  Mvcc.versions (Txn.release_locks t s) = Mvcc.versions s /\
  Mvcc.tso (Txn.release_locks t s) = Mvcc.tso s /\
  forall k, k ∈ Buffer.keys (buffer t) -> Mvcc.locks (Txn.release_locks t s) !! k = Mvcc.locks s !! k.
Proof.
  unfold Txn.release_locks.
  destruct (rollback_all_seq s (filter (fun k => k ∉ Buffer.keys (buffer t)) (locked t)) (start_ts t))
    as (s' & -> & Hv & Ht & Hl).
  simpl. split_and!; [done|done|]. intros k Hk. rewrite Hl.
  rewrite decide_False; [done|]. rewrite list_elem_of_filter. tauto.
Qed.

(** The store a successful [commit] leaves, for a transaction alone
    on the store: the commit timestamp is the next one the oracle
    issues; every buffered key has a new version at that timestamp
    carrying its buffered mutation and no lock; no other key's
    versions change. *)
Lemma commit_effect t (s : Mvcc.Store) c t' s' :
  Buffer.wf (buffer t) ->
  Txn.commit Backoff.no_wait t s = (Ok (Some c), t', s') ->
  c = (Mvcc.tso s + 1)%Z /\ status t' = Committed /\
  forall k,
    match Buffer.lookup (buffer t) k with
    | Some m => Mvcc.versions s' !! k = Some (Mvcc.mkWrite (start_ts t) c m :: Mvcc.versions_of s k) /\
               Mvcc.locks s' !! k = None
    | None => Mvcc.versions s' !! k = Mvcc.versions s !! k
    end.
Proof.
  intros Hwf Hc. unfold Txn.commit, Txn.guard, Txn.is_active in Hc.
  case_bool_decide; [|done]. destruct (buffer t) as [|km b] eqn:Eb; [by simplify_eq|].
  rewrite <- Eb in *.
  destruct (Txn.prewrite_primary _ t s None) as [[[[p ts]|e] t1] s1] eqn:E1; [|done].
  destruct (Txn.prewrite_secondary _ t1 s1 p ts) as [[[[]|e] t2] s2] eqn:E2; [|done].
  destruct (Txn.commit_primary t2 _) as [[[c'|e] t3] s3] eqn:E3; [|done].
  destruct (Txn.commit_secondary t3 s3 c') as [[r t4] s4] eqn:E4. injection Hc as -> <- <-.
  destruct (prewrite_phase_seq t s p ts t1 s1 t2 s2 Hwf E1 E2) as (-> & -> & Hp & Hv2 & Ht2 & Hl2).
  destruct (commit_phase_seq t s2 p (start_ts t) c t3 s3 r t4 s4 Hwf) as (-> & -> & -> & Ht4 & Hs4);
    [|done|done|done|].
  { intros k Hk. destruct (Buffer.lookup_keys_Some _ _ Hk) as [m Em]. exists m. by rewrite Hl2, Em. }
  destruct (release_locks_seq (Txn.set_status (Txn.set_committing (Txn.set_prewritten t p (start_ts t))
              (Mvcc.tso s + 1)) Committed) s4) as (Hv5 & Ht5 & Hl5).
  rewrite Ht2. split_and!; [done|done|]. intros k.
  destruct (Hs4 k) as [Hin Hout].
  destruct (Buffer.lookup (buffer t) k) as [m|] eqn:Ek.
  - pose proof (Buffer.lookup_Some_keys _ _ _ Ek) as Hk. destruct (Hin Hk) as (HN & m' & Em' & Hv').
    simplify_eq. rewrite Hv5, Hl5 by done. rewrite Hv'.
    unfold Mvcc.versions_of. by rewrite Hv2, Ht2.
  - apply Buffer.lookup_None_keys in Ek. rewrite Hv5. destruct (Hout Ek) as [_ ->]. by rewrite Hv2.
Qed.

(** Round trip: after [put]s and [delete]s and a successful
    [commit] returning the commit timestamp [c], a snapshot read of any
    written key at a timestamp at or after [c] returns exactly what the
    transaction wrote (nothing for a deleted key). *)
Theorem commit_roundtrip t (s : Mvcc.Store) c t' s' k m ts :
  Buffer.wf (buffer t) ->
  Txn.commit Backoff.no_wait t s = (Ok (Some c), t', s') ->
  Buffer.lookup (buffer t) k = Some m ->
  (c <= ts)%Z ->
  Mvcc.read s' k ts = Ok (Buffer.get_or (buffer t) k None).
Proof.
  intros Hwf Hc Hk Hts. destruct (commit_effect t s c t' s' Hwf Hc) as (_ & _ & Hs).
  specialize (Hs k). rewrite Hk in Hs. destruct Hs as [Hv Hl].
  rewrite read_unlocked by done. unfold Mvcc.versions_of. rewrite Hv. simpl.
  rewrite decide_True by done. unfold Buffer.get_or. rewrite Hk. by destruct m.
Qed.

(** Snapshot isolation of the commit: a read at a timestamp below
    the commit timestamp sees none of the transaction's writes: a
    written key shows its versions from before the transaction, and
    the versions of every other key are unchanged. *)
Theorem commit_invisible_before t (s : Mvcc.Store) c t' s' k ts :
  Buffer.wf (buffer t) ->
  Txn.commit Backoff.no_wait t s = (Ok (Some c), t', s') ->
  (ts < c)%Z ->
  Mvcc.visible (Mvcc.versions_of s' k) ts = Mvcc.visible (Mvcc.versions_of s k) ts.
Proof.
  intros Hwf Hc Hts. destruct (commit_effect t s c t' s' Hwf Hc) as (_ & _ & Hs).
  specialize (Hs k). unfold Mvcc.versions_of.
  destruct (Buffer.lookup (buffer t) k) as [m|].
  - destruct Hs as [-> _]. simpl. by rewrite decide_False by lia.
  - by rewrite Hs.
Qed.

End Sequential.

