(* ===== verification/Bridge.v ===== *)
(** * The functions of the bridge ([lib.rs])

    One definition per function of [lib.rs] that the [extern "Rust"]
    block exports, written as the function is: its conversions of the
    C++ arguments ([as_bytes().to_owned()], [to_bound_range],
    [Timestamp::from_version], an empty primary key read as "none"),
    the [tikv_client] call it blocks on (the engine of [Transaction] and
    the backend of [Mvcc]), and the conversion of the result into the
    bridge's structs.  A [CxxString] is its bytes; the backend state
    the client's connection reaches is passed explicitly, next to the
    transaction or snapshot the function borrows mutably. *)

From S2P Require Import Prelude Ffi Buffer Timestamp Backoff Mvcc Transaction.

(** [tikv_client::Snapshot]: a read-only view at a timestamp. *)
Record Snapshot := mkSnapshot { snap_ts : Z }.

(** The lock back-offs of the library's default retry options:
    [RetryOptions::default_optimistic] ([begin_optimistic], and the
    base of [transaction_client_begin_optimistic_with_option]) retries
    lock conflicts with [no_jitter_backoff(2, 500, 10)];
    [RetryOptions::default_pessimistic] ([begin_pessimistic]) does not
    retry them ([no_backoff]). *)
Definition default_lock_backoff : Backoff := Backoff.no_jitter_backoff 2 500 10.
Definition pessimistic_lock_backoff : Backoff := Backoff.no_backoff.

Section Bridge.
Context {S : Type} `{Backend S}.
Variable wait : Z -> S -> S.

Definition map_out {A B} (f : A -> B) (r : result A * Transaction * S) : result B * Transaction * S :=
  match r with (r', t', s') => (result_map f r', t', s') end.

(** ** [TransactionClient] *)

(** lib.rs 288-292 *)
Definition transaction_client_begin (s : S) : result Transaction * S :=
  let '(ts, s') := kv_fetch_ts s in (Ok (Txn.new Optimistic ts default_lock_backoff), s').

(** lib.rs 294-298 *)
Definition transaction_client_begin_pessimistic (s : S) : result Transaction * S :=
  let '(ts, s') := kv_fetch_ts s in (Ok (Txn.new Pessimistic ts pessimistic_lock_backoff), s').

(** lib.rs 300-314: the optimistic options with the lock back-off
    replaced, a fresh timestamp, a transaction with those options. *)
Definition transaction_client_begin_optimistic_with_option (s : S) (retry : Z)
    : result Transaction * S :=
  let lock_backoff := Backoff.no_jitter_backoff 2 500 retry in
  let '(timestamp, s') := kv_fetch_ts s in
  (Ok (Txn.new Optimistic timestamp lock_backoff), s').

(** lib.rs 283-286 *)
Definition client_gc (s : S) (safepoint : Z) : result bool * S :=
  let safepoint := Timestamp.from_version safepoint in
  let '(b, s') := kv_gc s (Timestamp.version safepoint) in (Ok b, s').

(** lib.rs 536-539 *)
Definition current_timestamp (s : S) : result Z * S :=
  let '(timestamp, s') := kv_fetch_ts s in (Ok timestamp, s').

(** ** [Transaction] *)

(** lib.rs 316-327 *)
Definition transaction_get (t : Transaction) (s : S) (key : bytes)
    : result OptionalValue * Transaction * S :=
  map_out optional_value_of (Txn.get t s key).

(** lib.rs 329-343 *)
Definition transaction_get_for_update (t : Transaction) (s : S) (key : bytes)
    : result OptionalValue * Transaction * S :=
  map_out optional_value_of (Txn.get_for_update t s key).

(** lib.rs 345-358 *)
Definition transaction_batch_get (t : Transaction) (s : S) (keys : list bytes)
    : result (list KvPair) * Transaction * S :=
  map_out (fmap kv_pair_of) (Txn.batch_get t s keys).

(** lib.rs 360-373: [unimplemented!], a panic. *)
Definition transaction_batch_get_for_update (t : Transaction) (s : S) (keys : list bytes)
    : result (list KvPair) * Transaction * S :=
  (Err Panicked, t, s).

(** lib.rs 375-392: the range is built before the transaction is
    touched. *)
Definition transaction_scan (t : Transaction) (s : S) (start : bytes) (start_bound : Bound)
    (end_ : bytes) (end_bound : Bound) (limit : Z) : result (list KvPair) * Transaction * S :=
  match to_bound_range start start_bound end_ end_bound with
  | Err e => (Err e, t, s)
  | Ok range => map_out (fmap kv_pair_of) (Txn.scan t s range (Z.to_nat limit))
  end.

(** lib.rs 394-408 *)
Definition transaction_scan_keys (t : Transaction) (s : S) (start : bytes) (start_bound : Bound)
    (end_ : bytes) (end_bound : Bound) (limit : Z) : result (list Key) * Transaction * S :=
  match to_bound_range start start_bound end_ end_bound with
  | Err e => (Err e, t, s)
  | Ok range => map_out (fmap key_of) (Txn.scan_keys t s range (Z.to_nat limit))
  end.

(** lib.rs 410-417 *)
Definition transaction_put (t : Transaction) (s : S) (key val : bytes)
    : result unit * Transaction * S :=
  map_out (fun _ => tt) (Txn.put t s key val).

(** lib.rs 419-422 *)
Definition transaction_delete (t : Transaction) (s : S) (key : bytes)
    : result unit * Transaction * S :=
  map_out (fun _ => tt) (Txn.delete t s key).

(** lib.rs 424-427: the commit timestamp is dropped. *)
Definition transaction_commit (t : Transaction) (s : S) : result unit * Transaction * S :=
  map_out (fun _ => tt) (Txn.commit wait t s).

(** lib.rs 429-432 *)
Definition transaction_rollback (t : Transaction) (s : S) : result unit * Transaction * S :=
  map_out (fun _ => tt) (Txn.rollback t s).

(** lib.rs 434-457: an empty C++ string means "choose the primary". *)
Definition transaction_prewrite_primary (t : Transaction) (s : S) (primary_key : bytes)
    : result PrewriteResult * Transaction * S :=
  let primary_key := match primary_key with [] => None | _ => Some primary_key end in
  map_out (fun '(key, ts) => mkPrewriteResult key ts) (Txn.prewrite_primary wait t s primary_key).

(** lib.rs 459-471 *)
Definition transaction_prewrite_secondary (t : Transaction) (s : S) (primary_key : bytes)
    (start_ts : Z) : result unit * Transaction * S :=
  Txn.prewrite_secondary wait t s primary_key (Timestamp.version (Timestamp.from_version start_ts)).

(** lib.rs 473-482 *)
Definition transaction_commit_primary (t : Transaction) (s : S) : result Z * Transaction * S :=
  Txn.commit_primary t s.

(** lib.rs 484-492: no result; whatever [commit_secondary] returns is
    discarded. *)
Definition transaction_commit_secondary (t : Transaction) (s : S) (commit_ts : Z)
    : Transaction * S :=
  let '(_, t', s') := Txn.commit_secondary t s (Timestamp.version (Timestamp.from_version commit_ts)) in
  (t', s').

(** ** [Snapshot] *)

(** lib.rs 515-522 *)
Definition snapshot_new (s : S) : result Snapshot * S :=
  let '(timestamp, s') := kv_fetch_ts s in (Ok (mkSnapshot timestamp), s').

(** lib.rs 524-534 *)
Definition snapshot_new_with_timestamp (timestamp : Z) : result Snapshot :=
  Ok (mkSnapshot (Timestamp.version (Timestamp.from_version timestamp))).

(** lib.rs 541-552 *)
Definition snapshot_get (sn : Snapshot) (s : S) (key : bytes) : result OptionalValue :=
  result_map optional_value_of (kv_read s key (snap_ts sn)).

(** lib.rs 554-564 *)
Definition snapshot_batch_get (sn : Snapshot) (s : S) (keys : list bytes) : result (list KvPair) :=
  fold_right
    (fun key acc =>
       l <- acc ;;
       o <- kv_read s key (snap_ts sn) ;;
       Ok (default l ((fun v => kv_pair_of (key, v) :: l) <$> o)))
    (Ok []) (remove_dups keys).

(** lib.rs 566-583 *)
Definition snapshot_scan (sn : Snapshot) (s : S) (start : bytes) (start_bound : Bound)
    (end_ : bytes) (end_bound : Bound) (limit : Z) : result (list KvPair) :=
  range <- to_bound_range start start_bound end_ end_bound ;;
  kvs <- kv_scan s range (snap_ts sn) ;;
  Ok (kv_pair_of <$> Buffer.merge_scan [] kvs range (Z.to_nat limit)).

(** lib.rs 585-599 *)
Definition snapshot_scan_keys (sn : Snapshot) (s : S) (start : bytes) (start_bound : Bound)
    (end_ : bytes) (end_bound : Bound) (limit : Z) : result (list Key) :=
  range <- to_bound_range start start_bound end_ end_bound ;;
  kvs <- kv_scan s range (snap_ts sn) ;;
  Ok ((fun kv => key_of kv.1) <$> Buffer.merge_scan [] kvs range (Z.to_nat limit)).

End Bridge.

(** ** The bridge's calls on one transaction *)

(** The transaction functions C++ can call on a transaction, as labels. *)
Inductive Call :=
| CGet (key : bytes)
| CGetForUpdate (key : bytes)
| CBatchGet (keys : list bytes)
| CBatchGetForUpdate (keys : list bytes)
| CScan (start : bytes) (sb : Bound) (end_ : bytes) (eb : Bound) (limit : Z)
| CScanKeys (start : bytes) (sb : Bound) (end_ : bytes) (eb : Bound) (limit : Z)
| CPut (key val : bytes)
| CDelete (key : bytes)
| CCommit
| CRollback
| CPrewritePrimary (primary_key : bytes)
| CPrewriteSecondary (primary_key : bytes) (start_ts : Z)
| CCommitPrimary
| CCommitSecondary (commit_ts : Z).

Section Calls.
Context {S : Type} `{Backend S}.
Variable wait : Z -> S -> S.

Definition drop_out {A} (r : result A * Transaction * S) : bool * Transaction * S :=
  match r with (r', t', s') => (is_ok r', t', s') end.

(** One call: whether it returned [Ok], and the transaction and
    backend it leaves. *)
Definition bridge_call (c : Call) (t : Transaction) (s : S) : bool * Transaction * S :=
  match c with
  | CGet k => drop_out (transaction_get t s k)
  | CGetForUpdate k => drop_out (transaction_get_for_update t s k)
  | CBatchGet ks => drop_out (transaction_batch_get t s ks)
  | CBatchGetForUpdate ks => drop_out (transaction_batch_get_for_update t s ks)
  | CScan a sb e eb l => drop_out (transaction_scan t s a sb e eb l)
  | CScanKeys a sb e eb l => drop_out (transaction_scan_keys t s a sb e eb l)
  | CPut k v => drop_out (transaction_put t s k v)
  | CDelete k => drop_out (transaction_delete t s k)
  | CCommit => drop_out (transaction_commit wait t s)
  | CRollback => drop_out (transaction_rollback t s)
  | CPrewritePrimary pk => drop_out (transaction_prewrite_primary wait t s pk)
  | CPrewriteSecondary pk ts => drop_out (transaction_prewrite_secondary wait t s pk ts)
  | CCommitPrimary => drop_out (transaction_commit_primary t s)
  | CCommitSecondary ts =>
      let '(t', s') := transaction_commit_secondary t s ts in (true, t', s')
  end.

Definition bridge_step (x y : Transaction * S) : Prop :=
  exists c b, bridge_call c x.1 x.2 = (b, y.1, y.2).

(** A sequence of calls, each on what the previous one left. *)
Fixpoint bridge_run (cs : list Call) (t : Transaction) (s : S) : Transaction * S :=
  match cs with
  | [] => (t, s)
  | c :: cs' => let '(_, t', s') := bridge_call c t s in bridge_run cs' t' s'
  end.
End Calls.

(** The functions C++ can call on a [TransactionClient] once it is
    built (the [extern "Rust"] block, lib.rs 78-88), as labels. *)
Inductive ClientCall :=
| CBegin
| CClientGc (safepoint : Z)
| CBeginOptimisticWithOption (retry : Z)
| CBeginPessimistic.

Section ClientCalls.
Context {S : Type} `{Backend S}.

Definition new_txn (r : result Transaction * S) : option Transaction * S :=
  match r with (Ok t, s') => (Some t, s') | (Err _, s') => (None, s') end.

(** One call: the transaction it returns, if it begins one, and the
    backend it leaves. *)
Definition client_call (c : ClientCall) (s : S) : option Transaction * S :=
  match c with
  | CBegin => new_txn (transaction_client_begin s)
  | CClientGc sp => let '(_, s') := client_gc s sp in (None, s')
  | CBeginOptimisticWithOption retry => new_txn (transaction_client_begin_optimistic_with_option s retry)
  | CBeginPessimistic => new_txn (transaction_client_begin_pessimistic s)
  end.
End ClientCalls.

(** The reads C++ can make on a [Snapshot] (lib.rs 143-166), as labels,
    and what each one returns. *)
Inductive SnapshotCall :=
| SnGet (key : bytes)
| SnBatchGet (keys : list bytes)
| SnScan (start : bytes) (sb : Bound) (end_ : bytes) (eb : Bound) (limit : Z)
| SnScanKeys (start : bytes) (sb : Bound) (end_ : bytes) (eb : Bound) (limit : Z).

Inductive SnapshotReply :=
| RValue (v : OptionalValue)
| RPairs (kvs : list KvPair)
| RKeys (ks : list Key).

Section SnapshotCalls.
Context {S : Type} `{Backend S}.

Definition snapshot_call (c : SnapshotCall) (sn : Snapshot) (s : S) : result SnapshotReply :=
  match c with
  | SnGet k => result_map RValue (snapshot_get sn s k)
  | SnBatchGet ks => result_map RPairs (snapshot_batch_get sn s ks)
  | SnScan a sb e eb l => result_map RPairs (snapshot_scan sn s a sb e eb l)
  | SnScanKeys a sb e eb l => result_map RKeys (snapshot_scan_keys sn s a sb e eb l)
  end.
End SnapshotCalls.

(** The calls that read or write the buffer only: no prewrite, commit
    or rollback. *)
Definition local_call (c : Call) : bool :=
  match c with
  | CGet _ | CGetForUpdate _ | CBatchGet _ | CBatchGetForUpdate _
  | CScan _ _ _ _ _ | CScanKeys _ _ _ _ _ | CPut _ _ | CDelete _ => true
  | _ => false
  end.

(** ** Concrete transactions, for the witnesses *)

(** [transaction_commit] of [demo_t2] on [demo_s0]. *)
Definition demo_commit : result unit * Transaction * Mvcc.Store :=
  transaction_commit Backoff.no_wait demo_t2 demo_s0.

(** A [Committing] transaction with nothing left to commit. *)
Definition demo_committing : Transaction := Txn.set_committing (Txn.set_prewritten demo_t0 (bs "a") 1) 2.

(** A buffer whose first key is ["a"] and which also writes the empty key. *)
Definition demo_empty_key_txn : Transaction :=
  Txn.set_buffer demo_t0 (Buffer.put (Buffer.put [] (bs "a") (bs "1")) [] (bs "2")).

(** ** Theorems *)

(** Every bridge function unfolded to the engine operation it calls. *)
Ltac bridge_unfold :=
  unfold transaction_get, transaction_get_for_update, transaction_batch_get,
    transaction_batch_get_for_update, transaction_scan, transaction_scan_keys,
    transaction_put, transaction_delete, transaction_commit, transaction_rollback,
    transaction_prewrite_primary, transaction_prewrite_secondary,
    transaction_commit_primary, transaction_commit_secondary.

Section BridgeTheorems.

Lemma map_out_inv {S} {A B} (f : A -> B) (r : result A * Transaction * S) r' t' s' :
  map_out f r = (r', t', s') -> exists r0, r = (r0, t', s') /\ r' = result_map f r0.
Proof. destruct r as [[r0 t0] s0]. simpl. intros; simplify_eq. eauto. Qed.

(** C4. Read-your-own-writes through the bridge: after
    [transaction_put(k, v)], [transaction_get(k)] on the same
    transaction returns [v] ([is_none = false]) before any commit;
    neither call touches the backend. *)
Theorem bridge_read_your_writes {S} `{Backend S} t (s : S) k v t1 s1 :
  transaction_put t s k v = (Ok tt, t1, s1) ->
  s1 = s /\ transaction_get t1 s1 k = (Ok (mkOptionalValue false v), t1, s1).
Proof.
  intros Hp. apply map_out_inv in Hp as ([[]|] & Hp & Hr); simplify_eq.
  destruct (read_your_writes t s k v t1 s1 Hp) as [-> Hg].
  split; [done|]. unfold transaction_get. by rewrite Hg.
Qed.

(** C15. A buffered delete hides the key through the bridge: after
    [transaction_delete(k)], [transaction_get(k)] returns
    [is_none = true] whatever the backend holds for [k]. *)
Theorem bridge_delete_hides {S} `{Backend S} t (s : S) k t1 s1 :
  transaction_delete t s k = (Ok tt, t1, s1) ->
  s1 = s /\ transaction_get t1 s1 k = (Ok (mkOptionalValue true []), t1, s1).
Proof.
  intros Hp. apply map_out_inv in Hp as ([[]|] & Hp & Hr); simplify_eq.
  destruct (delete_hides t s k t1 s1 Hp) as [-> Hg].
  split; [done|]. unfold transaction_get. by rewrite Hg.
Qed.

(** A successful [transaction_commit] of a transaction with writes
    committed at the oracle's next timestamp. *)
Lemma bridge_commit_effect t (s : Mvcc.Store) t' s' k m :
  Buffer.wf (buffer t) ->
  transaction_commit Backoff.no_wait t s = (Ok tt, t', s') ->
  Buffer.lookup (buffer t) k = Some m ->
  Mvcc.versions s' !! k = Some (Mvcc.mkWrite (start_ts t) (Mvcc.tso s + 1) m :: Mvcc.versions_of s k) /\
  Mvcc.locks s' !! k = None.
Proof.
  intros Hwf Hc Hk. apply map_out_inv in Hc as ([[c|]|] & Hc & Hr); simplify_eq.
  - destruct (commit_effect t s c t' s' Hwf Hc) as (-> & _ & Hs). specialize (Hs k). by rewrite Hk in Hs.
  - apply commit_Ok_None in Hc. rewrite Hc in Hk. done.
Qed.

(** C2. Round trip through the bridge: after [put]s and [delete]s and
    a [transaction_commit] that returns [Ok] (alone on the store), a
    snapshot at any timestamp later than the last one the oracle had
    issued before the commit (the commit timestamp is the next one)
    reads every written key as the transaction wrote it. *)
Theorem bridge_commit_roundtrip t (s : Mvcc.Store) t' s' k m ts :
  Buffer.wf (buffer t) ->
  transaction_commit Backoff.no_wait t s = (Ok tt, t', s') ->
  Buffer.lookup (buffer t) k = Some m ->
  (Mvcc.tso s < ts)%Z ->
  snapshot_get (mkSnapshot ts) s' k = Ok (optional_value_of (Buffer.get_or (buffer t) k None)).
Proof.
  intros Hwf Hc Hk Hts. destruct (bridge_commit_effect t s t' s' k m Hwf Hc Hk) as [Hv Hl].
  unfold snapshot_get. cbn [kv_read Mvcc_backend snap_ts]. rewrite read_unlocked by done.
  unfold Mvcc.versions_of at 1. rewrite Hv. simpl. rewrite decide_True by lia.
  unfold Buffer.get_or. rewrite Hk. by destruct m.
Qed.

(** C3. Snapshot isolation through the bridge: after a successful
    [transaction_commit], a snapshot at a timestamp the oracle had
    already issued (below the commit timestamp) reads every written
    key as the versions committed before the transaction had it. *)
Theorem bridge_commit_invisible_before t (s : Mvcc.Store) t' s' k m ts :
  Buffer.wf (buffer t) ->
  transaction_commit Backoff.no_wait t s = (Ok tt, t', s') ->
  Buffer.lookup (buffer t) k = Some m ->
  (ts <= Mvcc.tso s)%Z ->
  snapshot_get (mkSnapshot ts) s' k =
    Ok (optional_value_of (Mvcc.value_of (Mvcc.visible (Mvcc.versions_of s k) ts))).
Proof.
  intros Hwf Hc Hk Hts. destruct (bridge_commit_effect t s t' s' k m Hwf Hc Hk) as [Hv Hl].
  unfold snapshot_get. cbn [kv_read Mvcc_backend snap_ts]. rewrite read_unlocked by done.
  unfold Mvcc.versions_of at 1. rewrite Hv. simpl. by rewrite decide_False by lia.
Qed.


Lemma allowed_refl st : Txn.allowed st st = true.
Proof. unfold Txn.allowed. by rewrite bool_decide_true. Qed.

(** One call of the bridge is one step of the engine, or changes
    nothing. *)
Ltac step_of o :=
  let Hx := fresh "Hx" in intros Hx; right;
  lazymatch type of Hx with
  | drop_out (map_out _ ?X) = _ => let E := fresh "E" in destruct X as [[?r0 ?t0] ?s0] eqn:E
  | drop_out ?X = _ => let E := fresh "E" in destruct X as [[?r0 ?t0] ?s0] eqn:E
  end; simpl in Hx; simplify_eq;
  match goal with E : _ = (?r0, _, _) |- _ =>
    exists o, (is_ok r0); unfold Txn.exec, Txn.drop; rewrite E; reflexivity
  end.

Lemma bridge_call_exec {S} `{Backend S} (wait : Z -> S -> S) c t s b t' s' :
  bridge_call wait c t s = (b, t', s') ->
  (t', s') = (t, s) \/ exists o b', Txn.exec wait o t s = (b', t', s').
Proof.
  destruct c; cbn [bridge_call]; bridge_unfold;
    try (destruct (to_bound_range _ _ _ _) as [range|]; [|intros Hx; simpl in Hx; simplify_eq; by left]).
  - step_of (Txn.OGet key).
  - step_of (Txn.OGetForUpdate key).
  - step_of (Txn.OBatchGet keys).
  - intros Hx; simpl in Hx; simplify_eq. by left.
  - step_of (Txn.OScan range (Z.to_nat limit)).
  - step_of (Txn.OScanKeys range (Z.to_nat limit)).
  - step_of (Txn.OPut key val).
  - step_of (Txn.ODelete key).
  - step_of Txn.OCommit.
  - step_of Txn.ORollback.
  - step_of (Txn.OPrewritePrimary (match primary_key with [] => None | _ => Some primary_key end)).
  - step_of (Txn.OPrewriteSecondary primary_key (Timestamp.version (Timestamp.from_version start_ts))).
  - step_of Txn.OCommitPrimary.
  - destruct (Txn.commit_secondary t s _) as [[r0 t0] s0] eqn:E. intros; simplify_eq. right.
    exists (Txn.OCommitSecondary (Timestamp.version (Timestamp.from_version commit_ts))), (is_ok r0).
    unfold Txn.exec, Txn.drop. by rewrite E.
Qed.
(** C20. Every call of the bridge moves the transaction along an edge
    of the state machine of section 4.2 (or leaves its status):
    [Active] to [Prewriting], [Failed], [RolledBack] or [Committed];
    [Prewriting] to [Committing], [Committed], [Failed] or [RolledBack];
    [Committing] to [Committed]; [Failed] to [RolledBack]. *)
Theorem bridge_call_allowed {S} `{Backend S} (wait : Z -> S -> S) c t s b t' s' :
  bridge_call wait c t s = (b, t', s') -> Txn.allowed (status t) (status t') = true.
Proof.
  intros Hc. apply bridge_call_exec in Hc as [[= -> ->]|(o & b' & Hx)]; [apply allowed_refl|].
  by eapply exec_allowed.
Qed.

(** C19. The commit point, through the bridge: once
    [transaction_commit_primary] has succeeded (status [Committing]), no
    sequence of bridge calls can roll the transaction back or fail it;
    it stays [Committing] or [Committed]. *)
Theorem bridge_committed_stays {S} `{Backend S} (wait : Z -> S -> S) x y :
  rtc (bridge_step wait) x y ->
  decided (status x.1) = true -> decided (status y.1) = true.
Proof.
  induction 1 as [|x z y [c [b Hx]] _ IH]; [done|].
  intros Hd. apply IH. destruct x, z. eapply allowed_decided; [|exact Hd].
  eapply bridge_call_allowed. exact Hx.
Qed.

(** C18. Terminal states reject every bridge call: on a [Committed],
    [RolledBack] or [Failed] transaction each call returns an error and
    changes neither the transaction nor the backend, except the
    [transaction_rollback] that cleans up after a [Failed] prewrite;
    [transaction_commit_secondary], which returns nothing, changes
    nothing either. *)
Theorem bridge_terminal_rejects {S} `{Backend S} (wait : Z -> S -> S) c t s :
  terminal (status t) = true ->
  (c = CRollback -> status t <> Failed) ->
  bridge_call wait c t s = (match c with CCommitSecondary _ => true | _ => false end, t, s).
Proof.
  intros Ht Hr. destruct c; cbn [bridge_call]; bridge_unfold;
    try (destruct (to_bound_range _ _ _ _) as [range|]; [|reflexivity]);
    unfold Txn.get, Txn.get_for_update, Txn.batch_get, Txn.scan_keys, Txn.scan, Txn.put,
      Txn.delete, Txn.commit, Txn.rollback, Txn.prewrite_primary, Txn.prewrite_secondary,
      Txn.commit_primary, Txn.commit_secondary, Txn.guard, Txn.is_active;
    destruct (status t) eqn:E; try done; simpl; rewrite ?E; try done.
  exfalso. by apply (Hr eq_refl).
Qed.


(** C26. [transaction_client_begin_optimistic_with_option(retry)]
    returns an [Active] transaction with an empty buffer, started at the
    oracle's next timestamp, whose lock back-off grants exactly [retry]
    delays, the [i]-th being [min 500 ((2 * 2^i) mod 2^64)]: 2, 4, ...,
    256, then 500, and 0 once the doubling has shifted the delay out of
    its [u64]. *)
Theorem begin_with_option_backoff (s : Mvcc.Store) retry t s' fuel :
  (0 <= retry)%Z -> (Z.to_nat retry <= fuel)%nat ->
  transaction_client_begin_optimistic_with_option s retry = (Ok t, s') ->
  status t = Active /\ buffer t = [] /\ start_ts t = (Mvcc.tso s + 1)%Z /\
  Mvcc.tso s' = start_ts t /\
  Backoff.delays fuel (lock_backoff t) =
    (fun i => Z.min 500 (wrap_u64 (2 * 2 ^ Z.of_nat i))) <$> seq 0 (Z.to_nat retry).
Proof.
  intros Hr Hf Hb. unfold transaction_client_begin_optimistic_with_option in Hb.
  cbn [kv_fetch_ts Mvcc_backend] in Hb. unfold Mvcc.fetch_ts in Hb. simplify_eq.
  split_and!; try done. apply lock_backoff_delays; done.
Qed.

(** C27. The lock retry loop of a transaction begun with
    [transaction_client_begin_optimistic_with_option(retry)] terminates
    having used exactly its budget: given fuel for [retry] attempts, it
    gives up on a lock conflict only after exactly [retry] retries,
    whatever other clients do during the delays. *)
Theorem begin_with_option_retry_budget (s : Mvcc.Store) retry t s' {St A}
    (wait : Z -> St -> St) (attempt : St -> result (A * St)) fuel s0 b' s0' :
  (0 <= retry)%Z -> (Z.to_nat retry <= fuel)%nat ->
  transaction_client_begin_optimistic_with_option s retry = (Ok t, s') ->
  Backoff.retry_lock wait attempt fuel (lock_backoff t) s0 = (Err LockConflict, b', s0') ->
  current_attempts b' = retry.
Proof.
  intros Hr Hf Hb Hl. unfold transaction_client_begin_optimistic_with_option in Hb.
  cbn [kv_fetch_ts Mvcc_backend] in Hb. unfold Mvcc.fetch_ts in Hb. simplify_eq.
  simpl in Hl. pose proof Hl as Hl'.
  apply retry_lock_uses_budget in Hl; [|done|simpl; lia].
  apply retry_lock_bounds in Hl'; simpl in *; lia.
Qed.

(** C28. The bridge reads an empty primary key as "choose one": whatever
    the buffer holds, [transaction_prewrite_primary] with the empty key
    prewrites the buffer's first key, so a C++ caller cannot make the
    empty key, which the specification allows as a key, the primary. *)
Theorem prewrite_primary_empty_key {S} `{Backend S} (wait : Z -> S -> S) t s k0 r t' s' :
  Buffer.first_key (buffer t) = Some k0 ->
  transaction_prewrite_primary wait t s [] = (Ok r, t', s') ->
  pw_key r = k0.
Proof.
  intros Hk. unfold transaction_prewrite_primary, map_out, Txn.prewrite_primary, Txn.guard.
  destruct (Txn.is_active (status t)); [|by intros; simplify_eq]. simpl. rewrite Hk.
  destruct (Buffer.lookup (buffer t) k0); [|by intros; simplify_eq].
  destruct (Txn.prewrite_retry wait t s k0 m k0 (start_ts t)) as [[] ?];
    intros Hx; simpl in Hx; simplify_eq; reflexivity.
Qed.

(** C29. [transaction_commit_secondary] drops the error of the
    secondary commits: whenever one secondary of a [Prewriting] or
    [Committing] transaction has lost its lock (resolved by another
    reader, say) and has no version of the transaction's start
    timestamp, the engine's [commit_secondary] reports [LockNotFound],
    but the bridge returns nothing, the transaction is [Committed], and
    that secondary is left uncommitted, at any commit timestamp. *)
Theorem commit_secondary_error_dropped t (s : Mvcc.Store) c k :
  (status t = Prewriting \/ status t = Committing) ->
  k ∈ Txn.secondaries t -> Mvcc.locks s !! k = None ->
  Forall (fun w => Mvcc.write_start w <> lock_start t) (Mvcc.versions_of s k) ->
  (0 <= c < u64_modulus)%Z ->
  (Txn.commit_secondary t s c).1.1 = Err LockNotFound /\
  status (transaction_commit_secondary t s c).1 = Committed /\
  (transaction_commit_secondary t s c).2 = (Txn.commit_secondary t s c).2 /\
  Mvcc.versions_of (transaction_commit_secondary t s c).2 k = Mvcc.versions_of s k.
Proof.
  intros Hst Hk Hl Hv Hc. unfold transaction_commit_secondary. rewrite version_from_version by done.
  unfold Txn.commit_secondary, Txn.guard. rewrite bool_decide_eq_true_2 by done.
  destruct (commit_all_stuck s (Txn.secondaries t) (lock_start t) c k Hk Hl Hv) as (s' & -> & _ & Hv').
  split_and!; try done. unfold Mvcc.versions_of. simpl. by rewrite Hv'.
Qed.


End BridgeTheorems.

(** ** Witnesses, on the transaction [demo_t0]/[demo_t2] of [Transaction] *)

Lemma bridge_read_your_writes_witness :
  transaction_put demo_t0 demo_s0 (bs "a") (bs "1") =
    (Ok tt, Txn.set_buffer demo_t0 (Buffer.put [] (bs "a") (bs "1")), demo_s0) /\
  (demo_s0 = demo_s0 /\
   transaction_get (Txn.set_buffer demo_t0 (Buffer.put [] (bs "a") (bs "1"))) demo_s0 (bs "a") =
     (Ok (mkOptionalValue false (bs "1")), Txn.set_buffer demo_t0 (Buffer.put [] (bs "a") (bs "1")), demo_s0)).
Proof.
  assert (H : transaction_put demo_t0 demo_s0 (bs "a") (bs "1") =
    (Ok tt, Txn.set_buffer demo_t0 (Buffer.put [] (bs "a") (bs "1")), demo_s0)) by reflexivity.
  split; [exact H|]. exact (bridge_read_your_writes _ _ _ _ _ _ H).
Defined.

Lemma bridge_delete_hides_witness :
  transaction_delete demo_t2 demo_s0 (bs "a") =
    (Ok tt, Txn.set_buffer demo_t2 (Buffer.delete (buffer demo_t2) (bs "a")), demo_s0) /\
  (demo_s0 = demo_s0 /\
   transaction_get (Txn.set_buffer demo_t2 (Buffer.delete (buffer demo_t2) (bs "a"))) demo_s0 (bs "a") =
     (Ok (mkOptionalValue true []), Txn.set_buffer demo_t2 (Buffer.delete (buffer demo_t2) (bs "a")), demo_s0)).
Proof.
  assert (H : transaction_delete demo_t2 demo_s0 (bs "a") =
    (Ok tt, Txn.set_buffer demo_t2 (Buffer.delete (buffer demo_t2) (bs "a")), demo_s0)) by reflexivity.
  split; [exact H|]. exact (bridge_delete_hides _ _ _ _ _ H).
Defined.

Lemma demo_wf : Buffer.wf (buffer demo_t2).
Proof. vm_compute. repeat constructor; set_solver. Qed.

Lemma demo_commit_Ok : transaction_commit Backoff.no_wait demo_t2 demo_s0 = (Ok tt, demo_commit.1.2, demo_commit.2).
Proof. vm_compute. reflexivity. Qed.

Lemma bridge_commit_roundtrip_witness :
  Buffer.wf (buffer demo_t2) /\
  transaction_commit Backoff.no_wait demo_t2 demo_s0 = (Ok tt, demo_commit.1.2, demo_commit.2) /\
  Buffer.lookup (buffer demo_t2) (bs "b") = Some (Put (bs "2")) /\ (Mvcc.tso demo_s0 < 4)%Z /\
  snapshot_get (mkSnapshot 4) demo_commit.2 (bs "b") =
    Ok (optional_value_of (Buffer.get_or (buffer demo_t2) (bs "b") None)).
Proof.
  assert (Hl : Buffer.lookup (buffer demo_t2) (bs "b") = Some (Put (bs "2"))) by reflexivity.
  assert (Ht : (Mvcc.tso demo_s0 < 4)%Z) by (vm_compute; reflexivity).
  split; [exact demo_wf|]. split; [exact demo_commit_Ok|]. split; [exact Hl|]. split; [exact Ht|].
  exact (bridge_commit_roundtrip _ _ _ _ _ _ 4 demo_wf demo_commit_Ok Hl Ht).
Defined.

Lemma bridge_commit_invisible_before_witness :
  Buffer.wf (buffer demo_t2) /\
  transaction_commit Backoff.no_wait demo_t2 demo_s0 = (Ok tt, demo_commit.1.2, demo_commit.2) /\
  Buffer.lookup (buffer demo_t2) (bs "b") = Some (Put (bs "2")) /\ (1 <= Mvcc.tso demo_s0)%Z /\
  snapshot_get (mkSnapshot 1) demo_commit.2 (bs "b") =
    Ok (optional_value_of (Mvcc.value_of (Mvcc.visible (Mvcc.versions_of demo_s0 (bs "b")) 1))).
Proof.
  assert (Hl : Buffer.lookup (buffer demo_t2) (bs "b") = Some (Put (bs "2"))) by reflexivity.
  assert (Ht : (1 <= Mvcc.tso demo_s0)%Z) by (vm_compute; discriminate).
  split; [exact demo_wf|]. split; [exact demo_commit_Ok|]. split; [exact Hl|]. split; [exact Ht|].
  exact (bridge_commit_invisible_before _ _ _ _ _ _ 1 demo_wf demo_commit_Ok Hl Ht).
Defined.

Lemma bridge_terminal_rejects_witness :
  terminal (status (Txn.set_status demo_t2 Committed)) = true /\
  (CCommit = CRollback -> status (Txn.set_status demo_t2 Committed) <> Failed) /\
  bridge_call Backoff.no_wait CCommit (Txn.set_status demo_t2 Committed) demo_s0 =
    (false, Txn.set_status demo_t2 Committed, demo_s0).
Proof.
  assert (Hr : CCommit = CRollback -> status (Txn.set_status demo_t2 Committed) <> Failed) by discriminate.
  split; [reflexivity|]. split; [exact Hr|].
  exact (bridge_terminal_rejects Backoff.no_wait CCommit (Txn.set_status demo_t2 Committed) demo_s0 eq_refl Hr).
Defined.

Lemma bridge_committed_stays_witness :
  rtc (bridge_step Backoff.no_wait) (demo_committing, demo_s0)
      (Txn.set_status demo_committing Committed, demo_s0) /\
  decided (status demo_committing) = true /\
  decided (status (Txn.set_status demo_committing Committed)) = true.
Proof.
  assert (Hs : rtc (bridge_step Backoff.no_wait) (demo_committing, demo_s0)
                 (Txn.set_status demo_committing Committed, demo_s0)).
  { apply rtc_once. exists (CCommitSecondary 2), true. reflexivity. }
  split; [exact Hs|]. split; [reflexivity|].
  exact (bridge_committed_stays Backoff.no_wait _ _ Hs eq_refl).
Defined.

Lemma bridge_call_allowed_witness :
  bridge_call Backoff.no_wait (CPrewritePrimary []) demo_t2 demo_s0 =
    (true, (bridge_call Backoff.no_wait (CPrewritePrimary []) demo_t2 demo_s0).1.2,
     (bridge_call Backoff.no_wait (CPrewritePrimary []) demo_t2 demo_s0).2) /\
  Txn.allowed (status demo_t2)
    (status (bridge_call Backoff.no_wait (CPrewritePrimary []) demo_t2 demo_s0).1.2) = true.
Proof.
  assert (H : bridge_call Backoff.no_wait (CPrewritePrimary []) demo_t2 demo_s0 =
    (true, (bridge_call Backoff.no_wait (CPrewritePrimary []) demo_t2 demo_s0).1.2,
     (bridge_call Backoff.no_wait (CPrewritePrimary []) demo_t2 demo_s0).2)) by (vm_compute; reflexivity).
  split; [exact H|]. exact (bridge_call_allowed Backoff.no_wait _ _ _ _ _ _ H).
Defined.

Lemma begin_with_option_backoff_witness :
  (0 <= 70)%Z /\ (Z.to_nat 70 <= 70)%nat /\
  transaction_client_begin_optimistic_with_option Mvcc.init 70 =
    (Ok (Txn.new Optimistic 1 (Backoff.no_jitter_backoff 2 500 70)), Mvcc.mkStore ∅ ∅ 0 1) /\
  (status (Txn.new Optimistic 1 (Backoff.no_jitter_backoff 2 500 70)) = Active /\
   buffer (Txn.new Optimistic 1 (Backoff.no_jitter_backoff 2 500 70)) = [] /\
   start_ts (Txn.new Optimistic 1 (Backoff.no_jitter_backoff 2 500 70)) = (Mvcc.tso Mvcc.init + 1)%Z /\
   Mvcc.tso (Mvcc.mkStore ∅ ∅ 0 1) = start_ts (Txn.new Optimistic 1 (Backoff.no_jitter_backoff 2 500 70)) /\
   Backoff.delays 70 (lock_backoff (Txn.new Optimistic 1 (Backoff.no_jitter_backoff 2 500 70))) =
     (fun i => Z.min 500 (wrap_u64 (2 * 2 ^ Z.of_nat i))) <$> seq 0 (Z.to_nat 70)).
Proof.
  assert (Hb : transaction_client_begin_optimistic_with_option Mvcc.init 70 =
    (Ok (Txn.new Optimistic 1 (Backoff.no_jitter_backoff 2 500 70)), Mvcc.mkStore ∅ ∅ 0 1))
    by reflexivity.
  split; [lia|]. split; [vm_compute; lia|]. split; [exact Hb|].
  apply (begin_with_option_backoff Mvcc.init 70 _ _ 70); [lia|vm_compute; lia|exact Hb].
Defined.

Lemma begin_with_option_retry_budget_witness :
  (0 <= 3)%Z /\ (Z.to_nat 3 <= 3)%nat /\
  transaction_client_begin_optimistic_with_option Mvcc.init 3 =
    (Ok (Txn.new Optimistic 1 (Backoff.no_jitter_backoff 2 500 3)), Mvcc.mkStore ∅ ∅ 0 1) /\
  Backoff.retry_lock Backoff.no_wait (fun (_ : unit) => @Err (unit * unit) LockConflict) 3
    (lock_backoff (Txn.new Optimistic 1 (Backoff.no_jitter_backoff 2 500 3))) tt =
    (Err LockConflict, mkBackoff NoJitter 3 3 2 16 500, tt) /\
  current_attempts (mkBackoff NoJitter 3 3 2 16 500) = 3%Z.
Proof.
  assert (Hb : transaction_client_begin_optimistic_with_option Mvcc.init 3 =
    (Ok (Txn.new Optimistic 1 (Backoff.no_jitter_backoff 2 500 3)), Mvcc.mkStore ∅ ∅ 0 1))
    by reflexivity.
  assert (Hl : Backoff.retry_lock Backoff.no_wait (fun (_ : unit) => @Err (unit * unit) LockConflict) 3
    (lock_backoff (Txn.new Optimistic 1 (Backoff.no_jitter_backoff 2 500 3))) tt =
    (Err LockConflict, mkBackoff NoJitter 3 3 2 16 500, tt)) by reflexivity.
  split; [lia|]. split; [vm_compute; lia|]. split; [exact Hb|]. split; [exact Hl|].
  exact (begin_with_option_retry_budget Mvcc.init 3 _ _ Backoff.no_wait _ 3 tt _ _
           ltac:(lia) ltac:(vm_compute; lia) Hb Hl).
Defined.

Lemma prewrite_primary_empty_key_witness :
  Buffer.first_key (buffer demo_empty_key_txn) = Some (bs "a") /\
  transaction_prewrite_primary Backoff.no_wait demo_empty_key_txn demo_s0 [] =
    (Ok (mkPrewriteResult (bs "a") 1),
     (transaction_prewrite_primary Backoff.no_wait demo_empty_key_txn demo_s0 []).1.2,
     (transaction_prewrite_primary Backoff.no_wait demo_empty_key_txn demo_s0 []).2) /\
  pw_key (mkPrewriteResult (bs "a") 1) = bs "a".
Proof.
  assert (Hk : Buffer.first_key (buffer demo_empty_key_txn) = Some (bs "a")) by reflexivity.
  assert (Hp : transaction_prewrite_primary Backoff.no_wait demo_empty_key_txn demo_s0 [] =
    (Ok (mkPrewriteResult (bs "a") 1),
     (transaction_prewrite_primary Backoff.no_wait demo_empty_key_txn demo_s0 []).1.2,
     (transaction_prewrite_primary Backoff.no_wait demo_empty_key_txn demo_s0 []).2))
    by (vm_compute; reflexivity).
  split; [exact Hk|]. split; [exact Hp|].
  exact (prewrite_primary_empty_key Backoff.no_wait _ _ _ _ _ _ Hk Hp).
Defined.

(** The transaction [demo_t2] after its primary [a] committed, on a
    store where its secondary [b] holds no lock. *)
Lemma commit_secondary_error_dropped_witness :
  let t := Txn.set_committing (Txn.set_prewritten demo_t2 (bs "a") 1) 2 in
  (status t = Prewriting \/ status t = Committing) /\
  bs "b" ∈ Txn.secondaries t /\ Mvcc.locks demo_s0 !! bs "b" = None /\
  Forall (fun w => Mvcc.write_start w <> lock_start t) (Mvcc.versions_of demo_s0 (bs "b")) /\
  (0 <= 2 < u64_modulus)%Z /\
  ((Txn.commit_secondary t demo_s0 2).1.1 = Err LockNotFound /\
   status (transaction_commit_secondary t demo_s0 2).1 = Committed /\
   (transaction_commit_secondary t demo_s0 2).2 = (Txn.commit_secondary t demo_s0 2).2 /\
   Mvcc.versions_of (transaction_commit_secondary t demo_s0 2).2 (bs "b") = Mvcc.versions_of demo_s0 (bs "b")).
Proof.
  intros t.
  assert (H1 : status t = Prewriting \/ status t = Committing) by (right; reflexivity).
  assert (H2 : bs "b" ∈ Txn.secondaries t) by (apply (bool_decide_unpack _); vm_compute; reflexivity).
  assert (H3 : Mvcc.locks demo_s0 !! bs "b" = None) by reflexivity.
  assert (H4 : Forall (fun w => Mvcc.write_start w <> lock_start t) (Mvcc.versions_of demo_s0 (bs "b")))
    by (vm_compute; constructor).
  assert (H5 : (0 <= 2 < u64_modulus)%Z) by (unfold u64_modulus; lia).
  refine (conj H1 (conj H2 (conj H3 (conj H4 (conj H5 _))))).
  exact (commit_secondary_error_dropped t demo_s0 2 (bs "b") H1 H2 H3 H4 H5).
Defined.
