(* ===== verification/Equiv.v ===== *)
(** * The one-shot paths against their split or per-key forms

    Two equivalences between a convenience function of the bridge and
    the calls it stands for:

    - [transaction_commit] (lib.rs 424-427) against the split commit a
      C++ caller drives itself through [transaction_prewrite_primary]
      with an empty key, [transaction_prewrite_secondary] with the
      primary and start timestamp it returned,
      [transaction_commit_primary] and [transaction_commit_secondary]
      with the commit timestamp (lib.rs 434-492; specification, section
      4.2: "[commit()]: convenience path performing 1-4 in sequence");
    - [transaction_batch_get] and [snapshot_batch_get] (lib.rs 345-358,
      554-564) against one [transaction_get] or [snapshot_get] per key
      (section 4.2: "keys with no value are simply absent from the
      result ... duplicates in input are deduplicated"). *)

From S2P Require Import Prelude Ffi Buffer Timestamp Backoff Mvcc Transaction Bridge.

(** The split commit as a C++ caller runs it through the bridge: each
    step is called with what the previous one returned, and the first
    error ends the run. *)
Section Split.
Context {S : Type} `{Backend S}.
Variable wait : Z -> S -> S.

Definition split_commit (t : Transaction) (s : S) : result unit * Transaction * S :=
  match transaction_prewrite_primary wait t s [] with
  | (Err e, t1, s1) => (Err e, t1, s1)
  | (Ok pr, t1, s1) =>
      match transaction_prewrite_secondary wait t1 s1 (pw_key pr) (pw_version pr) with
      | (Err e, t2, s2) => (Err e, t2, s2)
      | (Ok _, t2, s2) =>
          match transaction_commit_primary t2 s2 with
          | (Err e, t3, s3) => (Err e, t3, s3)
          | (Ok c, t3, s3) =>
              let '(t4, s4) := transaction_commit_secondary t3 s3 c in (Ok tt, t4, s4)
          end
      end
  end.
End Split.

(** The reference for the batch reads: one read per key of the list,
    in the order the bridge's fold runs them, keeping the keys read
    with a value. *)
Definition batch_reads (rd : bytes -> result (option bytes)) (l : list bytes)
    : result (list (bytes * bytes)) :=
  fold_right (fun k acc => r <- acc ;; o <- rd k ;; Ok (default r ((fun v => (k, v) :: r) <$> o)))
    (Ok []) l.

(** What [Transaction::get] reads for [k]: the buffer, else the
    backend at the start timestamp. *)
Definition txn_read {S} `{Backend S} (t : Transaction) (s : S) (k : bytes) : result (option bytes) :=
  match Buffer.lookup (buffer t) k with
  | Some _ => Ok (Buffer.get_or (buffer t) k None)
  | None => kv_read s k (start_ts t)
  end.

(** ** The steps of the split commit, on any backend *)

Section SplitSteps.
Context {S : Type} `{Backend S}.
Variable wait : Z -> S -> S.

Lemma prewrite_primary_Ok t s pk p ts t1 s1 :
  Txn.prewrite_primary wait t s pk = (Ok (p, ts), t1, s1) ->
  ts = start_ts t /\ t1 = Txn.set_prewritten t p ts.
Proof.
  unfold Txn.prewrite_primary, Txn.guard. case_match; [|done].
  repeat case_match; intros; by simplify_eq.
Qed.

Lemma prewrite_secondary_Ok t s p ts t2 s2 :
  Txn.prewrite_secondary wait t s p ts = (Ok tt, t2, s2) -> t2 = Txn.set_prewritten t p ts.
Proof. unfold Txn.prewrite_secondary, Txn.guard. repeat case_match; intros; by simplify_eq. Qed.

Lemma commit_primary_Ok t s c t3 s3 :
  Txn.commit_primary t s = (Ok c, t3, s3) -> t3 = Txn.set_committing t c.
Proof. unfold Txn.commit_primary, Txn.guard. repeat case_match; intros; by simplify_eq. Qed.

(** Releasing the pessimistic locks is a no-op when every locked key
    is written. *)
Lemma release_locks_written t s :
  Forall (fun k => k ∈ Buffer.keys (buffer t)) (locked t) -> Txn.release_locks t s = s.
Proof.
  intros Hl. unfold Txn.release_locks.
  assert (Hf : filter (fun k => k ∉ Buffer.keys (buffer t)) (locked t) = []).
  { induction Hl as [|k ks Hk _ IH]; [done|].
    rewrite filter_cons, decide_False by (intros Hn; by apply Hn). done. }
  by rewrite Hf.
Qed.
End SplitSteps.

(** ** The split commit is the one-shot commit *)

Section SplitEquiv.
Context {S : Type} `{Backend S}.
Variable wait : Z -> S -> S.

Lemma commit_secondary_frame t s c r t4 s4 :
  Txn.commit_secondary t s c = (r, t4, s4) -> buffer t4 = buffer t /\ locked t4 = locked t.
Proof. unfold Txn.commit_secondary, Txn.guard. repeat case_match; intros; by simplify_eq. Qed.

(** C10. The one-shot commit is the split commit: for a transaction
    with a non-empty buffer whose pessimistic locks are all on written
    keys, and whose start and commit timestamps fit in a [u64],
    [transaction_commit] and the four split bridge calls a C++ caller
    makes (an empty primary key, then the primary and start timestamp
    returned, then the commit timestamp returned) give the same result,
    leave the same transaction and the same backend, on any backend,
    whatever other clients do while a prewrite sleeps. *)
Theorem split_commit_equiv t s :
  buffer t <> [] ->
  Forall (fun k => k ∈ Buffer.keys (buffer t)) (locked t) ->
  (0 <= start_ts t < u64_modulus)%Z ->
  ((forall c t' s', Txn.commit wait t s = (Ok (Some c), t', s') -> (0 <= c < u64_modulus)%Z) ->
   split_commit wait t s = transaction_commit wait t s).
Proof.
  intros Hb Hl Hts. unfold split_commit, transaction_commit, transaction_prewrite_primary,
    transaction_prewrite_secondary, transaction_commit_primary, transaction_commit_secondary,
    map_out, Txn.commit, Txn.guard.
  destruct (Txn.is_active (status t)) eqn:Ea.
  2: { intros _. unfold Txn.prewrite_primary, Txn.guard. by rewrite Ea. }
  destruct (buffer t) as [|km b] eqn:Eb; [done|].
  destruct (Txn.prewrite_primary wait t s None) as [[[[p ts]|e] t1] s1] eqn:E1; [|done].
  apply prewrite_primary_Ok in E1 as [-> ->]. cbn [result_map pw_key pw_version].
  rewrite version_from_version by done.
  destruct (Txn.prewrite_secondary wait _ s1 p (start_ts t)) as [[[[]|e] t2] s2] eqn:E2; [|done].
  destruct (Txn.commit_primary t2 s2) as [[[c|e] t3] s3] eqn:E3; [|done].
  intros Hc. specialize (Hc c).
  destruct (Txn.commit_secondary t3 s3 c) as [[r t4] s4] eqn:E4.
  specialize (Hc _ _ eq_refl). rewrite version_from_version, E4 by done.
  rewrite release_locks_written; [done|].
  apply commit_secondary_frame in E4 as [-> ->]. apply commit_primary_Ok in E3 as ->.
  apply prewrite_secondary_Ok in E2 as ->. simpl. rewrite Eb. exact Hl.
Qed.
End SplitEquiv.

(** ** Witnesses *)

Lemma split_commit_equiv_witness :
  buffer demo_t2 <> [] /\
  Forall (fun k => k ∈ Buffer.keys (buffer demo_t2)) (locked demo_t2) /\
  (0 <= start_ts demo_t2 < u64_modulus)%Z /\
  split_commit Backoff.no_wait demo_t2 demo_s0 = transaction_commit Backoff.no_wait demo_t2 demo_s0.
Proof.
  assert (Hb : buffer demo_t2 <> []) by discriminate.
  assert (Hl : Forall (fun k => k ∈ Buffer.keys (buffer demo_t2)) (locked demo_t2)) by constructor.
  assert (Hts : (0 <= start_ts demo_t2 < u64_modulus)%Z) by (unfold u64_modulus; simpl; lia).
  split; [exact Hb|]. split; [exact Hl|]. split; [exact Hts|].
  apply (split_commit_equiv Backoff.no_wait demo_t2 demo_s0 Hb Hl Hts).
  intros c t' s' Hc.
  assert (E : (Txn.commit Backoff.no_wait demo_t2 demo_s0).1.1 = Ok (Some 2%Z)) by (vm_compute; reflexivity).
  rewrite Hc in E. simpl in E. injection E as ->. unfold u64_modulus. lia.
Defined.

(** ** Batch reads are per-key reads *)

Section BatchReads.
Variable rd : bytes -> result (option bytes).

Lemma batch_reads_spec l :
  NoDup l ->
  match batch_reads rd l with
  | Ok r => NoDup (fst <$> r) /\ forall k v, (k, v) ∈ r <-> k ∈ l /\ rd k = Ok (Some v)
  | Err e => exists k, k ∈ l /\ rd k = Err e
  end.
Proof.
  induction l as [|k l IH]; intros Hnd; simpl.
  { split; [constructor|]. intros k v. split; [by intros ?%elem_of_nil|]. intros [?%elem_of_nil _]. done. }
  apply NoDup_cons in Hnd as [Hn Hnd]. specialize (IH Hnd).
  destruct (batch_reads rd l) as [r|e]; simpl; [|destruct IH as (k' & ? & ?); exists k'; set_solver].
  destruct IH as [Hr Hs]. destruct (rd k) as [[v|]|e] eqn:Ek; simpl.
  - split.
    + constructor; [|done]. intros (kv & -> & Hkv)%list_elem_of_fmap.
      destruct kv as [k' v']. apply Hs in Hkv as [? _]. done.
    + intros k' v'. rewrite elem_of_cons, Hs, elem_of_cons.
      split; [intros [[= -> ->]|[? ?]]; auto|].
      intros [[->|?] Hk']; [left; congruence|by right].
  - split; [done|]. intros k' v'. rewrite Hs, elem_of_cons.
    split; [intros [? ?]; auto|]. intros [[->|?] Hk']; [congruence|auto].
  - exists k. set_solver.
Qed.
End BatchReads.

Section BatchBridge.
Context {S : Type} `{Backend S}.

Lemma snapshot_batch_get_reads sn (s : S) ks :
  snapshot_batch_get sn s ks =
    result_map (fmap kv_pair_of) (batch_reads (fun k => kv_read s k (snap_ts sn)) (remove_dups ks)).
Proof.
  unfold snapshot_batch_get. generalize (remove_dups ks) as l.
  induction l as [|k l IH]; [done|]. simpl. rewrite IH.
  destruct (batch_reads _ l); [|done]. simpl. by destruct (kv_read s k (snap_ts sn)) as [[]|].
Qed.

Lemma txn_batch_fold_reads t (s : S) l :
  fold_right Txn.batch_step (Ok [], t, s) l = (batch_reads (txn_read t s) l, t, s).
Proof.
  induction l as [|k l IH]; [done|]. simpl. rewrite IH. unfold Txn.batch_step, txn_read.
  destruct (batch_reads _ l); simpl; [|done].
  destruct (Buffer.lookup (buffer t) k); [done|]. by destruct (kv_read s k (start_ts t)).
Qed.

Lemma txn_get_read t (s : S) k :
  Txn.is_active (status t) = true -> Txn.get t s k = (txn_read t s k, t, s).
Proof. intros Ha. unfold Txn.get, Txn.guard, txn_read. rewrite Ha. by case_match. Qed.

Lemma optional_value_of_Ok (r : result (option bytes)) v :
  result_map optional_value_of r = Ok (mkOptionalValue false v) <-> r = Ok (Some v).
Proof. destruct r as [[]|]; simpl; split; intros; by simplify_eq. Qed.

Lemma optional_value_of_Err (r : result (option bytes)) e :
  result_map optional_value_of r = Err e <-> r = Err e.
Proof. destruct r; simpl; split; intros; by simplify_eq. Qed.

Lemma kv_pairs_spec (r : list (bytes * bytes)) :
  NoDup (fst <$> r) -> NoDup (pair_key <$> (kv_pair_of <$> r)) /\
  forall k v, mkKvPair k v ∈ kv_pair_of <$> r <-> (k, v) ∈ r.
Proof.
  intros Hnd. split.
  - by rewrite <- list_fmap_compose.
  - intros k v. rewrite list_elem_of_fmap. split; [|intros; by exists (k, v)].
    intros ([k' v'] & Heq & ?). unfold kv_pair_of in Heq. simpl in Heq. by simplify_eq.
Qed.
(** C17. A snapshot's [batch_get] is its [get] on each key: it fails
    exactly when the [get] of one of the keys fails, with that key's
    error; otherwise it returns each key at most once, and a pair
    [(k, v)] is in the result exactly when [k] is one of the requested
    keys and [snapshot_get] of [k] returns the value [v]; keys without a
    value are left out. *)
Theorem snapshot_batch_get_equiv sn (s : S) ks :
  match snapshot_batch_get sn s ks with
  | Ok l => NoDup (pair_key <$> l) /\
      forall k v, mkKvPair k v ∈ l <-> k ∈ ks /\ snapshot_get sn s k = Ok (mkOptionalValue false v)
  | Err e => exists k, k ∈ ks /\ snapshot_get sn s k = Err e
  end.
Proof.
  rewrite snapshot_batch_get_reads. unfold snapshot_get.
  pose proof (batch_reads_spec (fun k => kv_read s k (snap_ts sn)) (remove_dups ks) (NoDup_remove_dups ks)) as Hb.
  destruct (batch_reads _ _) as [r|e]; simpl.
  - destruct Hb as [Hnd Hr]. destruct (kv_pairs_spec r Hnd) as [Hnd' Hr'].
    split; [done|]. intros k v. by rewrite Hr', Hr, elem_of_remove_dups, optional_value_of_Ok.
  - destruct Hb as (k & Hk & He). exists k. by rewrite <- elem_of_remove_dups, optional_value_of_Err.
Qed.

(** C16. A transaction's [batch_get] is its [get] on each key: it
    leaves the transaction and the backend as they were; it fails when
    the transaction is not [Active] ([InvalidState]) or with the error
    of one of the keys' [transaction_get]; otherwise it returns each key
    at most once, and a pair [(k, v)] is in the result exactly when [k]
    is one of the requested keys and [transaction_get] of [k], which
    sees the buffer first, returns the value [v]. *)
Theorem transaction_batch_get_equiv t (s : S) ks :
  let '(r, t', s') := transaction_batch_get t s ks in
  t' = t /\ s' = s /\
  match r with
  | Ok l => NoDup (pair_key <$> l) /\
      forall k v, mkKvPair k v ∈ l <-> k ∈ ks /\ (transaction_get t s k).1.1 = Ok (mkOptionalValue false v)
  | Err e => (status t <> Active /\ e = InvalidState) \/
      exists k, k ∈ ks /\ (transaction_get t s k).1.1 = Err e
  end.
Proof.
  unfold transaction_batch_get, transaction_get, map_out, Txn.batch_get, Txn.guard.
  destruct (Txn.is_active (status t)) eqn:Ea; [|simpl; split_and!; [done|done|left]].
  2: { split; [|done]. intros Hs. unfold Txn.is_active in Ea. by rewrite Hs in Ea. }
  rewrite txn_batch_fold_reads. split_and!; [done|done|].
  pose proof (batch_reads_spec (txn_read t s) (remove_dups ks) (NoDup_remove_dups ks)) as Hb.
  destruct (batch_reads _ _) as [r|e]; simpl.
  - destruct Hb as [Hnd Hr]. destruct (kv_pairs_spec r Hnd) as [Hnd' Hr'].
    split; [done|]. intros k v. rewrite txn_get_read by done. simpl.
    by rewrite Hr', Hr, elem_of_remove_dups, optional_value_of_Ok.
  - right. destruct Hb as (k & Hk & He). exists k.
    rewrite txn_get_read by done. simpl. by rewrite <- elem_of_remove_dups, optional_value_of_Err.
Qed.
End BatchBridge.
