(* ===== verification/Resolve.v ===== *)
(** * Readers that resolve locks: the atomicity pivot of the split commit

    Section 4.2 of the specification, step 3: [commit_primary] "is the
    atomicity pivot: once this step succeeds, the transaction is
    logically committed even if secondary commits have not yet run,
    because any reader that encounters a secondary lock can consult the
    primary's resolved status to determine commit/rollback"; step 2:
    each secondary lock references the primary and the start timestamp
    "so that any reader encountering an in-doubt secondary lock can look
    up the primary".  A read of [Mvcc] that meets a lock fails with
    [LockConflict]; this file models, from the specification, the reader
    of [tikv_client] that resolves the lock instead:

    - [Resolve.primary_status]: the outcome of the transaction a lock
      belongs to, read off its primary: a version of the primary that
      carries the lock's start timestamp means committed at that
      version's commit timestamp, the transaction's own lock on the
      primary means still in doubt, neither means rolled back;
    - [Resolve.resolve_key]: the secondary's lock is committed at the
      primary's commit timestamp ([Mvcc.commit_key]), erased
      ([Mvcc.rollback_key]), or left in doubt;
    - [Resolve.read], [Resolve.scan]: the reads of [Mvcc] on the store
      as it is once each lock that blocks them is resolved;
    - [resolving_backend]: the backend whose reads resolve and whose
      oracle, writes and GC are [Mvcc]'s, a [Backend] record passed
      explicitly, so that the bridge functions of [Bridge] run on it
      unchanged.

    A read returns what it reads once the locks are resolved; the
    cleanup the resolution writes back is not kept (a later read
    resolves again and reads the same). *)

From S2P Require Import Prelude Ffi Buffer Timestamp Backoff Mvcc Transaction Bridge Equiv.

Module Resolve.
Import Mvcc.

(** What a reader finds out about the transaction of a lock. *)
Inductive Outcome :=
| TxnCommitted (commit : Z)
| TxnPending
| TxnRolledBack.

#[export] Instance Outcome_eq_dec : EqDecision Outcome.
Proof. solve_decision. Defined.

(** The status of the transaction started at [start] whose primary is
    [p]. *)
Definition primary_status (s : Store) (p : bytes) (start : Z) : Outcome :=
  match List.find (fun w => bool_decide (write_start w = start)) (versions_of s p) with
  | Some w => TxnCommitted (write_commit w)
  | None =>
      match locks s !! p with
      | Some l => if decide (lock_ts l = start) then TxnPending else TxnRolledBack
      | None => TxnRolledBack
      end
  end.

(** Resolving the lock of [k]: a prewritten lock follows its primary;
    a pessimistic lock, or no lock, is left as it is. *)
Definition resolve_key (s : Store) (k : bytes) : Store :=
  match locks s !! k with
  | Some (mkLock p ts (Some _)) =>
      match primary_status s p ts with
      | TxnCommitted c => match commit_key s k ts c with Ok s' => s' | Err _ => s end
      | TxnRolledBack => match rollback_key s k ts with Ok s' => s' | Err _ => s end
      | TxnPending => s
      end
  | _ => s
  end.

(** The store a read of [k] at [ts] sees: the lock that blocks it, if
    any, resolved. *)
Definition view (s : Store) (k : bytes) (ts : Z) : Store :=
  if blocks s k ts then resolve_key s k else s.

Definition read (s : Store) (k : bytes) (ts : Z) : result (option bytes) :=
  Mvcc.read (view s k ts) k ts.

Definition scan (s : Store) (r : BoundRange) (ts : Z) : result (list (bytes * bytes)) :=
  let ks := filter (fun k => range_contains r k = true) (all_keys s) in
  if existsb (fun k => blocks (view s k ts) k ts) ks then Err LockConflict
  else Ok (omap (fun k => (fun v => (k, v)) <$> value_of (visible (versions_of (view s k ts) k) ts)) ks).

End Resolve.

Definition resolving_backend : Backend Mvcc.Store := {|
  kv_fetch_ts := Mvcc.fetch_ts;
  kv_read := Resolve.read;
  kv_scan := Resolve.scan;
  kv_lock := Mvcc.lock_key;
  kv_prewrite := Mvcc.prewrite;
  kv_commit := Mvcc.commit_key;
  kv_rollback := Mvcc.rollback_key;
  kv_gc := Mvcc.gc;
|}.

(** The split commit of [demo_t2] ([put("a","1")], [put("b","2")],
    started at 1) driven by hand up to [commit_primary]: the primary
    ["a"] is committed at 2, the secondary ["b"] still carries its lock. *)
Definition demo_pivot_pw : result PrewriteResult * Transaction * Mvcc.Store :=
  transaction_prewrite_primary Backoff.no_wait demo_t2 demo_s0 [].
Definition demo_pivot_sec : result unit * Transaction * Mvcc.Store :=
  transaction_prewrite_secondary Backoff.no_wait demo_pivot_pw.1.2 demo_pivot_pw.2 (bs "a") 1.
Definition demo_pivot_cp : result Z * Transaction * Mvcc.Store :=
  transaction_commit_primary demo_pivot_sec.1.2 demo_pivot_sec.2.

(** ** Resolution, lemma by lemma *)

Section ResolveLemmas.
Import Mvcc Resolve.

Lemma view_unblocked s k ts : blocks s k ts = false -> view s k ts = s.
Proof. unfold view. by intros ->. Qed.

(** A version of the primary with the lock's start timestamp decides
    the transaction: committed at that version's timestamp. *)
Lemma primary_status_committed s p ts c mp ws :
  versions_of s p = mkWrite ts c mp :: ws -> primary_status s p ts = TxnCommitted c.
Proof. unfold primary_status. intros ->. simpl. by rewrite bool_decide_true. Qed.

(** A blocking lock whose primary committed at [c]: the read sees the
    lock's mutation exactly when it reads at or after [c]. *)
Lemma read_resolved_committed s k p ts m c r :
  locks s !! k = Some (mkLock p ts (Some m)) -> primary_status s p ts = TxnCommitted c ->
  (ts <= r)%Z ->
  Resolve.read s k r =
    Ok (value_of (if decide (c <= r)%Z then Some m else visible (versions_of s k) r)).
Proof.
  intros Hl Hp Hr. unfold Resolve.read, view, blocks. rewrite Hl, bool_decide_true by done. simpl.
  unfold resolve_key. rewrite Hl, Hp, (commit_key_locked _ _ _ _ _ _ Hl).
  rewrite read_unlocked by (simpl; by rewrite lookup_delete_eq).
  unfold versions_of at 1. simpl. by rewrite lookup_insert_eq.
Qed.

(** A read below a lock's start timestamp is not blocked by it. *)
Lemma read_below_lock s k l r :
  locks s !! k = Some l -> (r < lock_ts l)%Z ->
  Resolve.read s k r = Ok (value_of (visible (versions_of s k) r)).
Proof.
  intros Hl Hr. unfold Resolve.read. rewrite view_unblocked.
  - unfold Mvcc.read, blocks. rewrite Hl, bool_decide_false by lia. done.
  - unfold blocks. rewrite Hl, bool_decide_false by lia. done.
Qed.

Lemma read_no_lock s k r :
  locks s !! k = None -> Resolve.read s k r = Ok (value_of (visible (versions_of s k) r)).
Proof.
  intros Hl. unfold Resolve.read. rewrite view_unblocked by (unfold blocks; by rewrite Hl).
  by apply read_unlocked.
Qed.

(** Without a version of the primary carrying the start timestamp, the
    transaction's own lock on the primary means it is still in doubt. *)
Lemma primary_status_pending s p ts l :
  (forall w, w ∈ versions_of s p -> write_start w <> ts) ->
  locks s !! p = Some l -> lock_ts l = ts -> primary_status s p ts = TxnPending.
Proof.
  intros Hw Hl Ht. unfold primary_status.
  destruct (List.find _ _) as [w|] eqn:E.
  - apply find_some in E as [Hin Hf%bool_decide_eq_true]. exfalso.
    apply (Hw w); [by apply list_elem_of_In|done].
  - rewrite Hl. by rewrite decide_True.
Qed.

(** A lock whose primary is in doubt blocks every read at or after its
    start timestamp; a read below it reads the committed versions. *)
Lemma read_pending s k p ts m l r :
  locks s !! k = Some (mkLock p ts (Some m)) -> locks s !! p = Some l -> lock_ts l = ts ->
  (forall w, w ∈ versions_of s p -> write_start w <> ts) ->
  Resolve.read s k r =
    if decide (ts <= r)%Z then Err LockConflict else Ok (value_of (visible (versions_of s k) r)).
Proof.
  intros Hk Hl Ht Hw. case_decide as Hr.
  - unfold Resolve.read, view, blocks. rewrite Hk, bool_decide_true by done. simpl.
    unfold resolve_key. rewrite Hk, (primary_status_pending s p ts l) by done.
    unfold Mvcc.read, blocks. rewrite Hk, bool_decide_true by done. done.
  - by apply (read_below_lock _ k (mkLock p ts (Some m))); [|simpl; lia].
Qed.

(** The store [commit_primary] leaves: the primary's version at [c],
    each secondary still locked.  A read at [r] sees the transaction's
    write on every one of its keys exactly when [c <= r]. *)
Lemma read_after_commit_primary s p ts mp c k m r :
  locks s !! p = Some (mkLock p ts (Some mp)) ->
  (k <> p -> locks s !! k = Some (mkLock p ts (Some m))) -> (k = p -> m = mp) -> (ts < c)%Z ->
  Resolve.read (mkStore (<[p := mkWrite ts c mp :: versions_of s p]> (versions s))
                        (delete p (locks s)) (safepoint s) c) k r =
    Ok (value_of (if decide (c <= r)%Z then Some m else visible (versions_of s k) r)).
Proof.
  intros Hp Hk Hm Hc. set (s3 := mkStore _ _ _ _).
  destruct (decide (k = p)) as [->|Hne].
  - rewrite (Hm eq_refl), read_no_lock by (simpl; by rewrite lookup_delete_eq).
    unfold versions_of at 1. simpl. by rewrite lookup_insert_eq.
  - assert (Elk : locks s3 !! k = Some (mkLock p ts (Some m)))
      by (simpl; rewrite lookup_delete_ne by congruence; by apply Hk).
    assert (Hvk : versions_of s3 k = versions_of s k)
      by (unfold versions_of at 1; simpl; by rewrite lookup_insert_ne by congruence).
    destruct (decide (ts <= r)%Z) as [Hr|Hr].
    + rewrite (read_resolved_committed _ k p ts m c r Elk); [by rewrite Hvk| |done].
      apply (primary_status_committed _ _ _ _ mp (versions_of s p)).
      unfold versions_of at 1. simpl. by rewrite lookup_insert_eq.
    + rewrite (read_below_lock _ k _ r Elk) by (simpl; lia). rewrite Hvk, decide_False by lia. done.
Qed.

(** Resolution only changes what blocks: every read or scan that
    succeeds on [Mvcc] returns the same on the resolving backend. *)
Lemma read_conservative s k ts v : Mvcc.read s k ts = Ok v -> Resolve.read s k ts = Ok v.
Proof.
  unfold Resolve.read, Mvcc.read. destruct (blocks s k ts) eqn:E; [intros [=]|].
  rewrite view_unblocked, E by exact E. done.
Qed.

Lemma scan_conservative s r ts kvs : Mvcc.scan s r ts = Ok kvs -> Resolve.scan s r ts = Ok kvs.
Proof.
  unfold Resolve.scan, Mvcc.scan. set (ks := filter _ _).
  destruct (existsb (fun k => blocks s k ts) ks) eqn:E; [intros [=]|].
  assert (Hv : forall k, k ∈ ks -> view s k ts = s).
  { intros k Hk. apply view_unblocked. exact (existsb_false_elem _ _ _ E Hk). }
  rewrite (existsb_ext_in _ (fun k => blocks s k ts) ks), E by (intros k Hk; by rewrite Hv).
  intros <-. f_equal. apply omap_ext_in. intros k Hk. by rewrite Hv.
Qed.
End ResolveLemmas.

(** ** The atomicity pivot *)

(** C11. The atomicity pivot of the split commit: for a transaction
    alone on the store, driven through [transaction_prewrite_primary]
    (empty key), [transaction_prewrite_secondary] (with the primary and
    start timestamp returned), [transaction_commit_primary] and
    [transaction_commit_secondary] (with the commit timestamp returned),
    a snapshot whose reads resolve locks reads every written key [k] at
    a timestamp [r] as follows: before [commit_primary], never the
    transaction's write ([LockConflict] from the start timestamp on, the
    old value below it); once [commit_primary] has succeeded, whether
    or not [commit_secondary] has run, the write when [r] is at or after
    the commit timestamp and the old value otherwise: primary and
    secondaries become visible together. *)
Theorem commit_primary_pivot t s pr t1 s1 t2 s2 c t3 s3 k m r :
  Buffer.wf (buffer t) -> (0 <= start_ts t <= Mvcc.tso s)%Z -> (Mvcc.tso s + 1 < u64_modulus)%Z ->
  (forall k' w, w ∈ Mvcc.versions_of s k' -> Mvcc.write_start w <> start_ts t) ->
  transaction_prewrite_primary Backoff.no_wait t s [] = (Ok pr, t1, s1) ->
  transaction_prewrite_secondary Backoff.no_wait t1 s1 (pw_key pr) (pw_version pr) = (Ok tt, t2, s2) ->
  transaction_commit_primary t2 s2 = (Ok c, t3, s3) ->
  Buffer.lookup (buffer t) k = Some m ->
  let before := optional_value_of (Mvcc.value_of (Mvcc.visible (Mvcc.versions_of s k) r)) in
  let after := optional_value_of (Mvcc.value_of
                 (if decide (c <= r)%Z then Some m else Mvcc.visible (Mvcc.versions_of s k) r)) in
  @snapshot_get _ resolving_backend (mkSnapshot r) s2 k =
    (if decide (start_ts t <= r)%Z then Err LockConflict else Ok before) /\
  @snapshot_get _ resolving_backend (mkSnapshot r) s3 k = Ok after /\
  @snapshot_get _ resolving_backend (mkSnapshot r) (transaction_commit_secondary t3 s3 c).2 k = Ok after.
Proof.
  intros Hwf Hts Hu Hfresh H1 H2 H3 Hk before after.
  unfold transaction_prewrite_primary in H1. cbv beta iota zeta in H1.
  apply map_out_inv in H1 as ([[p ts]|e] & H1 & Hr); [|done]. simpl in Hr. injection Hr as ->.
  pose proof (prewrite_primary_Ok _ _ _ _ _ _ _ _ H1) as [-> _].
  unfold transaction_prewrite_secondary in H2. cbn [pw_key pw_version] in H2.
  rewrite version_from_version in H2 by lia.
  destruct (prewrite_phase_seq t s p (start_ts t) t1 s1 t2 s2 Hwf H1 H2) as (_ & -> & Hp & Hv2 & Ht2 & Hl2).
  assert (Hl_all : forall k', k' ∈ Buffer.keys (buffer t) -> exists m',
            Buffer.lookup (buffer t) k' = Some m' /\
            Mvcc.locks s2 !! k' = Some (Mvcc.mkLock p (start_ts t) (Some m'))).
  { intros k' Hk'. destruct (Buffer.lookup_keys_Some _ _ Hk') as [m' Em']. exists m'. by rewrite Hl2, Em'. }
  destruct (Hl_all p Hp) as (mp & Emp & Elp).
  assert (Hvs : forall k', Mvcc.versions_of s2 k' = Mvcc.versions_of s k')
    by (intros k'; unfold Mvcc.versions_of; by rewrite Hv2).
  unfold transaction_commit_primary in H3.
  unfold transaction_commit_secondary. rewrite version_from_version.
  2: { destruct (commit_primary_seq t s2 p _ mp c t3 s3 Elp H3) as (-> & _). lia. }
  destruct (Txn.commit_secondary t3 s3 c) as [[r4 t4] s4] eqn:E4. cbn [snd].
  destruct (commit_phase_seq t s2 p (start_ts t) c t3 s3 r4 t4 s4 Hwf Hl_all Hp H3 E4) as (_ & _ & _ & _ & Hs4).
  destruct (commit_primary_seq t s2 p _ mp c t3 s3 Elp H3) as (Hc & _ & ->).
  assert (Hin : k ∈ Buffer.keys (buffer t)) by (by eapply Buffer.lookup_Some_keys).
  unfold snapshot_get, before, after. cbn [kv_read resolving_backend snap_ts]. split_and!.
  - rewrite (read_pending _ k p (start_ts t) m (Mvcc.mkLock p (start_ts t) (Some mp)) r);
      [|by rewrite Hl2, Hk|done|done|by rewrite Hvs; intros w Hw; apply (Hfresh p)].
    rewrite Hvs. by case_decide.
  - rewrite (read_after_commit_primary s2 p (start_ts t) mp c k m r); [by rewrite Hvs|done| | |lia].
    + intros Hne. by rewrite Hl2, Hk.
    + intros ->. congruence.
  - destruct (Hs4 k) as [Hin4 _]. destruct (Hin4 Hin) as (Hn & m' & Em' & Hv4).
    rewrite Hk in Em'. injection Em' as <-.
    rewrite read_no_lock by done. unfold Mvcc.versions_of at 1. rewrite Hv4, Hvs. done.
Qed.

(** ** Witness *)

Lemma commit_primary_pivot_witness :
  Buffer.wf (buffer demo_t2) /\ (0 <= start_ts demo_t2 <= Mvcc.tso demo_s0)%Z /\
  (Mvcc.tso demo_s0 + 1 < u64_modulus)%Z /\
  (forall k' w, w ∈ Mvcc.versions_of demo_s0 k' -> Mvcc.write_start w <> start_ts demo_t2) /\
  transaction_prewrite_primary Backoff.no_wait demo_t2 demo_s0 [] =
    (Ok (mkPrewriteResult (bs "a") 1), demo_pivot_pw.1.2, demo_pivot_pw.2) /\
  transaction_prewrite_secondary Backoff.no_wait demo_pivot_pw.1.2 demo_pivot_pw.2
    (pw_key (mkPrewriteResult (bs "a") 1)) (pw_version (mkPrewriteResult (bs "a") 1)) =
    (Ok tt, demo_pivot_sec.1.2, demo_pivot_sec.2) /\
  transaction_commit_primary demo_pivot_sec.1.2 demo_pivot_sec.2 =
    (Ok 2%Z, demo_pivot_cp.1.2, demo_pivot_cp.2) /\
  Buffer.lookup (buffer demo_t2) (bs "b") = Some (Put (bs "2")) /\
  (let before := optional_value_of (Mvcc.value_of (Mvcc.visible (Mvcc.versions_of demo_s0 (bs "b")) 2)) in
   let after := optional_value_of (Mvcc.value_of
                  (if decide (2 <= 2)%Z then Some (Put (bs "2"))
                   else Mvcc.visible (Mvcc.versions_of demo_s0 (bs "b")) 2)) in
   @snapshot_get _ resolving_backend (mkSnapshot 2) demo_pivot_sec.2 (bs "b") =
     (if decide (start_ts demo_t2 <= 2)%Z then Err LockConflict else Ok before) /\
   @snapshot_get _ resolving_backend (mkSnapshot 2) demo_pivot_cp.2 (bs "b") = Ok after /\
   @snapshot_get _ resolving_backend (mkSnapshot 2)
     (transaction_commit_secondary demo_pivot_cp.1.2 demo_pivot_cp.2 2).2 (bs "b") = Ok after).
Proof.
  assert (Hts : (0 <= start_ts demo_t2 <= Mvcc.tso demo_s0)%Z) by (simpl; lia).
  assert (Hu : (Mvcc.tso demo_s0 + 1 < u64_modulus)%Z) by (simpl; unfold u64_modulus; lia).
  assert (Hf : forall k' w, w ∈ Mvcc.versions_of demo_s0 k' -> Mvcc.write_start w <> start_ts demo_t2)
    by (intros k' w Hw; unfold Mvcc.versions_of in Hw; simpl in Hw; rewrite lookup_empty in Hw;
        by apply elem_of_nil in Hw).
  assert (H1 : transaction_prewrite_primary Backoff.no_wait demo_t2 demo_s0 [] =
    (Ok (mkPrewriteResult (bs "a") 1), demo_pivot_pw.1.2, demo_pivot_pw.2)) by reflexivity.
  assert (H2 : transaction_prewrite_secondary Backoff.no_wait demo_pivot_pw.1.2 demo_pivot_pw.2
    (pw_key (mkPrewriteResult (bs "a") 1)) (pw_version (mkPrewriteResult (bs "a") 1)) =
    (Ok tt, demo_pivot_sec.1.2, demo_pivot_sec.2)) by reflexivity.
  assert (H3 : transaction_commit_primary demo_pivot_sec.1.2 demo_pivot_sec.2 =
    (Ok 2%Z, demo_pivot_cp.1.2, demo_pivot_cp.2)) by reflexivity.
  assert (Hk : Buffer.lookup (buffer demo_t2) (bs "b") = Some (Put (bs "2"))) by reflexivity.
  split; [exact demo_wf|]. do 7 (split; [assumption|]).
  exact (commit_primary_pivot _ _ _ _ _ _ _ _ _ _ _ _ 2 demo_wf Hts Hu Hf H1 H2 H3 Hk).
Defined.
