(* ===== verification/GC.v ===== *)
(** * Garbage collection keeps every read at or above the safepoint

    [client_gc] (lib.rs 283-286) hands the safepoint to the backend's
    [gc] (specification, section 4.1: "reclaim all versions older than
    safepoint that are no longer needed by any transaction whose start
    timestamp is >= safepoint"; a safepoint that does not advance is
    rejected).  The store of [Mvcc] prunes, per key, every version older
    than the newest one committed at or before the safepoint, except
    those a prewritten lock still in the store may be resolved by (the
    versions carrying the lock's start timestamp, [Mvcc.in_doubt]).

    [agree_from sp s1 s2] says that two stores cannot be told apart by a
    reader at a timestamp at or above [sp]: same locks, same keys, the
    same visible version of every key at every such timestamp, and the
    same status for the primary of every prewritten lock.  A successful
    [gc] at [sp] leaves a store that agrees from [sp] with the one it
    started from, and every read of the bridge (snapshot reads and
    scans, on [Mvcc_backend] and on the [resolving_backend] of
    [Resolve]; transaction reads and scans) gives the same result on
    two stores that agree from a timestamp at or below the reader's. *)

From S2P Require Import Prelude Ffi Buffer Timestamp Backoff Mvcc Transaction Bridge Equiv Resolve.

(** Two stores a reader at or above [sp] cannot tell apart. *)
Definition agree_from (sp : Z) (s1 s2 : Mvcc.Store) : Prop :=
  Mvcc.locks s1 = Mvcc.locks s2 /\
  dom (Mvcc.versions s1) = dom (Mvcc.versions s2) /\
  (forall k ts, (sp <= ts)%Z ->
    Mvcc.visible (Mvcc.versions_of s1 k) ts = Mvcc.visible (Mvcc.versions_of s2 k) ts) /\
  forall k p ts m, Mvcc.locks s1 !! k = Some (Mvcc.mkLock p ts (Some m)) ->
    Resolve.primary_status s1 p ts = Resolve.primary_status s2 p ts.

(** A store where ["a"] was written at 2 and again at 5, before and
    after a [gc] at 4 that drops the older version. *)
Definition demo_gc_store : Mvcc.Store :=
  Mvcc.mkStore {[ bs "a" := [Mvcc.mkWrite 4 5 (Put (bs "2")); Mvcc.mkWrite 1 2 (Put (bs "1"))] ]}
    ∅ 0 5.

(** ** Pruning and agreement *)

Section Agree.
Local Open Scope Z_scope.

#[export] Instance agree_from_equiv sp : Equivalence (agree_from sp).
Proof.
  split.
  - intros s. by split_and!.
  - intros s1 s2 (Hl & Hd & Hv & Hp). split_and!; [done|done| |].
    + intros k ts Hts. by rewrite Hv.
    + intros k p ts m Hk. rewrite <- Hl in Hk. by rewrite (Hp k p ts m Hk).
  - intros s1 s2 s3 (Hl & Hd & Hv & Hp) (Hl' & Hd' & Hv' & Hp'). split_and!; [congruence|congruence| |].
    + intros k ts Hts. by rewrite Hv, Hv'.
    + intros k p ts m Hk. rewrite (Hp k p ts m Hk). apply (Hp' k p ts m). by rewrite <- Hl.
Qed.

(** Pruning at [sp] keeps what every timestamp at or above [sp] sees. *)
Lemma prune_visible needed ws sp ts :
  sp <= ts -> Mvcc.visible (Mvcc.prune needed ws sp) ts = Mvcc.visible ws ts.
Proof.
  intros Hts. induction ws as [|w ws IH]; [done|]. cbn [Mvcc.prune].
  case_decide; rewrite !visible_cons.
  - destruct (decide _); [done|lia].
  - by case_decide; [|rewrite IH].
Qed.

(** Pruning keeps every version a lock in doubt may be resolved by. *)
Lemma find_prune needed ws sp ts :
  needed ts = true ->
  List.find (fun w => bool_decide (Mvcc.write_start w = ts)) (Mvcc.prune needed ws sp) =
  List.find (fun w => bool_decide (Mvcc.write_start w = ts)) ws.
Proof.
  intros Hn. induction ws as [|w ws IH]; [done|]. cbn [Mvcc.prune].
  case_decide; simpl; (case_bool_decide; [done|]); [|done].
  apply find_filter. intros x ->%bool_decide_eq_true. done.
Qed.

Lemma in_doubt_lock s k p ts m :
  Mvcc.locks s !! k = Some (Mvcc.mkLock p ts (Some m)) -> Mvcc.in_doubt s ts = true.
Proof.
  intros Hk. unfold Mvcc.in_doubt. apply existsb_exists. exists (k, Mvcc.mkLock p ts (Some m)).
  split; [by apply list_elem_of_In, elem_of_map_to_list|]. simpl. by rewrite bool_decide_true.
Qed.

(** The store after a [gc]: it agrees with the one before from the
    requested safepoint, and keeps its oracle. *)
Lemma gc_agree s sp :
  agree_from sp s (Mvcc.gc s sp).2 /\ Mvcc.tso (Mvcc.gc s sp).2 = Mvcc.tso s.
Proof.
  unfold Mvcc.gc. case_decide; [|split; [reflexivity|done]]. simpl. split; [|done].
  set (s' := Mvcc.mkStore _ _ _ _).
  assert (Hv : forall k, Mvcc.versions_of s' k = Mvcc.prune (Mvcc.in_doubt s) (Mvcc.versions_of s k) sp).
  { intros k. unfold Mvcc.versions_of. simpl. rewrite lookup_fmap. by destruct (Mvcc.versions s !! k). }
  split_and!; [done| | |].
  - cbn [Mvcc.versions]. symmetry. apply dom_fmap_L.
  - intros k ts Hts. by rewrite Hv, prune_visible.
  - intros k p ts m Hk. unfold Resolve.primary_status. rewrite Hv, find_prune by (eapply in_doubt_lock; exact Hk).
    done.
Qed.

Lemma agree_from_mono sp sp' s1 s2 :
  sp <= sp' -> agree_from sp s1 s2 -> agree_from sp' s1 s2.
Proof. intros Hle (Hl & Hd & Hv & Hp). split_and!; [done|done| |done]. intros k ts Hts. apply Hv. lia. Qed.

Lemma agree_read sp s1 s2 k ts :
  agree_from sp s1 s2 -> sp <= ts -> Mvcc.read s1 k ts = Mvcc.read s2 k ts.
Proof. intros (Hl & Hd & Hv & _) Hts. unfold Mvcc.read, Mvcc.blocks. by rewrite Hl, Hv. Qed.

Lemma agree_scan sp s1 s2 r ts :
  agree_from sp s1 s2 -> sp <= ts -> Mvcc.scan s1 r ts = Mvcc.scan s2 r ts.
Proof.
  intros (Hl & Hd & Hv & _) Hts. unfold Mvcc.scan, Mvcc.all_keys, Mvcc.blocks.
  rewrite Hl, Hd. case_match; [done|]. f_equal.
  apply list_omap_ext, Forall2_same_length_lookup. split; [done|]. intros i k1 k2 ? ?. simplify_eq.
  by rewrite Hv.
Qed.
Lemma versions_of_insert_eq v l sp' t k ws :
  Mvcc.versions_of (Mvcc.mkStore (<[k := ws]> v) l sp' t) k = ws.
Proof. unfold Mvcc.versions_of. simpl. by rewrite lookup_insert_eq. Qed.

(** What a resolving read of [k] sees of the store: the lock and the
    versions of [k] once its blocking lock is resolved.  Two stores that
    agree from [sp] show the same to every reader at or above [sp]. *)
Lemma agree_view sp s1 s2 k ts :
  agree_from sp s1 s2 -> sp <= ts ->
  Mvcc.locks (Resolve.view s1 k ts) !! k = Mvcc.locks (Resolve.view s2 k ts) !! k /\
  Mvcc.visible (Mvcc.versions_of (Resolve.view s1 k ts) k) ts =
  Mvcc.visible (Mvcc.versions_of (Resolve.view s2 k ts) k) ts.
Proof.
  intros (Hl & Hd & Hv & Hp) Hts. unfold Resolve.view, Mvcc.blocks. rewrite Hl.
  destruct (Mvcc.locks s2 !! k) as [[p lts [m|]]|] eqn:E; simpl;
    [|rewrite andb_false_r; by rewrite Hl, Hv|by rewrite Hl, Hv].
  destruct (bool_decide (lts <= ts)); simpl; [|by rewrite Hl, Hv].
  unfold Resolve.resolve_key. rewrite Hl, E, (Hp k p lts m) by (by rewrite Hl).
  destruct (Resolve.primary_status s2 p lts) as [c| |].
  - unfold Mvcc.commit_key. rewrite Hl, E, !decide_True by done. simpl.
    rewrite !lookup_delete_eq. split; [done|].
    rewrite !versions_of_insert_eq, !visible_cons. by rewrite Hv.
  - by rewrite Hl, Hv.
  - rewrite !rollback_key_Ok, Hl, E, !decide_True by done. simpl.
    rewrite !lookup_delete_eq. split; [done|]. by apply Hv.
Qed.

Lemma agree_resolve_read sp s1 s2 k ts :
  agree_from sp s1 s2 -> sp <= ts -> Resolve.read s1 k ts = Resolve.read s2 k ts.
Proof.
  intros Ha Hts. destruct (agree_view sp s1 s2 k ts Ha Hts) as [HL HV].
  unfold Resolve.read, Mvcc.read, Mvcc.blocks. by rewrite HL, HV.
Qed.

Lemma agree_resolve_scan sp s1 s2 r ts :
  agree_from sp s1 s2 -> sp <= ts -> Resolve.scan s1 r ts = Resolve.scan s2 r ts.
Proof.
  intros Ha Hts. pose proof Ha as (Hl & Hd & _ & _).
  unfold Resolve.scan, Mvcc.all_keys. rewrite Hl, Hd.
  set (ks := filter _ _).
  rewrite (existsb_ext_in _ (fun k => Mvcc.blocks (Resolve.view s2 k ts) k ts) ks).
  2: { intros k _. unfold Mvcc.blocks. by rewrite (proj1 (agree_view sp s1 s2 k ts Ha Hts)). }
  case_match; [done|]. f_equal. apply omap_ext_in. intros k _.
  by rewrite (proj2 (agree_view sp s1 s2 k ts Ha Hts)).
Qed.
End Agree.

#[export] Hint Resolve agree_read agree_scan agree_resolve_read agree_resolve_scan : tikv.

(** ** Every read of the bridge agrees *)

Section Reads.
Context (sp : Z) (s1 s2 : Mvcc.Store).
Hypothesis Hagree : agree_from sp s1 s2.

Lemma agree_kv_read k ts : (sp <= ts)%Z -> kv_read s1 k ts = kv_read s2 k ts.
Proof. exact (agree_read sp s1 s2 k ts Hagree). Qed.

Lemma agree_kv_scan r ts : (sp <= ts)%Z -> kv_scan s1 r ts = kv_scan s2 r ts.
Proof. exact (agree_scan sp s1 s2 r ts Hagree). Qed.

Lemma agree_txn_batch_fold t ks :
  (sp <= start_ts t)%Z ->
  (fold_right Txn.batch_step (Ok [], t, s1) ks).1.1 = (fold_right Txn.batch_step (Ok [], t, s2) ks).1.1.
Proof.
  intros Hts. induction ks as [|k ks IH]; [done|]. cbn [fold_right].
  destruct (fold_right Txn.batch_step (Ok [], t, s1) ks) as [[r1 t1] s1'] eqn:E1.
  destruct (fold_right Txn.batch_step (Ok [], t, s2) ks) as [[r2 t2] s2'] eqn:E2.
  apply batch_fold_frame in E1 as [-> ->]. apply batch_fold_frame in E2 as [-> ->].
  simpl in IH. subst r2. unfold Txn.batch_step.
  destruct r1; [|done]. case_match; [done|].
  rewrite agree_kv_read by done. by destruct (kv_read s2 k (start_ts t)).
Qed.
End Reads.

(** Every read of a snapshot agrees, on any backend whose point reads
    and scans at or above [sp] agree on the two stores. *)
Section SnapshotReads.
Context (B : Backend Mvcc.Store) (sp : Z) (s1 s2 : Mvcc.Store).
Hypothesis Hread : forall k ts, (sp <= ts)%Z -> @kv_read _ B s1 k ts = @kv_read _ B s2 k ts.
Hypothesis Hscan : forall r ts, (sp <= ts)%Z -> @kv_scan _ B s1 r ts = @kv_scan _ B s2 r ts.

Lemma agree_snapshot_call sn c :
  (sp <= snap_ts sn)%Z -> @snapshot_call _ B c sn s1 = @snapshot_call _ B c sn s2.
Proof.
  intros Hts. destruct c as [k|ks|a sb e eb l|a sb e eb l]; cbn [snapshot_call]; f_equal.
  - unfold snapshot_get. by rewrite Hread.
  - unfold snapshot_batch_get. generalize (remove_dups ks) as l.
    induction l as [|k l IH]; [done|]. cbn [fold_right]. by rewrite IH, Hread.
  - unfold snapshot_scan. destruct (to_bound_range a sb e eb) as [rg|]; [|done]. simpl. by rewrite Hscan.
  - unfold snapshot_scan_keys. destruct (to_bound_range a sb e eb) as [rg|]; [|done]. simpl. by rewrite Hscan.
Qed.
End SnapshotReads.

(** ** [client_gc] *)

Section ClientGc.
Local Open Scope Z_scope.

(** The bridge's [client_gc] is the backend's [gc] at the safepoint it
    was given: the [u64] survives its trip through [Timestamp]. *)
Lemma client_gc_eq s sp :
  0 <= sp < u64_modulus ->
  client_gc s sp = (Ok (Mvcc.gc s sp).1, (Mvcc.gc s sp).2).
Proof.
  intros Hsp. unfold client_gc. rewrite version_from_version by done.
  cbn [kv_gc Mvcc_backend]. by destruct (Mvcc.gc s sp).
Qed.

Lemma client_gc_agree s sp r s' :
  0 <= sp < u64_modulus -> client_gc s sp = (r, s') -> agree_from sp s' s.
Proof.
  intros Hsp Hgc. rewrite client_gc_eq in Hgc by done. injection Hgc as <- <-.
  symmetry. apply gc_agree.
Qed.

(** C24. [client_gc] reports whether the safepoint advanced, and moves
    it only forward: the answer is [true] exactly when the requested
    safepoint is above the store's, the store's safepoint becomes the
    larger of the two, and the locks and the timestamp oracle are left
    as they were. *)
Theorem client_gc_monotone s sp r s' :
  0 <= sp < u64_modulus -> client_gc s sp = (r, s') ->
  r = Ok (bool_decide (Mvcc.safepoint s < sp)) /\
  Mvcc.safepoint s' = Z.max (Mvcc.safepoint s) sp /\
  Mvcc.locks s' = Mvcc.locks s /\ Mvcc.tso s' = Mvcc.tso s.
Proof.
  intros Hsp Hgc. rewrite client_gc_eq in Hgc by done. injection Hgc as <- <-.
  unfold Mvcc.gc. case_decide; simpl.
  - rewrite bool_decide_true by done. split_and!; [done|lia|done|done].
  - rewrite bool_decide_false by done. split_and!; [done|lia|done|done].
Qed.

(** C13. GC never changes what a snapshot at or above the safepoint
    sees: after [client_gc s sp], accepted or not, every read C++ can
    make on a snapshot whose timestamp is at or above [sp]
    ([snapshot_get], [snapshot_batch_get], [snapshot_scan],
    [snapshot_scan_keys]) returns exactly what it returned before,
    whether the snapshot's reads fail on the locks they meet or resolve
    them by consulting their primaries: GC keeps every version a lock
    in doubt may need. *)
Theorem client_gc_preserves_snapshot_reads s sp r s' sn c :
  0 <= sp < u64_modulus -> client_gc s sp = (r, s') -> sp <= snap_ts sn ->
  snapshot_call c sn s' = snapshot_call c sn s /\
  @snapshot_call _ resolving_backend c sn s' = @snapshot_call _ resolving_backend c sn s.
Proof.
  intros Hsp Hgc Hts. pose proof (client_gc_agree s sp r s' Hsp Hgc) as Ha. split.
  - exact (agree_snapshot_call Mvcc_backend sp s' s (fun k ts => agree_read sp s' s k ts Ha)
             (fun rg ts => agree_scan sp s' s rg ts Ha) sn c Hts).
  - exact (agree_snapshot_call resolving_backend sp s' s (fun k ts => agree_resolve_read sp s' s k ts Ha)
             (fun rg ts => agree_resolve_scan sp s' s rg ts Ha) sn c Hts).
Qed.

(** C23. GC never changes what a transaction that started at or above
    the safepoint reads: after [client_gc s sp], [transaction_get],
    [transaction_batch_get] and [transaction_scan] of such a transaction
    return what they returned before. *)
Theorem client_gc_preserves_txn_reads s sp r s' t :
  0 <= sp < u64_modulus -> client_gc s sp = (r, s') -> sp <= start_ts t ->
  (forall k, (transaction_get t s' k).1.1 = (transaction_get t s k).1.1) /\
  (forall ks, (transaction_batch_get t s' ks).1.1 = (transaction_batch_get t s ks).1.1) /\
  (forall a sb e eb l,
     (transaction_scan t s' a sb e eb l).1.1 = (transaction_scan t s a sb e eb l).1.1).
Proof.
  intros Hsp Hgc Hts. pose proof (client_gc_agree s sp r s' Hsp Hgc) as Ha.
  unfold transaction_get, transaction_batch_get, transaction_scan, map_out,
    Txn.get, Txn.batch_get, Txn.scan, Txn.guard.
  destruct (Txn.is_active (status t)); [|split_and!; intros; [done|done|by destruct (to_bound_range _ _ _ _)]]. split_and!.
  - intros k. destruct (Buffer.lookup (buffer t) k); [done|]. by rewrite (agree_kv_read sp s' s Ha).
  - intros ks. pose proof (agree_txn_batch_fold sp s' s Ha t (remove_dups ks) Hts) as Hf.
    destruct (fold_right _ (Ok [], t, s') _) as [[??]?], (fold_right _ (Ok [], t, s) _) as [[??]?].
    simpl in *. by subst.
  - intros a sb e eb l. destruct (to_bound_range a sb e eb) as [rg|]; [|done].
    rewrite (agree_kv_scan sp s' s Ha) by done. by destruct (kv_scan s rg (start_ts t)).
Qed.
End ClientGc.

(** ** Witnesses *)

Definition demo_gc_txn : Transaction := Txn.new Optimistic 4 default_lock_backoff.

Lemma client_gc_monotone_witness :
  (0 <= 4 < u64_modulus)%Z /\
  client_gc demo_gc_store 4 = ((client_gc demo_gc_store 4).1, (client_gc demo_gc_store 4).2) /\
  (client_gc demo_gc_store 4).1 = Ok (bool_decide (Mvcc.safepoint demo_gc_store < 4)%Z) /\
  Mvcc.safepoint (client_gc demo_gc_store 4).2 = Z.max (Mvcc.safepoint demo_gc_store) 4 /\
  Mvcc.locks (client_gc demo_gc_store 4).2 = Mvcc.locks demo_gc_store /\
  Mvcc.tso (client_gc demo_gc_store 4).2 = Mvcc.tso demo_gc_store.
Proof.
  assert (Hsp : (0 <= 4 < u64_modulus)%Z) by (unfold u64_modulus; lia).
  split; [exact Hsp|]. split; [reflexivity|].
  exact (client_gc_monotone demo_gc_store 4 _ _ Hsp eq_refl).
Defined.

Lemma client_gc_preserves_snapshot_reads_witness :
  (0 <= 4 < u64_modulus)%Z /\
  client_gc demo_gc_store 4 = ((client_gc demo_gc_store 4).1, (client_gc demo_gc_store 4).2) /\
  (4 <= snap_ts (mkSnapshot 4))%Z /\
  snapshot_call (SnGet (bs "a")) (mkSnapshot 4) (client_gc demo_gc_store 4).2 =
    snapshot_call (SnGet (bs "a")) (mkSnapshot 4) demo_gc_store.
Proof.
  assert (Hsp : (0 <= 4 < u64_modulus)%Z) by (unfold u64_modulus; lia).
  split; [exact Hsp|]. split; [reflexivity|]. split; [simpl; lia|].
  exact (proj1 (client_gc_preserves_snapshot_reads demo_gc_store 4 _ _ (mkSnapshot 4) (SnGet (bs "a"))
                  Hsp eq_refl ltac:(simpl; lia))).
Defined.

Lemma client_gc_preserves_txn_reads_witness :
  (0 <= 4 < u64_modulus)%Z /\
  client_gc demo_gc_store 4 = ((client_gc demo_gc_store 4).1, (client_gc demo_gc_store 4).2) /\
  (4 <= start_ts demo_gc_txn)%Z /\
  (transaction_get demo_gc_txn (client_gc demo_gc_store 4).2 (bs "a")).1.1 =
    (transaction_get demo_gc_txn demo_gc_store (bs "a")).1.1.
Proof.
  assert (Hsp : (0 <= 4 < u64_modulus)%Z) by (unfold u64_modulus; lia).
  split; [exact Hsp|]. split; [reflexivity|]. split; [simpl; lia|].
  exact (proj1 (client_gc_preserves_txn_reads demo_gc_store 4 _ _ demo_gc_txn
                  Hsp eq_refl ltac:(simpl; lia)) (bs "a")).
Defined.
