(* ===== verification/Wf.v ===== *)
(** * The well-formedness of a transaction

    Section 3 of the specification: the transaction mode is "fixed at
    creation, immutable for the transaction's lifetime", the start
    timestamp fixes the transaction's reads, and the mutation buffer is
    a mapping from keys (one entry per key); section 4.2: the status
    follows the two-phase commit.  A transaction's type ([same_type])
    is its mode, start timestamp and lock back-off (the options of its
    [begin]); it is well formed ([txn_wf]) when its buffer has one entry
    per key and its status agrees with the primary, lock start and
    commit timestamp the protocol records ([status_ok]).  Every step of
    the engine ([Txn.exec]) and every call of the bridge
    ([bridge_call]) keeps both, whatever its result. *)

From S2P Require Import Prelude Ffi Buffer Timestamp Backoff Mvcc Transaction Bridge.

(** The type a transaction is given by its [begin]. *)
Definition same_type (t t' : Transaction) : Prop :=
  txn_mode t' = txn_mode t /\ start_ts t' = start_ts t /\ lock_backoff t' = lock_backoff t.

(** What the status says of the fields the split commit records: before
    a prewrite no primary, no commit timestamp, and locks that would
    carry the start timestamp; once prewritten a primary; once the
    primary is committed a commit timestamp too; once rolled back an
    empty buffer. *)
Definition status_ok (t : Transaction) : Prop :=
  match status t with
  | Active => primary t = None /\ commit_ts t = None /\ lock_start t = start_ts t
  | Prewriting => primary t <> None /\ commit_ts t = None
  | Committing => primary t <> None /\ commit_ts t <> None
  | RolledBack => buffer t = []
  | Committed | Failed => True
  end.

(** A well-formed transaction: one buffer entry per key, fields as its
    status says, and a commit timestamp only with a primary. *)
Definition txn_wf (t : Transaction) : Prop :=
  Buffer.wf (buffer t) /\ status_ok t /\ (commit_ts t <> None -> primary t <> None).

(** Calls on [demo_t2]: a put, a lock, a delete, and the commit. *)
Definition demo_wf_calls : list Call :=
  [CPut (bs "a") (bs "1"); CGetForUpdate (bs "b"); CDelete (bs "b"); CCommit].

#[export] Instance same_type_preorder : PreOrder same_type.
Proof.
  split; [intros t; by split_and!|].
  intros t1 t2 t3 (? & ? & ?) (? & ? & ?). split_and!; congruence.
Qed.

(** The cases of one step of the engine: every operation unfolded
    down to the backend calls, split on their results. *)
Ltac exec_cases Hx :=
  unfold Txn.exec, Txn.drop, Txn.commit, Txn.get_for_update, Txn.get, Txn.batch_get,
    Txn.scan_keys, Txn.scan, Txn.put, Txn.delete, Txn.prewrite_primary, Txn.prewrite_secondary,
    Txn.commit_primary, Txn.commit_secondary, Txn.rollback, Txn.guard in Hx;
  repeat first [ progress simplify_eq
               | match goal with H : fold_right _ _ _ = _ |- _ =>
                   apply batch_fold_frame in H as [-> ->] end
               | case_match ].

(** ** Every step keeps the type *)

Section Steps.
Context {S : Type} `{Backend S}.
Variable wait : Z -> S -> S.

Lemma wf_nil : Buffer.wf [].
Proof. constructor. Qed.

#[local] Hint Resolve wf_nil Buffer.insert_wf : core.

Lemma exec_same_type o t s b t' s' :
  Txn.exec wait o t s = (b, t', s') -> same_type t t'.
Proof. intros Hx. destruct o; exec_cases Hx; first [reflexivity | split_and!; reflexivity]. Qed.

(** Guards read as propositions on the status. *)
Ltac status_facts :=
  repeat match goal with
  | H : Txn.is_active _ = _ |- _ => unfold Txn.is_active in H
  | H : bool_decide _ = true |- _ => apply bool_decide_eq_true_1 in H
  | H : bool_decide _ = false |- _ => apply bool_decide_eq_false_1 in H
  end.

Lemma exec_wf o t s b t' s' :
  txn_wf t -> Txn.exec wait o t s = (b, t', s') -> same_type t t' /\ txn_wf t'.
Proof.
  intros Hwf Hx. split; [by eapply exec_same_type|]. destruct Hwf as (Hb & Hok & Hcp).
  unfold txn_wf, status_ok in *.
  destruct o; exec_cases Hx; status_facts;
    cbn [buffer status primary commit_ts lock_start start_ts
         Txn.set_buffer Txn.set_status Txn.set_locked Txn.set_prewritten Txn.set_committing] in *;
    unfold Buffer.put, Buffer.delete;
    try match goal with E : buffer _ = _ |- _ => rewrite E end.
  all: split_and!; try done; try congruence; try by apply Buffer.insert_wf.
  all: naive_solver.
Qed.

End Steps.

(** ** Every run of bridge calls keeps the type *)

Section Runs.
Context {S : Type} `{Backend S}.

Lemma bridge_call_wf (wait : Z -> S -> S) c t s b t' s' :
  txn_wf t -> bridge_call wait c t s = (b, t', s') -> same_type t t' /\ txn_wf t'.
Proof.
  intros Hwf Hc. apply bridge_call_exec in Hc as [[= -> ->]|(o & b' & Hx)].
  - split; [by split_and!|done].
  - exact (exec_wf wait o t s b' t' s' Hwf Hx).
Qed.

End Runs.

(** ** Witness *)

