(* ===== verification/Progress.v ===== *)
(** * Progress: an unhindered commit succeeds

    The safety theorems say what a commit leaves when it succeeds; this
    file shows that it does succeed when nothing stands in its way: a
    transaction alone on the in-memory store ([Backoff.no_wait]), whose
    written keys carry no lock of another transaction and no version
    committed since its start, commits through [transaction_commit]
    (lib.rs 424-427), prewrite, primary and secondary commits included,
    and ends [Committed]. *)

From S2P Require Import Prelude Ffi Buffer Timestamp Backoff Mvcc Transaction Bridge.

(** A key a transaction started at [ts] can prewrite: no lock but its
    own, and, when unlocked, no version committed at or after [ts]. *)
Definition free_for (s : Mvcc.Store) (ts : Z) (k : bytes) : Prop :=
  match Mvcc.locks s !! k with
  | Some l => Mvcc.lock_ts l = ts
  | None => Mvcc.write_conflict s k ts = false
  end.

(** An optimistic transaction started at 3 that writes ["a"] and
    ["b"], on the store [demo_t2]'s commit left (both committed at 2). *)
Definition demo_free_txn : Transaction :=
  Txn.set_buffer (Txn.new Optimistic 3 (Backoff.no_jitter_backoff 2 500 3))
    (Buffer.put (Buffer.delete [] (bs "a")) (bs "b") (bs "9")).

Section Progress.

Lemma prewrite_free s k m p ts :
  free_for s ts k ->
  Mvcc.prewrite s k m p ts = Ok (Mvcc.with_locks s (<[k := Mvcc.mkLock p ts (Some m)]> (Mvcc.locks s))).
Proof.
  unfold free_for, Mvcc.prewrite. destruct (Mvcc.locks s !! k); intros Hf; [by rewrite decide_True|].
  by rewrite Hf.
Qed.

(** Locking one key leaves every other key as free as it was. *)
Lemma free_for_insert s k k' l ts :
  k' <> k -> free_for s ts k' ->
  free_for (Mvcc.with_locks s (<[k := l]> (Mvcc.locks s))) ts k'.
Proof.
  unfold free_for, Mvcc.write_conflict, Mvcc.versions_of. simpl.
  intros Hne. by rewrite lookup_insert_ne by congruence.
Qed.

Lemma prewrite_all_free t s muts p ts :
  Buffer.wf muts -> Forall (free_for s ts) (Buffer.keys muts) ->
  exists s', Txn.prewrite_all Backoff.no_wait t s muts p ts = (Ok tt, s').
Proof.
  revert s. induction muts as [|[k m] muts IH]; intros s Hwf Hf; simpl; [eauto|].
  unfold Buffer.wf, Buffer.keys in Hwf, Hf. simpl in Hwf, Hf.
  apply NoDup_cons in Hwf as [Hn Hwf]. apply Forall_cons in Hf as [Hk Hf].
  rewrite prewrite_retry_seq, prewrite_free by done. apply IH; [done|].
  apply Forall_forall. intros k' Hk'. apply free_for_insert; [by intros ->|].
  by eapply Forall_forall in Hf.
Qed.

Lemma commit_primary_locked t s p m :
  status t = Prewriting -> primary t = Some p ->
  Mvcc.locks s !! p = Some (Mvcc.mkLock p (lock_start t) (Some m)) ->
  exists s', Txn.commit_primary t s = (Ok (Mvcc.tso s + 1)%Z, Txn.set_committing t (Mvcc.tso s + 1), s').
Proof.
  intros Hs Hp Hl. unfold Txn.commit_primary, Txn.guard. rewrite Hs, bool_decide_true by done.
  rewrite Hp. cbn [kv_fetch_ts kv_commit Mvcc_backend]. unfold Mvcc.fetch_ts.
  rewrite (commit_key_locked _ _ p (lock_start t) m) by done. eauto.
Qed.

Lemma prewrite_primary_free t s k0 m0 b :
  status t = Active -> buffer t = (k0, m0) :: b -> free_for s (start_ts t) k0 ->
  Txn.prewrite_primary Backoff.no_wait t s None =
    (Ok (k0, start_ts t), Txn.set_prewritten t k0 (start_ts t),
     Mvcc.with_locks s (<[k0 := Mvcc.mkLock k0 (start_ts t) (Some m0)]> (Mvcc.locks s))).
Proof.
  intros Ha Eb Hf. unfold Txn.prewrite_primary, Txn.guard, Txn.is_active.
  rewrite Ha, bool_decide_true by done. unfold Buffer.first_key, Buffer.keys. rewrite Eb. simpl.
  rewrite decide_True by done. by rewrite prewrite_retry_seq, prewrite_free.
Qed.

(** C12. An unhindered commit succeeds: a transaction alone on the
    store, [Active], whose written keys each carry no lock but its own
    and, when unlocked, no version committed since its start, commits:
    [transaction_commit] returns [Ok] and leaves it [Committed]. *)
Theorem bridge_commit_progress t (s : Mvcc.Store) :
  status t = Active -> Buffer.wf (buffer t) ->
  Forall (free_for s (start_ts t)) (Buffer.keys (buffer t)) ->
  exists t' s', transaction_commit Backoff.no_wait t s = (Ok tt, t', s') /\ status t' = Committed.
Proof.
  intros Ha Hwf Hf. unfold transaction_commit, map_out, Txn.commit, Txn.guard, Txn.is_active.
  rewrite Ha, bool_decide_true by done.
  destruct (buffer t) as [|[k0 m0] b] eqn:Eb; [by eexists _, _|].
  unfold Buffer.keys in Hf. simpl in Hf. apply Forall_cons in Hf as [Hf0 Hf].
  pose proof (prewrite_primary_free t s k0 m0 b Ha Eb Hf0) as E1. rewrite E1.
  set (s1 := Mvcc.with_locks s _).
  set (t1 := Txn.set_prewritten t k0 (start_ts t)).
  assert (E2' : exists s2, Txn.prewrite_secondary Backoff.no_wait t1 s1 k0 (start_ts t) =
                (Ok tt, Txn.set_prewritten t1 k0 (start_ts t), s2)).
  { unfold Txn.prewrite_secondary, Txn.guard. rewrite bool_decide_true by (simpl; by right).
    replace (buffer t1) with (buffer t) by done. rewrite Eb.
    match goal with |- context [Txn.prewrite_all _ _ _ ?muts _ _] =>
      destruct (prewrite_all_free t1 s1 muts k0 (start_ts t)) as [s2 ->] end.
    { by apply Buffer.wf_filter. }
    { apply Forall_forall. intros k (km & -> & Hkm)%list_elem_of_fmap.
      apply list_elem_of_filter in Hkm as [Hne Hkm]. apply free_for_insert; [done|].
      eapply Forall_forall in Hf; [exact Hf|]. apply elem_of_cons in Hkm as [->|Hkm]; [done|].
      by apply list_elem_of_fmap_2. }
    by eexists. }
  destruct E2' as [s2 E2'].
  rewrite E2'.
  destruct (prewrite_phase_seq t s k0 (start_ts t) _ _ _ _ ltac:(by rewrite Eb) E1 E2')
    as (_ & Ht2 & _ & _ & _ & Hl2).
  rewrite Ht2.
  destruct (commit_primary_locked t1 s2 k0 m0) as [s3 E3]; [done|done| |].
  { cbn [t1 Txn.set_prewritten lock_start]. rewrite Hl2, Eb. simpl. by rewrite decide_True. }
  change (Txn.set_prewritten t k0 (start_ts t)) with t1. rewrite E3. unfold Txn.commit_secondary, Txn.guard. cbn [t1 Txn.set_committing Txn.set_prewritten status].
  rewrite bool_decide_true by (by right).
  destruct (Txn.commit_all _ _ _ _) as [r s4]. by eexists _, _.
Qed.
End Progress.

(** ** Witness *)

Lemma bridge_commit_progress_witness :
  status demo_free_txn = Active /\ Buffer.wf (buffer demo_free_txn) /\
  Forall (free_for demo_commit.2 (start_ts demo_free_txn)) (Buffer.keys (buffer demo_free_txn)) /\
  exists t' s', transaction_commit Backoff.no_wait demo_free_txn demo_commit.2 = (Ok tt, t', s') /\
                status t' = Committed.
Proof.
  assert (Ha : status demo_free_txn = Active) by reflexivity.
  assert (Hwf : Buffer.wf (buffer demo_free_txn)) by (vm_compute; repeat constructor; set_solver).
  assert (Hf : Forall (free_for demo_commit.2 (start_ts demo_free_txn)) (Buffer.keys (buffer demo_free_txn)))
    by (vm_compute; repeat constructor).
  split; [exact Ha|]. split; [exact Hwf|]. split; [exact Hf|].
  exact (bridge_commit_progress demo_free_txn demo_commit.2 Ha Hwf Hf).
Defined.
