(* ===== verification/Oracle.v ===== *)
(** * The timestamp oracle: its contract and what the client gets from it

    Section 2 of the specification: the TimestampSource "supplies
    globally comparable, strictly increasing timestamps on demand", and
    section 4.2: the commit timestamp is "fetched ... (>= start
    timestamp)".  [OracleLaws] states what the bridge relies on from
    the backend's oracle: [kv_last] is the last timestamp issued; a
    fetch issues one above it and records it; no other operation of
    the backend moves it back.  [Mvcc_oracle] discharges the laws for
    the in-memory store.

    Against the interface, for any backend and whatever other clients
    do while a prewrite sleeps (as long as they do not move the oracle
    back): every call of the bridge on a transaction keeps the oracle
    at or above the transaction's start timestamp, so the commit
    timestamp [transaction_commit_primary] returns is above the start
    timestamp, and a transaction begun later starts later. *)

From S2P Require Import Prelude Ffi Buffer Timestamp Backoff Mvcc Transaction Bridge Wf.

Class OracleLaws (S : Type) `{Backend S} := {
  kv_last : S -> Z;
  fetch_fresh s : (kv_last s < (kv_fetch_ts s).1)%Z /\ kv_last (kv_fetch_ts s).2 = (kv_fetch_ts s).1;
  lock_last s k p ts s' : kv_lock s k p ts = Ok s' -> (kv_last s <= kv_last s')%Z;
  prewrite_last s k m p ts s' : kv_prewrite s k m p ts = Ok s' -> (kv_last s <= kv_last s')%Z;
  commit_last s k ts c s' : kv_commit s k ts c = Ok s' -> (kv_last s <= kv_last s')%Z;
  rollback_last s k ts s' : kv_rollback s k ts = Ok s' -> (kv_last s <= kv_last s')%Z;
  gc_last s sp : (kv_last s <= kv_last (kv_gc s sp).2)%Z;
}.

(** The in-memory store's oracle: [tso] is the last timestamp issued. *)
#[export] Instance Mvcc_oracle : OracleLaws Mvcc.Store.
Proof.
  refine {| kv_last := Mvcc.tso |}; cbn [kv_fetch_ts kv_lock kv_prewrite kv_commit kv_rollback kv_gc Mvcc_backend].
  - intros s. simpl. lia.
  - intros s k p ts s'. unfold Mvcc.lock_key. repeat case_match; intros; simplify_eq; simpl; lia.
  - intros s k m p ts s' ->%prewrite_Ok. simpl. lia.
  - intros s k ts c s'. unfold Mvcc.commit_key. repeat case_match; intros; simplify_eq; simpl; lia.
  - intros s k ts s'. rewrite rollback_key_Ok. intros [= <-]. repeat case_match; simpl; lia.
  - intros s sp. unfold Mvcc.gc. case_match; simpl; lia.
Qed.

(** ** No call moves the oracle back *)

Section Mono.
Context {S : Type} `{OracleLaws S}.
Variable wait : Z -> S -> S.
(** What other clients do during a back-off never moves the oracle
    back. *)
Hypothesis wait_mono : forall d x, (kv_last x <= kv_last (wait d x))%Z.

Lemma retry_lock_mono {A} (attempt : S -> result (A * S)) fuel b s r b' s' :
  (forall x a y, attempt x = Ok (a, y) -> (kv_last x <= kv_last y)%Z) ->
  Backoff.retry_lock wait attempt fuel b s = (r, b', s') ->
  (kv_last s <= kv_last s')%Z /\ forall a s1, r = Ok (a, s1) -> (kv_last s <= kv_last s1)%Z.
Proof.
  intros Ha. revert b s. induction fuel as [|f IH]; intros b s; simpl;
    destruct (attempt s) as [[a y]|[]] eqn:E; intros Hr;
    try (destruct (Backoff.next_delay_duration b) as [[d|] b0]); simplify_eq;
    try (split; [lia|intros ? ? [= <- <-]; by eapply Ha]);
    try (split; [lia|done]).
  destruct (IH _ _ Hr) as [H1 H2]. pose proof (wait_mono d s).
  split; [lia|]. intros a1 s1 Hs. specialize (H2 a1 s1 Hs). lia.
Qed.

Lemma prewrite_retry_mono t s k m p ts r s' :
  Txn.prewrite_retry wait t s k m p ts = (r, s') -> (kv_last s <= kv_last s')%Z.
Proof.
  unfold Txn.prewrite_retry.
  destruct (Backoff.retry_lock _ _ _ _ _) as [[r0 b0] s0] eqn:E.
  apply retry_lock_mono in E as [H1 H2].
  - destruct r0 as [[[] s1]|e]; intros; simplify_eq; [by eapply H2|done].
  - intros x [] y. destruct (kv_prewrite x k m p ts) eqn:Ep; simpl; intros; simplify_eq.
    by eapply prewrite_last.
Qed.

Lemma prewrite_all_mono t s muts p ts r s' :
  Txn.prewrite_all wait t s muts p ts = (r, s') -> (kv_last s <= kv_last s')%Z.
Proof.
  revert s. induction muts as [|[k m] muts IH]; intros s; simpl; [intros; simplify_eq; lia|].
  destruct (Txn.prewrite_retry wait t s k m p ts) as [[[]|e] s1] eqn:E;
    apply prewrite_retry_mono in E; intros Hr; [apply IH in Hr|simplify_eq]; lia.
Qed.

Lemma commit_all_mono s ks ts c r s' :
  Txn.commit_all s ks ts c = (r, s') -> (kv_last s <= kv_last s')%Z.
Proof.
  revert s. induction ks as [|k ks IH]; intros s; simpl; [intros; simplify_eq; lia|].
  destruct (kv_commit s k ts c) as [s1|e] eqn:E; intros Hr; [|simplify_eq; lia].
  apply commit_last in E. apply IH in Hr. lia.
Qed.

Lemma rollback_all_mono s ks ts r s' :
  Txn.rollback_all s ks ts = (r, s') -> (kv_last s <= kv_last s')%Z.
Proof.
  revert s. induction ks as [|k ks IH]; intros s; simpl; [intros; simplify_eq; lia|].
  destruct (kv_rollback s k ts) as [s1|e] eqn:E; intros Hr; [|simplify_eq; lia].
  apply rollback_last in E. apply IH in Hr. lia.
Qed.

Lemma release_locks_mono t s : (kv_last s <= kv_last (Txn.release_locks t s))%Z.
Proof.
  unfold Txn.release_locks. destruct (Txn.rollback_all _ _ _) as [r s'] eqn:E.
  by apply rollback_all_mono in E.
Qed.

(** Turn every step a state went through into the inequality the laws
    give for it. *)
Ltac mono_hyps :=
  repeat match goal with
  | E : Txn.prewrite_retry _ _ _ _ _ _ _ = (_, _) |- _ => apply prewrite_retry_mono in E
  | E : Txn.prewrite_all _ _ _ _ _ _ = (_, _) |- _ => apply prewrite_all_mono in E
  | E : Txn.commit_all _ _ _ _ = (_, _) |- _ => apply commit_all_mono in E
  | E : Txn.rollback_all _ _ _ = (_, _) |- _ => apply rollback_all_mono in E
  | E : kv_lock _ _ _ _ = Ok _ |- _ => apply lock_last in E
  | E : kv_commit _ _ _ _ = Ok _ |- _ => apply commit_last in E
  | E : kv_fetch_ts ?x = (_, _) |- _ =>
      let F := fresh "F" in pose proof (fetch_fresh x) as F; rewrite E in F; simpl in F; clear E
  | |- context [Txn.release_locks ?t ?x] =>
      let y := fresh "y" in
      pose proof (release_locks_mono t x); set (y := Txn.release_locks t x) in *; clearbody y
  end.

Lemma exec_mono o t s b t' s' :
  Txn.exec wait o t s = (b, t', s') -> (kv_last s <= kv_last s')%Z.
Proof.
  intros Hx. destruct o; exec_cases Hx; mono_hyps; lia.
Qed.
End Mono.

(** ** Timestamps the client hands out are ordered *)

Section Ordered.
Context {S : Type} `{OracleLaws S}.

Lemma bridge_run_mono (wait : Z -> S -> S) cs t s :
  (forall d x, (kv_last x <= kv_last (wait d x))%Z) ->
  (kv_last s <= kv_last (bridge_run wait cs t s).2)%Z /\ start_ts (bridge_run wait cs t s).1 = start_ts t.
Proof.
  intros Hw. revert t s. induction cs as [|c cs IH]; intros t s; [simpl; lia|]. cbn [bridge_run].
  destruct (bridge_call wait c t s) as [[b t1] s1] eqn:Hc.
  destruct (IH t1 s1) as [H1 H2]. rewrite H2.
  apply bridge_call_exec in Hc as [[= -> ->]|(o & b' & Hx)]; [done|].
  pose proof (exec_mono wait Hw o t s b' t1 s1 Hx).
  apply exec_same_type in Hx as (_ & Hs & _). split; [lia|congruence].
Qed.

Lemma begin_fetch s0 t0 s1 :
  (transaction_client_begin s0 = (Ok t0, s1) \/ transaction_client_begin_pessimistic s0 = (Ok t0, s1) \/
   exists retry, transaction_client_begin_optimistic_with_option s0 retry = (Ok t0, s1)) ->
  start_ts t0 = (kv_fetch_ts s0).1 /\ s1 = (kv_fetch_ts s0).2.
Proof.
  unfold transaction_client_begin, transaction_client_begin_pessimistic,
    transaction_client_begin_optimistic_with_option.
  destruct (kv_fetch_ts s0) as [ts s']. intros [Hb|[Hb|[r Hb]]]; by simplify_eq.
Qed.

Lemma commit_primary_fresh (t : Transaction) (s : S) c t' s' :
  Txn.commit_primary t s = (Ok c, t', s') -> (kv_last s < c)%Z.
Proof.
  unfold Txn.commit_primary, Txn.guard. pose proof (fetch_fresh s) as [Hf _].
  destruct (kv_fetch_ts s) as [c0 s1]. simpl in Hf. repeat case_match; intros; simplify_eq; lia.
Qed.

(** C21. The oracle orders what the client hands out, on any backend
    that satisfies [OracleLaws], whatever other clients do while a
    prewrite sleeps (as long as they do not move the oracle back): after
    a transaction begins (optimistic, pessimistic or with a retry limit)
    and any sequence of bridge calls on it, the commit timestamp
    [transaction_commit_primary] returns is above its start timestamp,
    and a transaction begun afterwards starts above it. *)
Theorem oracle_orders_timestamps (wait : Z -> S -> S) s0 t0 s1 cs :
  (forall d x, (kv_last x <= kv_last (wait d x))%Z) ->
  (transaction_client_begin s0 = (Ok t0, s1) \/ transaction_client_begin_pessimistic s0 = (Ok t0, s1) \/
   exists retry, transaction_client_begin_optimistic_with_option s0 retry = (Ok t0, s1)) ->
  (forall c t' s', transaction_commit_primary (bridge_run wait cs t0 s1).1 (bridge_run wait cs t0 s1).2
                     = (Ok c, t', s') -> (start_ts t0 < c)%Z) /\
  (forall t2 s2, transaction_client_begin (bridge_run wait cs t0 s1).2 = (Ok t2, s2) ->
                 (start_ts t0 < start_ts t2)%Z).
Proof.
  intros Hw Hb. apply begin_fetch in Hb as [Ht0 ->].
  pose proof (fetch_fresh s0) as [_ Hl1]. rewrite <- Ht0 in Hl1.
  destruct (bridge_run_mono wait cs t0 (kv_fetch_ts s0).2 Hw) as [Hm _].
  split.
  - intros c t' s' Hc. apply commit_primary_fresh in Hc. lia.
  - intros t2 s2 Hb2. destruct (begin_fetch _ t2 s2 (or_introl Hb2)) as [Ht2 _].
    pose proof (fetch_fresh (bridge_run wait cs t0 (kv_fetch_ts s0).2).2) as [Hf _]. lia.
Qed.
End Ordered.

(** ** Witness *)

(** A transaction begun on the empty store that writes ["a"] and
    prewrites it as its primary. *)
Lemma oracle_orders_timestamps_witness :
  (forall d (x : Mvcc.Store), (kv_last x <= kv_last (Backoff.no_wait d x))%Z) /\
  transaction_client_begin Mvcc.init =
    (Ok (Txn.new Optimistic 1 default_lock_backoff), Mvcc.mkStore ∅ ∅ 0 1) /\
  (forall c t' s',
     transaction_commit_primary
       (bridge_run Backoff.no_wait [CPut (bs "a") (bs "1"); CPrewritePrimary []]
          (Txn.new Optimistic 1 default_lock_backoff) (Mvcc.mkStore ∅ ∅ 0 1)).1
       (bridge_run Backoff.no_wait [CPut (bs "a") (bs "1"); CPrewritePrimary []]
          (Txn.new Optimistic 1 default_lock_backoff) (Mvcc.mkStore ∅ ∅ 0 1)).2 = (Ok c, t', s') ->
     (start_ts (Txn.new Optimistic 1 default_lock_backoff) < c)%Z).
Proof.
  assert (Hw : forall d (x : Mvcc.Store), (kv_last x <= kv_last (Backoff.no_wait d x))%Z)
    by (intros d x; unfold Backoff.no_wait; lia).
  assert (Hb : transaction_client_begin Mvcc.init =
                 (Ok (Txn.new Optimistic 1 default_lock_backoff), Mvcc.mkStore ∅ ∅ 0 1)) by reflexivity.
  split; [exact Hw|]. split; [exact Hb|].
  exact (proj1 (oracle_orders_timestamps Backoff.no_wait Mvcc.init _ _
                  [CPut (bs "a") (bs "1"); CPrewritePrimary []] Hw (or_introl Hb))).
Defined.
