(* ===== verification/Scan.v ===== *)
(** * Scans: the buffer merged with the backend

    [transaction_scan] (lib.rs 375-392) calls [Transaction::scan], which
    merges the backend's pairs of the range at the start timestamp with
    the buffered writes ([Buffer.merge_scan]); [snapshot_scan]
    (lib.rs 566-583) does the same with no buffer.  This file states what
    a scan must return, as a reference definition ([ScanView.view_scan]:
    every key the store or the buffer knows, in ascending order, kept
    when it is in the range and the reader sees a value for it, cut at
    the limit), and proves that the merge computes exactly that whenever
    no lock blocks the range, and that any successful scan is cut at the
    limit, strictly ascending, inside the range and free of buffered
    deletes (section 8 of the specification). *)

From S2P Require Import Prelude Ffi Buffer Timestamp Backoff Mvcc Transaction Bridge.

Module ScanView.

(** The keys a scan can meet: those of the store's versions and locks
    and those of the buffer, ascending. *)
Definition candidate_keys (b : Buffer) (s : Mvcc.Store) : list bytes :=
  merge_sort key_le (elements (dom (Mvcc.versions s) ∪ dom (Mvcc.locks s) ∪ list_to_set (Buffer.keys b))).

(** The backend's value of [k] at [ts]. *)
Definition backend_value (s : Mvcc.Store) (ts : Z) (k : bytes) : option bytes :=
  Mvcc.value_of (Mvcc.visible (Mvcc.versions_of s k) ts).

(** What a reader with buffer [b] at [ts] sees at [k]. *)
Definition view (b : Buffer) (s : Mvcc.Store) (ts : Z) (k : bytes) : option bytes :=
  Buffer.get_or b k (backend_value s ts k).

(** The reference scan. *)
Definition view_scan (b : Buffer) (s : Mvcc.Store) (ts : Z) (r : BoundRange) (limit : nat)
    : list (bytes * bytes) :=
  take limit (omap (fun k => (fun v => (k, v)) <$> view b s ts k)
                   (filter (fun k => range_contains r k = true) (candidate_keys b s))).

End ScanView.

(** ** A concrete scan, for the witnesses *)

(** After [demo_t2] committed ["a"] and ["b"] at 2: a transaction started
    at 3 that deletes ["a"] and puts ["c"]. *)
Definition demo_scan_store : Mvcc.Store := demo_commit.2.
Definition demo_scan_txn : Transaction :=
  Txn.set_buffer (Txn.new Optimistic 3 (Backoff.no_jitter_backoff 2 500 3))
    (Buffer.put (Buffer.delete [] (bs "a")) (bs "c") (bs "3")).

(** ** Strictly sorted lists *)

Section Sorted.
Context {A : Type}.

Lemma StronglySorted_sublist (R : relation A) l1 l2 :
  l1 `sublist_of` l2 -> StronglySorted R l2 -> StronglySorted R l1.
Proof.
  induction 1 as [|x l1 l2 Hl IH|x l1 l2 _ IH]; intros Hs; [constructor| |];
    apply StronglySorted_inv in Hs as [Hs Hx]; [|by auto].
  constructor; [by auto|]. apply Forall_forall. intros y Hy.
  eapply Forall_forall in Hx; [exact Hx|]. by eapply elem_of_sublist.
Qed.

Lemma StronglySorted_omap {B} (R : relation A) (R' : relation B) (g : A -> option B) l :
  (forall x y x' y', g x = Some x' -> g y = Some y' -> R x y -> R' x' y') ->
  StronglySorted R l -> StronglySorted R' (omap g l).
Proof.
  intros Hg. induction 1 as [|x l _ IH Hx]; simpl; [constructor|].
  destruct (g x) as [x'|] eqn:E; [|done]. constructor; [done|].
  apply Forall_forall. intros y' (y & Hy & Ey)%list_elem_of_omap.
  eapply Hg; [done|done|]. by eapply Forall_forall in Hx.
Qed.

Context (f : A -> bytes).

Lemma strict_sorted_NoDup l :
  StronglySorted (fun x y => f x <k f y) l -> NoDup (f <$> l).
Proof.
  induction 1 as [|x l _ IH Hx]; simpl; [constructor|]. constructor; [|done].
  intros (y & Hy & Hin)%list_elem_of_fmap.
  eapply Forall_forall in Hx; [|exact Hin]. rewrite Hy in Hx.
  by apply (irreflexivity key_lt (f y)).
Qed.

Lemma sorted_le_strict l :
  Sorted (fun x y => f x <=k f y) l -> NoDup (f <$> l) -> StronglySorted (fun x y => f x <k f y) l.
Proof.
  intros Hs Hnd. apply Sorted.Sorted_StronglySorted in Hs; [|intros x y z ??; by trans (f y)].
  induction Hs as [|x l _ IH Hx]; [constructor|].
  simpl in Hnd. apply NoDup_cons in Hnd as [Hn Hnd]. constructor; [by auto|].
  apply Forall_forall. intros y Hy. eapply Forall_forall in Hx; [|exact Hy].
  destruct (proj1 (key_le_lt_eq _ _) Hx) as [|Heq]; [done|].
  exfalso. apply Hn, list_elem_of_fmap. eauto.
Qed.
End Sorted.

(** A set of keys, sorted: strictly ascending, the same elements. *)
Lemma sorted_keys_strict (X : gset bytes) : StronglySorted key_lt (merge_sort key_le (elements X)).
Proof.
  apply (sorted_le_strict id).
  - change (Sorted key_le (merge_sort key_le (elements X))). apply Sorted_merge_sort, key_le_total.
  - rewrite list_fmap_id, merge_sort_Permutation. apply NoDup_elements.
Qed.

Lemma elem_of_sorted_keys (X : gset bytes) k : k ∈ merge_sort key_le (elements X) <-> k ∈ X.
Proof. rewrite merge_sort_Permutation. apply elem_of_elements. Qed.

(** ** The store's scan and the merge *)

Section ScanLemmas.
Import ScanView.

(** Pairs sorted strictly by key. *)
Local Abbreviation key_sorted := (StronglySorted (fun p q : bytes * bytes => p.1 <k q.1)).

Lemma backend_value_dom s ts k v : backend_value s ts k = Some v -> k ∈ dom (Mvcc.versions s).
Proof.
  unfold backend_value, Mvcc.versions_of. intros Hv. apply elem_of_dom.
  by destruct (Mvcc.versions s !! k).
Qed.

(** A scan of the store that succeeds returns, strictly ascending, the
    pairs of the range with their value at [ts]. *)
Lemma mvcc_scan_Ok s r ts kvs :
  Mvcc.scan s r ts = Ok kvs ->
  key_sorted kvs /\
  forall k v, (k, v) ∈ kvs <-> range_contains r k = true /\ backend_value s ts k = Some v.
Proof.
  unfold Mvcc.scan. case_match; [done|]. intros [= <-]. split.
  - eapply (StronglySorted_omap key_lt).
    + intros x y [x1 x2] [y1 y2] (? & _ & [= -> _])%fmap_Some (? & _ & [= -> _])%fmap_Some. done.
    + eapply StronglySorted_sublist; [apply sublist_filter|apply sorted_keys_strict].
  - intros k v. rewrite list_elem_of_omap. unfold backend_value. split.
    + intros (k' & (Hr & Hk)%list_elem_of_filter & (v' & Hv & [= <- <-])%fmap_Some). done.
    + intros [Hr Hv]. exists k. rewrite Hv. split; [|done].
      apply list_elem_of_filter. split; [done|]. unfold Mvcc.all_keys.
      rewrite elem_of_sorted_keys. apply elem_of_union_l. by eapply backend_value_dom.
Qed.

(** With no lock blocking the range at [ts], the store's scan succeeds. *)
Lemma mvcc_scan_unblocked s r ts :
  (forall k, range_contains r k = true -> Mvcc.blocks s k ts = false) ->
  exists kvs, Mvcc.scan s r ts = Ok kvs.
Proof.
  intros Hb. unfold Mvcc.scan. destruct (existsb _ _) eqn:E; [|by eexists].
  apply existsb_exists in E as (k & Hin%list_elem_of_In & Hk).
  apply list_elem_of_filter in Hin as [Hr _]. by rewrite Hb in Hk.
Qed.

(** The merge of a strictly sorted backend list with a well-formed
    buffer is strictly sorted and holds the unbuffered backend pairs and
    the buffered puts of the range. *)
Lemma merge_sorted_elems b backend r :
  Buffer.wf b -> key_sorted backend ->
  let l := Buffer.sort_pairs (filter (fun kv => Buffer.lookup b kv.1 = None) backend ++ Buffer.puts_in b r) in
  key_sorted l /\
  forall k v, (k, v) ∈ l <->
    (Buffer.lookup b k = None /\ (k, v) ∈ backend) \/
    (Buffer.lookup b k = Some (Put v) /\ range_contains r k = true).
Proof.
  intros Hwf Hs l. unfold l, Buffer.sort_pairs. split.
  - apply (sorted_le_strict fst).
    + apply Sorted_merge_sort. intros p q. apply key_le_total.
    + rewrite merge_sort_Permutation, fmap_app. apply NoDup_app. split_and!.
      * apply (strict_sorted_NoDup fst). eapply StronglySorted_sublist; [apply sublist_filter|done].
      * intros k (kv & -> & Hk)%list_elem_of_fmap Hk'%Buffer.puts_in_keys.
        apply list_elem_of_filter in Hk as [Hn _]. by apply Buffer.lookup_None_keys in Hn.
      * by apply Buffer.puts_in_NoDup.
  - intros k v. rewrite merge_sort_Permutation, elem_of_app, list_elem_of_filter,
      Buffer.elem_of_puts_in by done. naive_solver.
Qed.

Lemma view_Some_candidate b s ts k v : view b s ts k = Some v -> k ∈ candidate_keys b s.
Proof.
  unfold view, Buffer.get_or, candidate_keys. rewrite elem_of_sorted_keys.
  destruct (Buffer.lookup b k) as [m|] eqn:E; intros Hv.
  - apply elem_of_union_r, elem_of_list_to_set. by eapply Buffer.lookup_Some_keys.
  - apply elem_of_union_l, elem_of_union_l. by eapply backend_value_dom.
Qed.

(** Before the cut, the reference scan is strictly sorted and holds the
    pairs of the range the reader sees. *)
Lemma view_sorted_elems b s ts r :
  let l := omap (fun k => (fun v => (k, v)) <$> view b s ts k)
                (filter (fun k => range_contains r k = true) (candidate_keys b s)) in
  key_sorted l /\
  forall k v, (k, v) ∈ l <-> range_contains r k = true /\ view b s ts k = Some v.
Proof.
  intros l. unfold l. split.
  - eapply (StronglySorted_omap key_lt).
    + intros x y [x1 x2] [y1 y2] (? & _ & [= -> _])%fmap_Some (? & _ & [= -> _])%fmap_Some. done.
    + eapply StronglySorted_sublist; [apply sublist_filter|apply sorted_keys_strict].
  - intros k v. rewrite list_elem_of_omap. split.
    + intros (k' & (Hr & Hk)%list_elem_of_filter & (v' & Hv & [= <- <-])%fmap_Some). done.
    + intros [Hr Hv]. exists k. rewrite Hv. split; [|done].
      apply list_elem_of_filter. split; [done|]. by eapply view_Some_candidate.
Qed.
End ScanLemmas.

(** ** The merge computes the reference scan *)

Section ScanRefinement.
Import ScanView.

Lemma key_sorted_unique (l1 l2 : list (bytes * bytes)) :
  StronglySorted (fun p q => p.1 <k q.1) l1 -> StronglySorted (fun p q => p.1 <k q.1) l2 ->
  (forall kv, kv ∈ l1 <-> kv ∈ l2) -> l1 = l2.
Proof.
  intros H1 H2 Hel. apply (StronglySorted_unique_strong (fun p q : bytes * bytes => p.1 <k q.1));
    [|done|done|].
  - intros x y _ _ Hxy Hyx. exfalso. apply (key_lt_asym_le _ _ Hxy), key_le_lt_eq. by left.
  - apply NoDup_Permutation; [| |done]; apply (NoDup_fmap_1 fst), (strict_sorted_NoDup fst); done.
Qed.

(** Whatever the store's scan returned, merging it with the buffer gives
    the reference scan. *)
Lemma merge_scan_view b s ts r limit kvs :
  Buffer.wf b -> Mvcc.scan s r ts = Ok kvs ->
  Buffer.merge_scan b kvs r limit = view_scan b s ts r limit.
Proof.
  intros Hwf Hsc. destruct (mvcc_scan_Ok _ _ _ _ Hsc) as [Hs Hel].
  destruct (merge_sorted_elems b kvs r Hwf Hs) as [Hs' Hel'].
  destruct (view_sorted_elems b s ts r) as [Hv Hvel].
  unfold Buffer.merge_scan, view_scan. f_equal. apply key_sorted_unique; [done|done|].
  intros [k v]. rewrite Hel', Hvel, Hel. unfold view, Buffer.get_or.
  destruct (Buffer.lookup b k) as [[v'|]|]; naive_solver.
Qed.

(** The engine's scan, on success, is the reference scan; it changes
    neither the transaction nor the store. *)
Lemma txn_scan_Ok t s r limit kvs t' s' :
  Buffer.wf (buffer t) -> Txn.scan t s r limit = (Ok kvs, t', s') ->
  t' = t /\ s' = s /\ kvs = view_scan (buffer t) s (start_ts t) r limit.
Proof.
  intros Hwf. unfold Txn.scan, Txn.guard. destruct (Txn.is_active (status t)); [|by intros; simplify_eq].
  cbn [kv_scan Mvcc_backend]. destruct (Mvcc.scan s r (start_ts t)) as [kvs0|] eqn:Hsc;
    [|by intros; simplify_eq].
  intros [= <- <- <-]. split_and!; [done|done|]. by apply merge_scan_view.
Qed.

(** It succeeds on an [Active] transaction when no lock blocks the range. *)
Lemma txn_scan_unblocked t s r limit :
  Buffer.wf (buffer t) -> status t = Active ->
  (forall k, range_contains r k = true -> Mvcc.blocks s k (start_ts t) = false) ->
  Txn.scan t s r limit = (Ok (view_scan (buffer t) s (start_ts t) r limit), t, s).
Proof.
  intros Hwf Ha Hb. destruct (mvcc_scan_unblocked s r (start_ts t) Hb) as [kvs Hsc].
  unfold Txn.scan, Txn.guard, Txn.is_active. rewrite Ha, bool_decide_true by done.
  cbn [kv_scan Mvcc_backend]. rewrite Hsc. by erewrite merge_scan_view.
Qed.

(** The reference scan is cut at the limit, strictly ascending, inside
    the range, and holds what the reader sees, never a buffered delete. *)
Lemma view_scan_props b s ts r limit :
  let l := view_scan b s ts r limit in
  length l <= limit /\ StronglySorted (fun p q : bytes * bytes => p.1 <k q.1) l /\
  forall k v, (k, v) ∈ l ->
    range_contains r k = true /\ view b s ts k = Some v /\ Buffer.lookup b k <> Some Del.
Proof.
  intros l. destruct (view_sorted_elems b s ts r) as [Hv Hvel]. unfold l, view_scan. split_and!.
  - rewrite length_take. lia.
  - eapply StronglySorted_sublist; [apply sublist_take|done].
  - intros k v Hin. eapply elem_of_sublist in Hin; [|apply sublist_take].
    apply Hvel in Hin as [Hr Hk].
    split_and!; [done|done|]. unfold view, Buffer.get_or in Hk. intros E. by rewrite E in Hk.
Qed.

(** A store scan that succeeds met no blocking lock in the range. *)
Lemma mvcc_scan_Ok_unblocked s r ts kvs k :
  Mvcc.scan s r ts = Ok kvs -> range_contains r k = true -> Mvcc.blocks s k ts = false.
Proof.
  unfold Mvcc.scan. destruct (existsb _ _) eqn:E; [done|]. intros _ Hr.
  destruct (Mvcc.blocks s k ts) eqn:Hb; [|done]. exfalso.
  assert (Hk : k ∈ dom (Mvcc.locks s)).
  { unfold Mvcc.blocks in Hb. apply elem_of_dom. by destruct (Mvcc.locks s !! k). }
  apply not_true_iff_false in E. apply E, existsb_exists. exists k. split; [|done].
  apply list_elem_of_In, list_elem_of_filter. split; [done|]. unfold Mvcc.all_keys.
  rewrite elem_of_sorted_keys. by apply elem_of_union_r.
Qed.
End ScanRefinement.

(** The bridge's structs keep the order of the pairs. *)
Lemma kv_pairs_sorted (l : list (bytes * bytes)) :
  StronglySorted (fun p q : bytes * bytes => p.1 <k q.1) l ->
  StronglySorted key_lt (pair_key <$> (kv_pair_of <$> l)).
Proof.
  intros Hs. apply (StronglySorted_fmap pair_key (fun x y => pair_key x <k pair_key y)); [done|].
  by apply (StronglySorted_fmap kv_pair_of (fun p q : bytes * bytes => p.1 <k q.1)).
Qed.

(** ** Scans through the bridge *)

Section BridgeScan.
Import ScanView.

(** C5. [transaction_scan] computes the reference scan: whenever it
    returns [Ok], the pairs are those of [view_scan] (every key of the
    store or the buffer, ascending, inside the range built from the C++
    bounds, with the value the transaction sees, cut at [limit]), and
    neither the transaction nor the backend changed. *)
Theorem bridge_scan_refines t s a sb e eb limit kvs t' s' :
  Buffer.wf (buffer t) ->
  transaction_scan t s a sb e eb limit = (Ok kvs, t', s') ->
  t' = t /\ s' = s /\
  exists r, to_bound_range a sb e eb = Ok r /\
    kvs = kv_pair_of <$> view_scan (buffer t) s (start_ts t) r (Z.to_nat limit).
Proof.
  intros Hwf. unfold transaction_scan. destruct (to_bound_range a sb e eb) as [r|] eqn:Hr; [|done].
  intros (r0 & Hsc & Hk)%map_out_inv. destruct r0 as [kvs0|]; [|done]. simpl in Hk; simplify_eq.
  destruct (txn_scan_Ok _ _ _ _ _ _ _ Hwf Hsc) as (-> & -> & ->). eauto.
Qed.

(** C14. The scan property of section 8: a successful
    [transaction_scan] with limit [L] returns at most [L] pairs, strictly
    ascending by key, each inside the range, none of them a key the
    transaction deleted (even if the backend still holds a version of
    it), each with the buffered value if the key was written, else the
    backend's at the start timestamp. *)
Theorem bridge_scan_sorted_limited t s a sb e eb limit kvs t' s' :
  Buffer.wf (buffer t) ->
  transaction_scan t s a sb e eb limit = (Ok kvs, t', s') ->
  length kvs <= Z.to_nat limit /\ StronglySorted key_lt (pair_key <$> kvs) /\
  exists r, to_bound_range a sb e eb = Ok r /\
    Forall (fun kv => range_contains r (pair_key kv) = true /\
                      Buffer.lookup (buffer t) (pair_key kv) <> Some Del /\
                      Buffer.get_or (buffer t) (pair_key kv) (backend_value s (start_ts t) (pair_key kv))
                        = Some (pair_value kv)) kvs.
Proof.
  intros Hwf. unfold transaction_scan. destruct (to_bound_range a sb e eb) as [r|] eqn:Hr; [|done].
  intros (r0 & Hsc & Hk)%map_out_inv. destruct r0 as [kvs0|]; [|done]. simpl in Hk; simplify_eq.
  destruct (txn_scan_Ok _ _ _ _ _ _ _ Hwf Hsc) as (_ & _ & ->).
  destruct (view_scan_props (buffer t) s (start_ts t) r (Z.to_nat limit)) as (Hl & Hs & Hel).
  split_and!; [by rewrite length_fmap|by apply kv_pairs_sorted|].
  exists r. split; [done|]. apply Forall_fmap, Forall_forall. intros [k v] Hin. apply Hel in Hin.
  naive_solver.
Qed.

(** C36. [transaction_scan] on an [Active] transaction with valid
    bounds succeeds when no lock of another transaction blocks the
    range at the start timestamp, and returns the reference scan. *)
Theorem bridge_scan_unblocked t s a sb e eb limit r :
  Buffer.wf (buffer t) -> status t = Active -> to_bound_range a sb e eb = Ok r ->
  (forall k, range_contains r k = true -> Mvcc.blocks s k (start_ts t) = false) ->
  transaction_scan t s a sb e eb limit =
    (Ok (kv_pair_of <$> view_scan (buffer t) s (start_ts t) r (Z.to_nat limit)), t, s).
Proof.
  intros Hwf Ha Hr Hb. unfold transaction_scan. rewrite Hr.
  by rewrite txn_scan_unblocked.
Qed.

(** C37. A snapshot's scan agrees with its point reads: every pair
    [snapshot_scan] returns is what [snapshot_get] returns for its key
    ([is_none = false], the same value); the pairs are strictly
    ascending and at most [limit]. *)
Theorem snapshot_scan_get_agree ts s a sb e eb limit kvs :
  snapshot_scan (mkSnapshot ts) s a sb e eb limit = Ok kvs ->
  length kvs <= Z.to_nat limit /\ StronglySorted key_lt (pair_key <$> kvs) /\
  Forall (fun kv => snapshot_get (mkSnapshot ts) s (pair_key kv) = Ok (mkOptionalValue false (pair_value kv))) kvs.
Proof.
  unfold snapshot_scan. destruct (to_bound_range a sb e eb) as [r|] eqn:Hr; [|done]. simpl.
  cbn [kv_scan Mvcc_backend]. destruct (Mvcc.scan s r ts) as [kvs0|] eqn:Hsc; [|done].
  intros [= <-]. rewrite (merge_scan_view [] s ts r _ kvs0) by (done || constructor).
  destruct (view_scan_props [] s ts r (Z.to_nat limit)) as (Hl & Hs & Hel).
  split_and!; [by rewrite length_fmap|by apply kv_pairs_sorted|].
  apply Forall_fmap, Forall_forall. intros [k v] Hin. apply Hel in Hin as (Hrk & Hv & _).
  unfold snapshot_get, compose, kv_pair_of. cbn [kv_read Mvcc_backend snap_ts pair_key pair_value].
  unfold Mvcc.read; simpl. rewrite (mvcc_scan_Ok_unblocked s r ts kvs0 k Hsc Hrk). simpl.
  unfold view, Buffer.get_or, backend_value in Hv. simpl in Hv. by rewrite Hv.
Qed.
End BridgeScan.

(** ** Witnesses *)

Lemma demo_scan_wf : Buffer.wf (buffer demo_scan_txn).
Proof. vm_compute. repeat constructor; set_solver. Qed.

Lemma demo_scan_Ok :
  transaction_scan demo_scan_txn demo_scan_store [] Unbounded [] Unbounded 10 =
    (Ok [mkKvPair (bs "b") (bs "2"); mkKvPair (bs "c") (bs "3")], demo_scan_txn, demo_scan_store).
Proof. vm_compute. reflexivity. Qed.

Lemma bridge_scan_refines_witness :
  Buffer.wf (buffer demo_scan_txn) /\
  transaction_scan demo_scan_txn demo_scan_store [] Unbounded [] Unbounded 10 =
    (Ok [mkKvPair (bs "b") (bs "2"); mkKvPair (bs "c") (bs "3")], demo_scan_txn, demo_scan_store) /\
  (demo_scan_txn = demo_scan_txn /\ demo_scan_store = demo_scan_store /\
   exists r, to_bound_range [] Unbounded [] Unbounded = Ok r /\
     [mkKvPair (bs "b") (bs "2"); mkKvPair (bs "c") (bs "3")] =
       kv_pair_of <$> ScanView.view_scan (buffer demo_scan_txn) demo_scan_store
                        (start_ts demo_scan_txn) r (Z.to_nat 10)).
Proof.
  split; [exact demo_scan_wf|]. split; [exact demo_scan_Ok|].
  exact (bridge_scan_refines _ _ _ _ _ _ _ _ _ _ demo_scan_wf demo_scan_Ok).
Defined.

Lemma bridge_scan_sorted_limited_witness :
  Buffer.wf (buffer demo_scan_txn) /\
  transaction_scan demo_scan_txn demo_scan_store [] Unbounded [] Unbounded 10 =
    (Ok [mkKvPair (bs "b") (bs "2"); mkKvPair (bs "c") (bs "3")], demo_scan_txn, demo_scan_store) /\
  (length [mkKvPair (bs "b") (bs "2"); mkKvPair (bs "c") (bs "3")] <= Z.to_nat 10 /\
   StronglySorted key_lt (pair_key <$> [mkKvPair (bs "b") (bs "2"); mkKvPair (bs "c") (bs "3")]) /\
   exists r, to_bound_range [] Unbounded [] Unbounded = Ok r /\
     Forall (fun kv => range_contains r (pair_key kv) = true /\
                       Buffer.lookup (buffer demo_scan_txn) (pair_key kv) <> Some Del /\
                       Buffer.get_or (buffer demo_scan_txn) (pair_key kv)
                         (ScanView.backend_value demo_scan_store (start_ts demo_scan_txn) (pair_key kv))
                         = Some (pair_value kv))
       [mkKvPair (bs "b") (bs "2"); mkKvPair (bs "c") (bs "3")]).
Proof.
  split; [exact demo_scan_wf|]. split; [exact demo_scan_Ok|].
  exact (bridge_scan_sorted_limited _ _ _ _ _ _ _ _ _ _ demo_scan_wf demo_scan_Ok).
Defined.

Lemma bridge_scan_unblocked_witness :
  Buffer.wf (buffer demo_scan_txn) /\ status demo_scan_txn = Active /\
  to_bound_range (bs "b") Included [] Unbounded = Ok (mkBoundRange (OIncluded (bs "b")) OUnbounded) /\
  (forall k, range_contains (mkBoundRange (OIncluded (bs "b")) OUnbounded) k = true ->
     Mvcc.blocks demo_scan_store k (start_ts demo_scan_txn) = false) /\
  transaction_scan demo_scan_txn demo_scan_store (bs "b") Included [] Unbounded 1 =
    (Ok (kv_pair_of <$> ScanView.view_scan (buffer demo_scan_txn) demo_scan_store (start_ts demo_scan_txn)
                          (mkBoundRange (OIncluded (bs "b")) OUnbounded) (Z.to_nat 1)),
     demo_scan_txn, demo_scan_store).
Proof.
  assert (Hr : to_bound_range (bs "b") Included [] Unbounded = Ok (mkBoundRange (OIncluded (bs "b")) OUnbounded))
    by reflexivity.
  assert (Hb : forall k, range_contains (mkBoundRange (OIncluded (bs "b")) OUnbounded) k = true ->
     Mvcc.blocks demo_scan_store k (start_ts demo_scan_txn) = false)
    by (intros k _; vm_compute; reflexivity).
  split; [exact demo_scan_wf|]. split; [reflexivity|]. split; [exact Hr|]. split; [exact Hb|].
  exact (bridge_scan_unblocked _ _ _ _ _ _ 1 _ demo_scan_wf eq_refl Hr Hb).
Defined.

Lemma snapshot_scan_get_agree_witness :
  snapshot_scan (mkSnapshot 2) demo_scan_store (bs "a") Included (bs "c") Excluded 10 =
    Ok [mkKvPair (bs "a") (bs "1"); mkKvPair (bs "b") (bs "2")] /\
  (length [mkKvPair (bs "a") (bs "1"); mkKvPair (bs "b") (bs "2")] <= Z.to_nat 10 /\
   StronglySorted key_lt (pair_key <$> [mkKvPair (bs "a") (bs "1"); mkKvPair (bs "b") (bs "2")]) /\
   Forall (fun kv => snapshot_get (mkSnapshot 2) demo_scan_store (pair_key kv) =
                       Ok (mkOptionalValue false (pair_value kv)))
     [mkKvPair (bs "a") (bs "1"); mkKvPair (bs "b") (bs "2")]).
Proof.
  assert (H : snapshot_scan (mkSnapshot 2) demo_scan_store (bs "a") Included (bs "c") Excluded 10 =
    Ok [mkKvPair (bs "a") (bs "1"); mkKvPair (bs "b") (bs "2")]) by (vm_compute; reflexivity).
  split; [exact H|]. exact (snapshot_scan_get_agree _ _ _ _ _ _ _ _ H).
Defined.
