(* ===== verification/Rollback.v ===== *)
(** * Rolling back before any prewrite restores the backend

    Section 8 of the specification: "[rollback()] after [put]/[delete]
    with no prior [commit] leaves the backend state unchanged from before
    the transaction began, for all keys touched".  Before a prewrite the
    only trace a transaction leaves in the backend is the pessimistic
    locks of [get_for_update]; [transaction_rollback] (lib.rs 429-432)
    releases them.  The theorem runs any sequence of the bridge's
    buffer-only calls ([local_call]: reads, [get_for_update], [put],
    [delete], scans) on a fresh transaction, then [transaction_rollback],
    and finds the store it started from, exactly.

    [rb_inv] is the invariant of such a run: the transaction is still
    [Active], the versions, safepoint and oracle are untouched, and the
    lock table differs from the initial one exactly at the keys the
    transaction locked, each holding its own pessimistic lock. *)

From S2P Require Import Prelude Ffi Buffer Timestamp Backoff Mvcc Transaction Bridge.

Definition rb_inv (t0 : Transaction) (s0 : Mvcc.Store) (t : Transaction) (s : Mvcc.Store) : Prop :=
  status t = Active /\ start_ts t = start_ts t0 /\
  Mvcc.versions s = Mvcc.versions s0 /\ Mvcc.safepoint s = Mvcc.safepoint s0 /\
  Mvcc.tso s = Mvcc.tso s0 /\
  (forall k, Mvcc.locks s !! k =
     if decide (k ∈ locked t) then Some (Mvcc.mkLock k (start_ts t0) None) else Mvcc.locks s0 !! k) /\
  (forall k, k ∈ locked t -> Mvcc.locks s0 !! k = None).

(** A concrete run, for the witness: a pessimistic transaction that
    locks and writes ["a"] and deletes ["b"]. *)
Definition demo_pess_t0 : Transaction := Txn.new Pessimistic 2 pessimistic_lock_backoff.
Definition demo_pess_calls : list Call :=
  [CGetForUpdate (bs "a"); CPut (bs "a") (bs "1"); CDelete (bs "b"); CGet (bs "b")].

(** ** Reads leave the transaction and the backend as they were *)

Section Frames.
Context {S : Type} `{Backend S}.

Lemma get_frame t (s : S) k : exists r, Txn.get t s k = (r, t, s).
Proof. unfold Txn.get, Txn.guard. repeat case_match; eauto. Qed.

Lemma batch_get_frame t (s : S) ks : exists r, Txn.batch_get t s ks = (r, t, s).
Proof.
  unfold Txn.batch_get, Txn.guard. case_match; [|eauto].
  destruct (fold_right _ _ _) as [[r t'] s'] eqn:E. apply batch_fold_frame in E as [-> ->]. eauto.
Qed.

Lemma scan_frame t (s : S) r l : exists x, Txn.scan t s r l = (x, t, s).
Proof. unfold Txn.scan, Txn.guard. repeat case_match; eauto. Qed.

Lemma scan_keys_frame t (s : S) r l : exists x, Txn.scan_keys t s r l = (x, t, s).
Proof. unfold Txn.scan_keys. destruct (scan_frame t s r l) as [x ->]. eauto. Qed.
End Frames.

(** ** The invariant of a run of buffer-only calls *)

Section RollbackLemmas.
Variables (t0 : Transaction) (s0 : Mvcc.Store).
(** No lock of the initial store carries the transaction's start
    timestamp: the oracle issues each timestamp once. *)
Hypothesis fresh : forall k l, Mvcc.locks s0 !! k = Some l -> Mvcc.lock_ts l <> start_ts t0.

Lemma rollback_all_safepoint (s : Mvcc.Store) ks ts :
  Mvcc.safepoint (Txn.rollback_all s ks ts).2 = Mvcc.safepoint s.
Proof.
  revert s. induction ks as [|k ks IH]; intros s; [done|]. simpl.
  cbn [kv_rollback Mvcc_backend]. rewrite rollback_key_Ok, IH. by repeat case_match.
Qed.

Lemma rb_inv_lock t s k s' :
  rb_inv t0 s0 t s -> Mvcc.lock_key s k k (start_ts t) = Ok s' ->
  rb_inv t0 s0 (Txn.set_locked t (k :: locked t)) s'.
Proof.
  intros (Ha & Hs & Hv & Hsp & Ht & Hl & Hn). unfold Mvcc.lock_key.
  destruct (Mvcc.locks s !! k) as [l|] eqn:E.
  - case_decide as Hts; [|done]. intros [= <-].
    assert (Hk : k ∈ locked t).
    { specialize (Hl k). rewrite E in Hl. case_decide; [done|].
      exfalso. apply (fresh k l); [done|congruence]. }
    split_and!; try done.
    + intros k'. simpl. rewrite Hl. repeat case_decide; try done; set_solver.
    + intros k' Hk'%elem_of_cons. destruct Hk' as [->|]; auto.
  - case_match; [done|]. intros [= <-].
    assert (Hk : k ∉ locked t).
    { intros Hk. specialize (Hl k). rewrite decide_True in Hl by done. congruence. }
    split_and!; try done.
    + intros k'. simpl. destruct (decide (k' = k)) as [->|Hne].
      * rewrite lookup_insert_eq, decide_True by set_solver. by rewrite Hs.
      * rewrite lookup_insert_ne by congruence. rewrite Hl. repeat case_decide; try done; set_solver.
    + intros k' Hk'%elem_of_cons. destruct Hk' as [->|]; [|auto].
      specialize (Hl k). rewrite decide_False in Hl by done. congruence.
Qed.

Lemma rb_inv_call wait c t s :
  local_call c = true -> rb_inv t0 s0 t s ->
  rb_inv t0 s0 (bridge_call wait c t s).1.2 (bridge_call wait c t s).2.
Proof.
  intros Hc Hi. destruct c; try discriminate Hc; cbn [bridge_call]; bridge_unfold.
  - by destruct (get_frame t s key) as [r ->].
  - unfold Txn.get_for_update, Txn.guard. destruct (Txn.is_active (status t)); [|done].
    destruct (txn_mode t); [by destruct (get_frame t s key) as [r ->]|].
    cbn [kv_lock Mvcc_backend]. destruct (Mvcc.lock_key s key key (start_ts t)) as [s'|] eqn:E; [|done].
    destruct (get_frame (Txn.set_locked t (key :: locked t)) s' key) as [r ->].
    by eapply rb_inv_lock.
  - by destruct (batch_get_frame t s keys) as [r ->].
  - done.
  - destruct (to_bound_range _ _ _ _) as [rg|]; [|done].
    by destruct (scan_frame t s rg (Z.to_nat limit)) as [r ->].
  - destruct (to_bound_range _ _ _ _) as [rg|]; [|done].
    by destruct (scan_keys_frame t s rg (Z.to_nat limit)) as [r ->].
  - unfold Txn.put, Txn.guard. by destruct (Txn.is_active (status t)).
  - unfold Txn.delete, Txn.guard. by destruct (Txn.is_active (status t)).
Qed.

Lemma rb_inv_run wait cs t s :
  forallb local_call cs = true -> rb_inv t0 s0 t s ->
  rb_inv t0 s0 (bridge_run wait cs t s).1 (bridge_run wait cs t s).2.
Proof.
  revert t s. induction cs as [|c cs IH]; intros t s Hcs Hi; [done|]. simpl.
  apply andb_true_iff in Hcs as [Hc Hcs].
  pose proof (rb_inv_call wait c t s Hc Hi) as H'.
  destruct (bridge_call wait c t s) as [[b t'] s']. by apply IH.
Qed.

Lemma rb_inv_rollback t s :
  rb_inv t0 s0 t s ->
  exists t', transaction_rollback t s = (Ok tt, t', s0) /\ status t' = RolledBack /\ buffer t' = [].
Proof.
  intros (Ha & Hs & Hv & Hsp & Ht & Hl & Hn). unfold transaction_rollback, Txn.rollback. rewrite Ha.
  pose proof (rollback_all_safepoint s (locked t) (start_ts t)) as Hsp'.
  destruct (rollback_all_seq s (locked t) (start_ts t)) as (s' & E & Hv' & Ht' & Hl').
  rewrite E in Hsp' |- *. simpl. exists (Txn.set_status (Txn.set_buffer t []) RolledBack).
  split_and!; [|done|done]. do 2 f_equal.
  destruct s' as [v' l' sp' tso'], s0 as [v0 l0 sp0 tso0]; simpl in *. f_equal; try congruence.
  apply map_eq. intros k. rewrite Hl'. specialize (Hl k). case_decide as Hk; [|done].
  rewrite Hl, decide_True by done. simpl. by rewrite Hn.
Qed.
End RollbackLemmas.

(** ** The theorem *)

(** C7. Rolling back before any prewrite restores the backend: from a
    fresh transaction ([Active], nothing locked), any sequence of the
    bridge's reads, [get_for_update]s, [put]s, [delete]s and scans
    followed by [transaction_rollback] succeeds, leaves the transaction
    [RolledBack] with an empty buffer, and leaves the store exactly as it
    was before the transaction began: every pessimistic lock it took,
    written keys included, is released. *)
Theorem bridge_rollback_restores (wait : Z -> Mvcc.Store -> Mvcc.Store) cs t0 s0 :
  status t0 = Active -> locked t0 = [] ->
  (forall k l, Mvcc.locks s0 !! k = Some l -> Mvcc.lock_ts l <> start_ts t0) ->
  forallb local_call cs = true ->
  exists t', transaction_rollback (bridge_run wait cs t0 s0).1 (bridge_run wait cs t0 s0).2 =
               (Ok tt, t', s0) /\ status t' = RolledBack /\ buffer t' = [].
Proof.
  intros Ha Hl Hf Hcs. apply (rb_inv_rollback t0 s0 Hf). apply (rb_inv_run t0 s0 Hf); [done|].
  split_and!; try done; rewrite Hl.
  - intros k. by rewrite decide_False by set_solver.
  - set_solver.
Qed.

(** ** Witness *)

Lemma bridge_rollback_restores_witness :
  status demo_pess_t0 = Active /\ locked demo_pess_t0 = [] /\
  (forall k l, Mvcc.locks demo_s0 !! k = Some l -> Mvcc.lock_ts l <> start_ts demo_pess_t0) /\
  forallb local_call demo_pess_calls = true /\
  exists t', transaction_rollback (bridge_run Backoff.no_wait demo_pess_calls demo_pess_t0 demo_s0).1
               (bridge_run Backoff.no_wait demo_pess_calls demo_pess_t0 demo_s0).2 =
               (Ok tt, t', demo_s0) /\ status t' = RolledBack /\ buffer t' = [].
Proof.
  assert (Hf : forall k l, Mvcc.locks demo_s0 !! k = Some l -> Mvcc.lock_ts l <> start_ts demo_pess_t0).
  { intros k l Hk. simpl in Hk. by rewrite lookup_empty in Hk. }
  split; [reflexivity|]. split; [reflexivity|]. split; [exact Hf|]. split; [reflexivity|].
  exact (bridge_rollback_restores Backoff.no_wait demo_pess_calls demo_pess_t0 demo_s0
           eq_refl eq_refl Hf eq_refl).
Defined.
