(* ===== verification/Concurrency.v ===== *)
(** * Many transactions on one store: no two commits of a key overlap

    Section 5 of the specification: many transactions run over one
    shared client, each one's calls sequential; "first writer to
    successfully prewrite wins".  Section 8: two optimistic transactions
    writing the same key are "never both committing with overlapping
    versions".

    - [store_ok] is the invariant of the store: per key, the committed
      versions form a [chain] (newest first, each started at or before
      it committed, and each started after the one before it committed),
      and every lock carries a timestamp the oracle has issued, later than
      every committed version of its key;
    - [txn_ok] is the invariant of a transaction: its start timestamp
      and the timestamp its locks carry were issued;
    - [call_ok] is what the C++ caller must respect when it passes
      timestamps to the split commit: [prewrite_secondary] gets an issued
      start timestamp, [commit_secondary] a commit timestamp not below the
      start timestamp of the locks it resolves (the one
      [commit_primary] returned);
    - [Sys] and [sys_step] are the system: a list of transactions over
      one store, where each step is one call C++ makes: a [client_call]
      on the client (a begin, which adds a transaction, or
      [client_gc]), one bridge call on one of the transactions, or a
      [current_timestamp] or [snapshot_new], which only fetch a
      timestamp.

    Every step preserves the invariants, so in every reachable state two
    committed versions of a key never overlap. *)

From S2P Require Import Prelude Ffi Buffer Timestamp Backoff Mvcc Transaction Bridge Rollback.

(** ** The invariants *)

(** Versions, newest first: each started at or before it committed, and
    the next (older) one committed before it started. *)
Fixpoint chain (ws : list Mvcc.Write) : bool :=
  match ws with
  | [] => true
  | w :: ws' =>
      bool_decide (Mvcc.write_start w <= Mvcc.write_commit w)%Z &&
      match ws' with
      | [] => true
      | w' :: _ => bool_decide (Mvcc.write_commit w' < Mvcc.write_start w)%Z
      end && chain ws'
  end.

Definition lock_ok (s : Mvcc.Store) (k : bytes) (l : Mvcc.Lock) : Prop :=
  (Mvcc.lock_ts l <= Mvcc.tso s)%Z /\
  Forall (fun w => Mvcc.write_commit w < Mvcc.lock_ts l)%Z (Mvcc.versions_of s k).

Definition store_ok (s : Mvcc.Store) : Prop :=
  (forall k, chain (Mvcc.versions_of s k) = true) /\
  (forall k l, Mvcc.locks s !! k = Some l -> lock_ok s k l).

Definition txn_ok (s : Mvcc.Store) (t : Transaction) : Prop :=
  (start_ts t <= Mvcc.tso s)%Z /\ (lock_start t <= Mvcc.tso s)%Z.

(** The timestamps the C++ caller passes to the split commit. *)
Definition call_ok (s : Mvcc.Store) (t : Transaction) (c : Call) : Prop :=
  match c with
  | CPrewriteSecondary _ ts => (0 <= ts <= Mvcc.tso s)%Z /\ (ts < u64_modulus)%Z
  | CCommitSecondary c => (0 <= c)%Z /\ (lock_start t <= c < u64_modulus)%Z
  | _ => True
  end.

(** ** The system *)

Record Sys := mkSys { txns : list Transaction; store : Mvcc.Store }.

(** The gc safepoint C++ passes is a [u64]. *)
Definition client_ok (c : ClientCall) : Prop :=
  match c with
  | CClientGc sp => (0 <= sp < u64_modulus)%Z
  | _ => True
  end.

Inductive sys_step : Sys -> Sys -> Prop :=
| SClient ts s c ot s' :
    client_ok c -> client_call c s = (ot, s') ->
    sys_step (mkSys ts s) (mkSys (ts ++ option_list ot) s')
| SCall ts s i t c b t' s' :
    ts !! i = Some t -> call_ok s t c ->
    bridge_call Backoff.no_wait c t s = (b, t', s') ->
    sys_step (mkSys ts s) (mkSys (<[i := t']> ts) s')
| STimestamp ts s r s' :
    current_timestamp s = (r, s') -> sys_step (mkSys ts s) (mkSys ts s')
| SSnapshot ts s r s' :
    snapshot_new s = (r, s') -> sys_step (mkSys ts s) (mkSys ts s').

Definition sys_ok (x : Sys) : Prop := store_ok (store x) /\ Forall (txn_ok (store x)) (txns x).

(** One step of one transaction keeps both invariants and never moves
    the oracle back. *)
Definition advances (s : Mvcc.Store) (s' : Mvcc.Store) (t' : Transaction) : Prop :=
  store_ok s' /\ txn_ok s' t' /\ (Mvcc.tso s <= Mvcc.tso s')%Z.

(** Another transaction is ahead on [k]: it holds [k]'s lock, or [k]
    is unlocked and has a version committed at or after [ts]. *)
Definition conflict_at (s : Mvcc.Store) (k : bytes) (ts : Z) : Prop :=
  (exists l, Mvcc.locks s !! k = Some l /\ Mvcc.lock_ts l <> ts) \/
  (Mvcc.locks s !! k = None /\ Mvcc.write_conflict s k ts = true).

(** A concrete run, for the witnesses: an optimistic transaction begun on
    the empty store, [put("a","1")], [commit]. *)
Definition demo_sys_t1 : Transaction := Txn.new Optimistic 1 default_lock_backoff.
Definition demo_sys_s1 : Mvcc.Store := (Mvcc.fetch_ts Mvcc.init).2.
Definition demo_call_put : bool * Transaction * Mvcc.Store :=
  bridge_call Backoff.no_wait (CPut (bs "a") (bs "1")) demo_sys_t1 demo_sys_s1.
Definition demo_call_commit : bool * Transaction * Mvcc.Store :=
  bridge_call Backoff.no_wait CCommit demo_call_put.1.2 demo_call_put.2.
Definition demo_sys_final : Sys :=
  mkSys (<[0 := demo_call_commit.1.2]> (<[0 := demo_call_put.1.2]> [demo_sys_t1])) demo_call_commit.2.

(** A store where another transaction (started at 5) holds the lock of
    ["b"]. *)
Definition demo_locked_store : Mvcc.Store :=
  Mvcc.mkStore ∅ {[bs "b" := Mvcc.mkLock (bs "b") 5 (Some (Put (bs "x")))]} 0 5.
Definition demo_pess_t1 : Transaction := Txn.new Pessimistic 6 pessimistic_lock_backoff.
Definition demo_pess_t2 : Transaction := Txn.new Pessimistic 7 pessimistic_lock_backoff.
Definition demo_pess_s : Mvcc.Store := Mvcc.mkStore ∅ ∅ 0 7.

(** The split commit driven by hand, with [commit_secondary] given a
    commit timestamp (3) below the start timestamp (5): the primary
    ["a"] commits at 6, the secondary ["b"] at 3. *)
Definition demo_split_txn : Transaction :=
  Txn.set_buffer (Txn.new Optimistic 5 default_lock_backoff)
    (Buffer.put (Buffer.put [] (bs "a") (bs "1")) (bs "b") (bs "2")).
Definition demo_split_committing : Transaction * Mvcc.Store :=
  let '(_, t1, s1) := transaction_prewrite_primary Backoff.no_wait demo_split_txn (Mvcc.mkStore ∅ ∅ 0 5) [] in
  let '(_, t2, s2) := transaction_prewrite_secondary Backoff.no_wait t1 s1 (bs "a") 5 in
  let '(_, t3, s3) := transaction_commit_primary t2 s2 in
  (t3, s3).
Definition demo_split_store : Mvcc.Store :=
  (transaction_commit_secondary demo_split_committing.1 demo_split_committing.2 3).2.

(** Two transactions on one store, started at 1 and 2.  The first
    writes ["a"] and ["k"] and prewrites both with ["a"] as primary; the
    second buffers ["k"] := ["2"] and calls
    [transaction_prewrite_secondary] with the first one's primary and
    start timestamp.  The first then commits its primary and its
    secondaries. *)
Definition demo_foreign_t1 : Transaction :=
  Txn.set_buffer (Txn.new Optimistic 1 default_lock_backoff)
    (Buffer.put (Buffer.put [] (bs "a") (bs "x")) (bs "k") (bs "1")).
Definition demo_foreign_t2 : Transaction :=
  Txn.set_buffer (Txn.new Optimistic 2 default_lock_backoff) (Buffer.put [] (bs "k") (bs "2")).
Definition demo_foreign_run : Transaction * Transaction * Mvcc.Store :=
  let '(_, t1, s1) := transaction_prewrite_primary Backoff.no_wait demo_foreign_t1 (Mvcc.mkStore ∅ ∅ 0 2) [] in
  let '(_, t1, s2) := transaction_prewrite_secondary Backoff.no_wait t1 s1 (bs "a") 1 in
  let '(_, t2, s3) := transaction_prewrite_secondary Backoff.no_wait demo_foreign_t2 s2 (bs "a") 1 in
  let '(_, t1, s4) := transaction_commit_primary t1 s3 in
  let '(t1, s5) := transaction_commit_secondary t1 s4 3 in
  (t1, t2, s5).

(** ** The invariant of the store, operation by operation *)

Section StoreOk.

Lemma chain_cons w ws :
  chain (w :: ws) = true <->
  (Mvcc.write_start w <= Mvcc.write_commit w)%Z /\
  Forall (fun w' => Mvcc.write_commit w' < Mvcc.write_start w)%Z (take 1 ws) /\ chain ws = true.
Proof.
  simpl. rewrite !andb_true_iff, bool_decide_eq_true.
  destruct ws as [|w' ws]; simpl; rewrite ?Forall_singleton, ?bool_decide_eq_true; naive_solver.
Qed.

Lemma write_conflict_false s k ts :
  Mvcc.write_conflict s k ts = false ->
  Forall (fun w => Mvcc.write_commit w < ts)%Z (Mvcc.versions_of s k).
Proof.
  unfold Mvcc.write_conflict. intros Hw. apply Forall_forall. intros w Hin.
  destruct (Z.lt_ge_cases (Mvcc.write_commit w) ts) as [|Hge]; [done|]. exfalso.
  apply not_true_iff_false in Hw. apply Hw, existsb_exists. exists w.
  split; [by apply list_elem_of_In|]. by apply bool_decide_eq_true.
Qed.

(** A new lock of the transaction started at [ts] on a key whose
    versions all committed before [ts]. *)
Lemma store_ok_lock s k l :
  store_ok s -> lock_ok s k l ->
  store_ok (Mvcc.with_locks s (<[k := l]> (Mvcc.locks s))).
Proof.
  intros [Hc Hl] Hk. split; [exact Hc|]. intros k' l'. simpl.
  destruct (decide (k' = k)) as [->|Hne].
  - rewrite lookup_insert_eq. by intros [= <-].
  - rewrite lookup_insert_ne by congruence. apply Hl.
Qed.

Lemma prewrite_store_ok s k m p ts s' :
  store_ok s -> (ts <= Mvcc.tso s)%Z -> Mvcc.prewrite s k m p ts = Ok s' ->
  store_ok s' /\ Mvcc.tso s' = Mvcc.tso s.
Proof.
  intros Hs Hts. unfold Mvcc.prewrite. destruct (Mvcc.locks s !! k) as [l|] eqn:E.
  - case_decide as Heq; [|done]. intros [= <-]. split; [|done]. apply store_ok_lock; [done|].
    destruct (proj2 Hs k l E) as [_ Hf]. split; [done|]. simpl. by rewrite <- Heq.
  - destruct (Mvcc.write_conflict s k ts) eqn:Hw; [done|]. intros [= <-]. split; [|done].
    apply store_ok_lock; [done|]. split; [done|]. by apply write_conflict_false.
Qed.

Lemma lock_key_store_ok s k p ts s' :
  store_ok s -> (ts <= Mvcc.tso s)%Z -> Mvcc.lock_key s k p ts = Ok s' ->
  store_ok s' /\ Mvcc.tso s' = Mvcc.tso s.
Proof.
  intros Hs Hts. unfold Mvcc.lock_key. destruct (Mvcc.locks s !! k) as [l|] eqn:E.
  - case_decide; [|done]. by intros [= <-].
  - destruct (Mvcc.write_conflict s k ts) eqn:Hw; [done|]. intros [= <-]. split; [|done].
    apply store_ok_lock; [done|]. split; [done|]. by apply write_conflict_false.
Qed.

Lemma commit_key_store_ok s k ts c s' :
  store_ok s -> (ts <= c)%Z -> Mvcc.commit_key s k ts c = Ok s' ->
  store_ok s' /\ Mvcc.tso s' = Mvcc.tso s.
Proof.
  intros [Hc Hl] Htc. unfold Mvcc.commit_key. destruct (Mvcc.locks s !! k) as [[p lts [m|]]|] eqn:E;
    [|repeat case_match; intros; by simplify_eq..].
  case_decide as Heq; [|done]. subst lts. intros [= <-]. split; [|done]. split.
  - intros k'. unfold Mvcc.versions_of at 1. simpl. destruct (decide (k' = k)) as [->|Hne].
    + rewrite lookup_insert_eq. apply (proj2 (chain_cons _ _)). split_and!; [simpl; lia| |apply Hc].
      destruct (Hl k _ E) as [_ Hf]. simpl in Hf.
      apply Forall_forall. intros w Hw. eapply Forall_forall in Hf; [exact Hf|].
      by eapply elem_of_sublist, sublist_take.
    + rewrite lookup_insert_ne by congruence. apply Hc.
  - intros k' l'. simpl. destruct (decide (k' = k)) as [->|Hne]; [by rewrite lookup_delete_eq|].
    rewrite lookup_delete_ne by congruence. intros Hk'. destruct (Hl k' l' Hk') as [Ht Hf].
    split; [done|]. unfold Mvcc.versions_of. simpl. by rewrite lookup_insert_ne by congruence.
Qed.

Lemma rollback_key_store_ok s k ts :
  store_ok s -> store_ok (match Mvcc.locks s !! k with
                          | Some l => if decide (Mvcc.lock_ts l = ts)
                                      then Mvcc.with_locks s (delete k (Mvcc.locks s)) else s
                          | None => s
                          end).
Proof.
  intros [Hc Hl]. repeat case_match; try done. split; [exact Hc|]. intros k' l'. simpl.
  destruct (decide (k' = k)) as [->|Hne]; [by rewrite lookup_delete_eq|].
  rewrite lookup_delete_ne by congruence. apply Hl.
Qed.

Lemma fetch_ts_store_ok s : store_ok s -> store_ok (Mvcc.fetch_ts s).2 /\ Mvcc.tso (Mvcc.fetch_ts s).2 = (Mvcc.tso s + 1)%Z.
Proof.
  intros [Hc Hl]. split; [|done]. split; [exact Hc|]. intros k l Hk.
  destruct (Hl k l Hk) as [Ht Hf]. split; [simpl; lia|done].
Qed.

(** In a chain every version started after all the older ones committed. *)
Lemma chain_head_max w ws : chain (w :: ws) = true ->
  Forall (fun w' => Mvcc.write_commit w' < Mvcc.write_start w)%Z ws.
Proof.
  revert w. induction ws as [|w2 ws IH]; intros w Hc; [constructor|].
  apply chain_cons in Hc as (_ & Hh & Hc). simpl in Hh. inversion Hh as [|? ? Hh1 _]; subst.
  pose proof (IH w2 Hc) as Hf. pose proof Hc as Hc2. apply chain_cons in Hc2 as (H2 & _ & _).
  constructor; [done|]. eapply Forall_impl; [exact Hf|]. intros w' Hw'. simpl in *. lia.
Qed.

(** GC keeps a sublist of each key's versions, and a sublist of a chain
    is a chain. *)
Lemma prune_sublist needed ws sp : sublist (Mvcc.prune needed ws sp) ws.
Proof.
  induction ws as [|w ws IH]; simpl; [done|].
  case_decide; apply sublist_skip; [apply sublist_filter|done].
Qed.

Lemma chain_sublist ws1 ws2 : sublist ws1 ws2 -> chain ws2 = true -> chain ws1 = true.
Proof.
  induction 1 as [|w ws1 ws2 Hs IH|w ws1 ws2 Hs IH]; intros Hc; [done| |].
  - pose proof (chain_head_max _ _ Hc) as Hm. apply chain_cons in Hc as (Hw & _ & Hc).
    apply chain_cons. split_and!; [done| |by apply IH].
    destruct ws1 as [|w1 ws1]; [constructor|]. apply Forall_singleton.
    rewrite Forall_forall in Hm. apply Hm. eapply elem_of_sublist; [|exact Hs]. by left.
  - apply chain_cons in Hc as (_ & _ & Hc). by apply IH.
Qed.

Lemma gc_store_ok s sp : store_ok s -> store_ok (Mvcc.gc s sp).2 /\ Mvcc.tso (Mvcc.gc s sp).2 = Mvcc.tso s.
Proof.
  intros [Hc Hl]. unfold Mvcc.gc. case_decide; [|done]. simpl.
  set (n := Mvcc.in_doubt s).
  assert (Hv : forall k, Mvcc.versions_of (Mvcc.mkStore ((fun ws => Mvcc.prune n ws sp) <$> Mvcc.versions s)
                                                      (Mvcc.locks s) sp (Mvcc.tso s)) k =
                         Mvcc.prune n (Mvcc.versions_of s k) sp).
  { intros k. unfold Mvcc.versions_of. simpl. rewrite lookup_fmap. by destruct (Mvcc.versions s !! k). }
  split; [|done]. split.
  - intros k. rewrite Hv. eapply chain_sublist; [apply prune_sublist|apply Hc].
  - intros k l Hk. destruct (Hl k l Hk) as [Ht Hf]. split; [done|]. rewrite Hv.
    rewrite Forall_forall in Hf |- *. intros w Hw. apply Hf.
    eapply elem_of_sublist; [exact Hw|apply prune_sublist].
Qed.

End StoreOk.

(** ** The invariants, operation by operation of the engine *)

Section TxnOk.

Lemma lock_ok_same s s' k l :
  Mvcc.versions s' = Mvcc.versions s -> Mvcc.tso s' = Mvcc.tso s -> lock_ok s k l -> lock_ok s' k l.
Proof. unfold lock_ok, Mvcc.versions_of. by intros -> ->. Qed.

Lemma prewrite_all_ok t s muts p ts r s' :
  store_ok s -> (ts <= Mvcc.tso s)%Z ->
  Txn.prewrite_all Backoff.no_wait t s muts p ts = (r, s') ->
  store_ok s' /\ Mvcc.tso s' = Mvcc.tso s.
Proof.
  revert s. induction muts as [|[k m] muts IH]; intros s Hs Hts; simpl; [by intros; simplify_eq|].
  rewrite prewrite_retry_seq. destruct (Mvcc.prewrite s k m p ts) as [s1|e] eqn:E; [|by intros; simplify_eq].
  destruct (prewrite_store_ok _ _ _ _ _ _ Hs Hts E) as [Hs1 Ht1].
  intros Hp. destruct (IH s1 Hs1 ltac:(lia) Hp) as [? ?]. split; [done|congruence].
Qed.

Lemma commit_all_ok s ks ts c r s' :
  store_ok s -> (ts <= c)%Z -> Txn.commit_all s ks ts c = (r, s') ->
  store_ok s' /\ Mvcc.tso s' = Mvcc.tso s.
Proof.
  revert s. induction ks as [|k ks IH]; intros s Hs Hc; simpl; [by intros; simplify_eq|].
  cbn [kv_commit Mvcc_backend]. destruct (Mvcc.commit_key s k ts c) as [s1|e] eqn:E; [|by intros; simplify_eq].
  destruct (commit_key_store_ok _ _ _ _ _ Hs Hc E) as [Hs1 Ht1].
  intros Hp. destruct (IH s1 Hs1 Hc Hp) as [? ?]. split; [done|congruence].
Qed.

Lemma rollback_all_ok s ks ts r s' :
  store_ok s -> Txn.rollback_all s ks ts = (r, s') -> store_ok s' /\ Mvcc.tso s' = Mvcc.tso s.
Proof.
  intros [Hc Hl] Hr. destruct (rollback_all_seq s ks ts) as (s1 & E & Hv & Ht & Hl1).
  rewrite E in Hr. injection Hr as <- <-. split; [|done]. split.
  - intros k. unfold Mvcc.versions_of. rewrite Hv. apply Hc.
  - intros k l Hk. rewrite Hl1 in Hk. apply (lock_ok_same s); [done|done|].
    apply (Hl k). repeat case_match; case_decide; simplify_eq; try done.
Qed.

Lemma release_locks_ok t s : store_ok s -> store_ok (Txn.release_locks t s) /\ Mvcc.tso (Txn.release_locks t s) = Mvcc.tso s.
Proof.
  unfold Txn.release_locks. intros Hs.
  destruct (Txn.rollback_all s _ _) as [r s'] eqn:E. by eapply rollback_all_ok.
Qed.

End TxnOk.

(** Discharges [advances] and [txn_ok] goals: the setters of
    [Transaction] keep the start timestamp, [set_prewritten] sets the
    lock timestamp. *)
Ltac adv := unfold advances; split; [assumption|];
  split; [unfold txn_ok in *; simpl in *; lia|simpl in *; lia].

Section EngineOk.

Lemma get_for_update_ok t s k r t' s' :
  store_ok s -> txn_ok s t -> Txn.get_for_update t s k = (r, t', s') -> advances s s' t'.
Proof.
  intros Hs Ht. unfold Txn.get_for_update, Txn.guard.
  destruct (Txn.is_active (status t)); [|intros; simplify_eq; adv].
  destruct (txn_mode t).
  - destruct (get_frame t s k) as [r0 ->]. intros; simplify_eq. adv.
  - cbn [kv_lock Mvcc_backend]. destruct (Mvcc.lock_key s k k (start_ts t)) as [s1|e] eqn:E;
      [|intros; simplify_eq; adv].
    destruct (lock_key_store_ok _ _ _ _ _ Hs (proj1 Ht) E) as [Hs1 Ht1].
    destruct (get_frame (Txn.set_locked t (k :: locked t)) s1 k) as [r0 ->]. intros; simplify_eq. adv.
Qed.

Lemma prewrite_primary_ok t s pk r t' s' :
  store_ok s -> txn_ok s t -> Txn.prewrite_primary Backoff.no_wait t s pk = (r, t', s') ->
  advances s s' t' /\ forall p ts, r = Ok (p, ts) -> ts = start_ts t /\ lock_start t' = start_ts t.
Proof.
  intros Hs Ht. unfold Txn.prewrite_primary, Txn.guard.
  destruct (Txn.is_active _); [|intros; simplify_eq; split; [adv|done]].
  destruct (default _ _) as [p|]; [|intros; simplify_eq; split; [adv|done]].
  destruct (Buffer.lookup (buffer t) p) as [m|]; [|intros; simplify_eq; split; [adv|done]].
  rewrite prewrite_retry_seq. destruct (Mvcc.prewrite s p m p (start_ts t)) as [s1|e] eqn:E.
  - destruct (prewrite_store_ok _ _ _ _ _ _ Hs (proj1 Ht) E) as [Hs1 Ht1]. intros; simplify_eq.
    split; [adv|]. by intros ? ? [= <- <-].
  - intros; simplify_eq. split; [adv|done].
Qed.

Lemma prewrite_secondary_ok t s p ts r t' s' :
  store_ok s -> txn_ok s t -> (ts <= Mvcc.tso s)%Z ->
  Txn.prewrite_secondary Backoff.no_wait t s p ts = (r, t', s') -> advances s s' t'.
Proof.
  intros Hs Ht Hts. unfold Txn.prewrite_secondary, Txn.guard.
  destruct (bool_decide _); [|intros; simplify_eq; adv].
  destruct (Txn.prewrite_all _ t s _ p ts) as [r1 s1] eqn:E.
  destruct (prewrite_all_ok _ _ _ _ _ _ _ Hs Hts E) as [Hs1 Ht1].
  destruct r1; intros; simplify_eq; adv.
Qed.

Lemma commit_primary_ok t s r t' s' :
  store_ok s -> txn_ok s t -> Txn.commit_primary t s = (r, t', s') ->
  advances s s' t' /\ forall c, r = Ok c -> c = (Mvcc.tso s + 1)%Z /\ lock_start t' = lock_start t.
Proof.
  intros Hs Ht. unfold Txn.commit_primary, Txn.guard.
  destruct (bool_decide _); [|intros; simplify_eq; split; [adv|done]].
  destruct (primary t) as [p|]; [|intros; simplify_eq; split; [adv|done]].
  cbn [kv_fetch_ts kv_commit Mvcc_backend].
  destruct (fetch_ts_store_ok s Hs) as [Hs1 Ht1].
  destruct (Mvcc.fetch_ts s) as [c s1] eqn:Ef. simpl in Hs1, Ht1.
  assert (Hc : c = (Mvcc.tso s + 1)%Z) by (unfold Mvcc.fetch_ts in Ef; congruence).
  destruct (Mvcc.commit_key s1 p (lock_start t) c) as [s2|e] eqn:E.
  - destruct (commit_key_store_ok s1 p (lock_start t) c s2 Hs1 ltac:(unfold txn_ok in Ht; lia) E)
      as [Hs2 Ht2].
    intros; simplify_eq. split; [adv|]. by intros ? [= <-].
  - intros; simplify_eq. split; [adv|done].
Qed.

Lemma commit_secondary_ok t s c r t' s' :
  store_ok s -> txn_ok s t -> (lock_start t <= c)%Z ->
  Txn.commit_secondary t s c = (r, t', s') -> advances s s' t'.
Proof.
  intros Hs Ht Hc. unfold Txn.commit_secondary, Txn.guard.
  destruct (bool_decide _); [|intros; simplify_eq; adv].
  destruct (Txn.commit_all s _ _ c) as [r1 s1] eqn:E.
  destruct (commit_all_ok _ _ _ _ _ _ Hs Hc E) as [Hs1 Ht1]. intros; simplify_eq. adv.
Qed.

Lemma rollback_ok t s r t' s' :
  store_ok s -> txn_ok s t -> Txn.rollback t s = (r, t', s') -> advances s s' t'.
Proof.
  intros Hs Ht. unfold Txn.rollback. destruct (status t); try (intros; simplify_eq; adv).
  - destruct (Txn.rollback_all s _ _) as [r1 s1] eqn:E.
    destruct (rollback_all_ok _ _ _ _ _ Hs E) as [Hs1 Ht1]. destruct r1; intros; simplify_eq; adv.
  - destruct (Txn.rollback_all s _ _) as [r1 s1] eqn:E.
    destruct (rollback_all_ok _ _ _ _ _ Hs E) as [Hs1 Ht1].
    destruct (release_locks_ok t s1 Hs1) as [Hs2 Ht2].
    destruct r1; intros; simplify_eq; adv.
  - destruct (Txn.rollback_all s _ _) as [r1 s1] eqn:E.
    destruct (rollback_all_ok _ _ _ _ _ Hs E) as [Hs1 Ht1].
    destruct (release_locks_ok t s1 Hs1) as [Hs2 Ht2].
    destruct r1; intros; simplify_eq; adv.
Qed.

End EngineOk.

Section BridgeOk.

Lemma commit_ok t s r t' s' :
  store_ok s -> txn_ok s t -> Txn.commit Backoff.no_wait t s = (r, t', s') -> advances s s' t'.
Proof.
  intros Hs Ht. unfold Txn.commit, Txn.guard. destruct (Txn.is_active _); [|intros; simplify_eq; adv].
  destruct (buffer t) as [|kv b] eqn:Hb.
  { destruct (release_locks_ok t s Hs) as [Hs1 Ht1]. intros; simplify_eq. adv. }
  destruct (Txn.prewrite_primary _ t s None) as [[r1 t1] s1] eqn:E1.
  destruct (prewrite_primary_ok _ _ _ _ _ _ Hs Ht E1) as [(Hs1 & Htx1 & Hts1) Hp1].
  destruct r1 as [[p ts]|e]; [|intros; simplify_eq; adv].
  destruct (Hp1 p ts eq_refl) as [-> Hl1].
  destruct (Txn.prewrite_secondary _ t1 s1 p (start_ts t)) as [[r2 t2] s2] eqn:E2.
  destruct (prewrite_secondary_ok t1 s1 p (start_ts t) r2 t2 s2 Hs1 Htx1
              ltac:(unfold txn_ok in Ht; lia) E2) as (Hs2 & Htx2 & Hts2).
  destruct r2 as [u|e]; [|intros; simplify_eq; adv].
  destruct (Txn.commit_primary t2 s2) as [[r3 t3] s3] eqn:E3.
  destruct (commit_primary_ok _ _ _ _ _ Hs2 Htx2 E3) as [(Hs3 & Htx3 & Hts3) Hp3].
  destruct r3 as [c|e]; [|intros; simplify_eq; adv].
  destruct (Hp3 c eq_refl) as [Hc Hl3].
  destruct (Txn.commit_secondary t3 s3 c) as [[r4 t4] s4] eqn:E4.
  destruct (commit_secondary_ok t3 s3 c r4 t4 s4 Hs3 Htx3
              ltac:(unfold txn_ok in Htx2; lia) E4) as (Hs4 & Htx4 & Hts4).
  destruct (release_locks_ok t4 s4 Hs4) as [Hs5 Ht5]. intros; simplify_eq. adv.
Qed.

Lemma drop_out_inv {A} (x : result A * Transaction * Mvcc.Store) b t' s' :
  drop_out x = (b, t', s') -> exists r, x = (r, t', s').
Proof. destruct x as [[r t0] s0]. simpl. intros; simplify_eq. eauto. Qed.

(** Every bridge call, with the timestamps the caller passes issued,
    keeps both invariants. *)
Lemma bridge_call_ok c t s b t' s' :
  store_ok s -> txn_ok s t -> call_ok s t c ->
  bridge_call Backoff.no_wait c t s = (b, t', s') -> advances s s' t'.
Proof.
  intros Hs Ht Hc. destruct c; cbn [bridge_call]; bridge_unfold.
  - destruct (get_frame t s key) as [r ->]. intros Hx; simpl in Hx; simplify_eq. adv.
  - intros (r & E)%drop_out_inv. apply map_out_inv in E as (r0 & E & _).
    by eapply get_for_update_ok.
  - destruct (batch_get_frame t s keys) as [r ->]. intros Hx; simpl in Hx; simplify_eq. adv.
  - intros Hx; simpl in Hx; simplify_eq. adv.
  - destruct (to_bound_range _ _ _ _) as [rg|]; [|intros Hx; simpl in Hx; simplify_eq; adv].
    destruct (scan_frame t s rg (Z.to_nat limit)) as [r ->]. intros Hx; simpl in Hx; simplify_eq. adv.
  - destruct (to_bound_range _ _ _ _) as [rg|]; [|intros Hx; simpl in Hx; simplify_eq; adv].
    destruct (scan_keys_frame t s rg (Z.to_nat limit)) as [r ->]. intros Hx; simpl in Hx; simplify_eq. adv.
  - unfold Txn.put, Txn.guard. destruct (Txn.is_active _); intros Hx; simpl in Hx; simplify_eq; adv.
  - unfold Txn.delete, Txn.guard. destruct (Txn.is_active _); intros Hx; simpl in Hx; simplify_eq; adv.
  - intros (r & E)%drop_out_inv. apply map_out_inv in E as (r0 & E & _). by eapply commit_ok.
  - intros (r & E)%drop_out_inv. apply map_out_inv in E as (r0 & E & _). by eapply rollback_ok.
  - intros (r & E)%drop_out_inv. apply map_out_inv in E as (r0 & E & _).
    by eapply prewrite_primary_ok.
  - destruct Hc as [Hts Hu]. rewrite version_from_version by lia.
    intros (r & E)%drop_out_inv. eapply prewrite_secondary_ok; [done|done| |exact E]. lia.
  - intros (r & E)%drop_out_inv. by eapply commit_primary_ok.
  - destruct Hc as [H0 Hcs]. rewrite version_from_version by lia.
    destruct (Txn.commit_secondary t s commit_ts) as [[r t1] s1] eqn:E. intros; simplify_eq.
    eapply commit_secondary_ok; [done|done| |exact E]. lia.
Qed.

End BridgeOk.

(** ** The system *)

Section SystemOk.

Lemma txn_ok_mono s s' t : txn_ok s t -> (Mvcc.tso s <= Mvcc.tso s')%Z -> txn_ok s' t.
Proof. unfold txn_ok. lia. Qed.

Lemma init_ok : sys_ok (mkSys [] Mvcc.init).
Proof. split; [split|constructor]; [by intros k|intros k l; simpl; by rewrite lookup_empty]. Qed.

Lemma begin_ok ts s t s' mode bo :
  sys_ok (mkSys ts s) ->
  (let '(c, s1) := Mvcc.fetch_ts s in (Ok (Txn.new mode c bo), s1)) = (Ok t, s') ->
  sys_ok (mkSys (ts ++ [t]) s').
Proof.
  intros [Hs Ht] Hb. destruct (fetch_ts_store_ok s Hs) as [Hs1 Ht1].
  unfold Mvcc.fetch_ts in *. simpl in *. injection Hb as <- <-. split; [done|].
  apply Forall_app. split.
  - eapply Forall_impl; [exact Ht|]. intros u Hu. eapply txn_ok_mono; [exact Hu|simpl; lia].
  - apply Forall_singleton. unfold txn_ok. simpl. lia.
Qed.

(** Fetching a timestamp keeps both invariants. *)
Lemma fetch_ok ts s : sys_ok (mkSys ts s) -> sys_ok (mkSys ts (Mvcc.fetch_ts s).2).
Proof.
  intros [Hs Ht]. destruct (fetch_ts_store_ok s Hs) as [Hs1 Ht1]. split; [done|].
  eapply Forall_impl; [exact Ht|]. intros u Hu. eapply txn_ok_mono; [exact Hu|simpl in *; lia].
Qed.

Lemma client_call_ok ts s c ot s' :
  sys_ok (mkSys ts s) -> client_ok c -> client_call c s = (ot, s') ->
  sys_ok (mkSys (ts ++ option_list ot) s').
Proof.
  intros Hx Hc Hcall. destruct c as [|sp|retry|]; cbn [client_call] in Hcall.
  2: { destruct Hx as [Hs Ht]. unfold client_gc in Hcall.
       rewrite version_from_version in Hcall by done. cbn [kv_gc Mvcc_backend] in Hcall.
       destruct (gc_store_ok s sp Hs) as [Hs' Ht'].
       destruct (Mvcc.gc s sp) as [g s1] eqn:E. simpl in *. injection Hcall as <- <-.
       rewrite app_nil_r. split; [done|]. simpl.
       eapply Forall_impl; [exact Ht|]. intros u Hu. eapply txn_ok_mono; [exact Hu|lia]. }
  all: unfold new_txn, transaction_client_begin, transaction_client_begin_optimistic_with_option,
         transaction_client_begin_pessimistic in Hcall; cbn [kv_fetch_ts Mvcc_backend] in Hcall.
  all: destruct (Mvcc.fetch_ts s) as [c1 s1] eqn:Ef; injection Hcall as <- <-.
  all: eapply begin_ok; [exact Hx|]; by rewrite Ef.
Qed.

Lemma sys_step_ok x y : sys_ok x -> sys_step x y -> sys_ok y.
Proof.
  intros Hx Hst. destruct Hst as [ts s c ot s' Hc Hcall|ts s i t c b t' s' Hi Hc Hcall
                                 |ts s r s' Hf|ts s r s' Hf].
  - by eapply client_call_ok.
  - destruct Hx as [Hs Ht]. simpl in *.
    destruct (bridge_call_ok c t s b t' s' Hs (Forall_lookup_1 _ _ _ _ Ht Hi) Hc Hcall) as (Hs' & Ht' & Hm).
    split; [done|]. simpl. apply Forall_insert; [|done].
    eapply Forall_impl; [exact Ht|]. intros u Hu. by eapply txn_ok_mono.
  - unfold current_timestamp in Hf. cbn [kv_fetch_ts Mvcc_backend] in Hf.
    destruct (Mvcc.fetch_ts s) as [c1 s1] eqn:Ef. injection Hf as <- <-.
    replace s1 with (Mvcc.fetch_ts s).2 by by rewrite Ef. by apply fetch_ok.
  - unfold snapshot_new in Hf. cbn [kv_fetch_ts Mvcc_backend] in Hf.
    destruct (Mvcc.fetch_ts s) as [c1 s1] eqn:Ef. injection Hf as <- <-.
    replace s1 with (Mvcc.fetch_ts s).2 by by rewrite Ef. by apply fetch_ok.
Qed.

Lemma reachable_ok x y : rtc sys_step x y -> sys_ok x -> sys_ok y.
Proof. induction 1 as [|x z y Hxz _ IH]; [done|]. intros Hx. by apply IH, (sys_step_ok x). Qed.

Lemma chain_lookup ws i j w1 w2 :
  chain ws = true -> (i < j)%nat -> ws !! i = Some w1 -> ws !! j = Some w2 ->
  (Mvcc.write_commit w2 < Mvcc.write_start w1)%Z.
Proof.
  revert i j. induction ws as [|w ws IH]; intros i j Hc Hij Hi Hj; [done|].
  destruct i as [|i], j as [|j]; simpl in *; try lia; simplify_eq.
  - apply chain_head_max in Hc. eapply Forall_forall in Hc; [exact Hc|]. by eapply list_elem_of_lookup_2.
  - apply chain_cons in Hc as (_ & _ & Hc). apply (IH i j); [done|lia|done|done].
Qed.

End SystemOk.

(** C1. No two committed writes of a key overlap, whatever the
    interleaving: in every state reached from the empty store by any
    sequence of calls on the client (the begins and [client_gc]),
    bridge calls on any of the transactions (the split-commit timestamps
    passed as the protocol passes them), [current_timestamp]s and
    [snapshot_new]s, any two distinct committed versions
    of a key are ordered (one committed before the other started), and
    a key's pending lock was taken after every committed version of the
    key: two transactions whose lifetimes overlap never both commit the
    same key. *)
Theorem no_overlapping_commits x :
  rtc sys_step (mkSys [] Mvcc.init) x ->
  forall k,
    (forall w1 w2, w1 ∈ Mvcc.versions_of (store x) k -> w2 ∈ Mvcc.versions_of (store x) k -> w1 <> w2 ->
       (Mvcc.write_commit w1 < Mvcc.write_start w2 \/ Mvcc.write_commit w2 < Mvcc.write_start w1)%Z) /\
    (forall l, Mvcc.locks (store x) !! k = Some l ->
       Forall (fun w => Mvcc.write_commit w < Mvcc.lock_ts l)%Z (Mvcc.versions_of (store x) k)).
Proof.
  intros Hr k. destruct (reachable_ok _ _ Hr init_ok) as [[Hc Hl] _]. split.
  - intros w1 w2 (i & Hi)%list_elem_of_lookup (j & Hj)%list_elem_of_lookup Hne.
    destruct (Nat.lt_total i j) as [Hij|[->|Hij]].
    + right. by eapply (chain_lookup _ i j).
    + congruence.
    + left. by eapply (chain_lookup _ j i).
  - intros l Hk. by destruct (Hl k l Hk).
Qed.

(** ** First committer wins *)

Section Conflicts.

Lemma prewrite_Err s k m p ts e :
  Mvcc.prewrite s k m p ts = Err e -> e = LockConflict \/ e = WriteConflict.
Proof. unfold Mvcc.prewrite. repeat case_match; intros; simplify_eq; auto. Qed.

Lemma prewrite_conflict s k m p ts : conflict_at s k ts -> exists e, Mvcc.prewrite s k m p ts = Err e.
Proof.
  unfold Mvcc.prewrite. intros [(l & -> & Hl)|[-> Hw]].
  - rewrite decide_False by done. eauto.
  - rewrite Hw. eauto.
Qed.

Lemma prewrite_keeps_conflict s k k' m p ts s' :
  k' <> k -> Mvcc.prewrite s k' m p ts = Ok s' -> conflict_at s k ts -> conflict_at s' k ts.
Proof.
  intros Hne ->%prewrite_Ok. unfold conflict_at, Mvcc.write_conflict, Mvcc.versions_of. simpl.
  by rewrite lookup_insert_ne by congruence.
Qed.

Lemma prewrite_all_conflict t s muts p ts k :
  conflict_at s k ts -> k ∈ Buffer.keys muts ->
  exists e s', Txn.prewrite_all Backoff.no_wait t s muts p ts = (Err e, s') /\
    (e = LockConflict \/ e = WriteConflict).
Proof.
  revert s. induction muts as [|[k0 m0] muts IH]; intros s Hc Hk; [by apply elem_of_nil in Hk|].
  simpl. rewrite prewrite_retry_seq.
  destruct (Mvcc.prewrite s k0 m0 p ts) as [s1|e] eqn:E; [|apply prewrite_Err in E; eauto].
  destruct (decide (k0 = k)) as [->|Hne].
  - destruct (prewrite_conflict s k m0 p ts Hc) as [e He]. congruence.
  - apply IH; [by eapply prewrite_keeps_conflict|].
    unfold Buffer.keys in Hk. simpl in Hk. apply elem_of_cons in Hk as [->|]; [done|done].
Qed.

Lemma keys_filter_ne (b : Buffer) p k :
  k ∈ Buffer.keys b -> k <> p -> k ∈ Buffer.keys (filter (fun km => km.1 <> p) b).
Proof.
  unfold Buffer.keys. intros ([k' m] & -> & Hin)%list_elem_of_fmap Hne.
  apply list_elem_of_fmap. exists (k', m). split; [done|]. by apply list_elem_of_filter.
Qed.

End Conflicts.

(** C6. First committer wins: when another transaction holds the lock
    of a key [t] wrote, or has committed that key at or after [t]'s start
    timestamp, [transaction_commit] of [t] fails (with [LockConflict]
    once the lock back-off is spent, or [WriteConflict]) and leaves [t]
    [Failed]; whichever key of the buffer the conflict is on, primary or
    secondary. *)
Theorem bridge_commit_conflict t s k :
  status t = Active -> k ∈ Buffer.keys (buffer t) -> conflict_at s k (start_ts t) ->
  exists e t' s', transaction_commit Backoff.no_wait t s = (Err e, t', s') /\ status t' = Failed /\
    (e = LockConflict \/ e = WriteConflict).
Proof.
  intros Ha Hk Hc. unfold transaction_commit, Txn.commit, Txn.guard, Txn.is_active.
  rewrite Ha, bool_decide_true by done.
  destruct (buffer t) as [|[p m] b] eqn:Hb; [by apply elem_of_nil in Hk|].
  unfold Txn.prewrite_primary, Txn.guard, Txn.is_active. rewrite Ha, bool_decide_true by done.
  rewrite Hb. simpl. rewrite decide_True by done. rewrite prewrite_retry_seq.
  destruct (Mvcc.prewrite s p m p (start_ts t)) as [s1|e] eqn:E.
  - assert (Hne : p <> k).
    { intros ->. destruct (prewrite_conflict s k m k (start_ts t) Hc) as [e He]. congruence. }
    unfold Txn.prewrite_secondary, Txn.guard. simpl.
    destruct (prewrite_all_conflict (Txn.set_prewritten t p (start_ts t)) s1
                (filter (fun km => km.1 <> p) (buffer t)) p (start_ts t) k) as (e & s2 & Hp & He).
    + by eapply prewrite_keeps_conflict.
    + rewrite Hb. apply keys_filter_ne; [done|auto].
    + rewrite Hp. simpl. by eexists _, _, _.
  - simpl. apply prewrite_Err in E. by eexists _, _, _.
Qed.

(** ** Pessimistic locks exclude each other *)

Section Pessimistic.

Lemma lock_key_Ok s k p ts s' :
  Mvcc.lock_key s k p ts = Ok s' ->
  Mvcc.versions s' = Mvcc.versions s /\ exists l, Mvcc.locks s' !! k = Some l /\ Mvcc.lock_ts l = ts.
Proof.
  unfold Mvcc.lock_key. destruct (Mvcc.locks s !! k) as [l|] eqn:E.
  - case_decide; [|done]. intros [= <-]. eauto.
  - case_match; [done|]. intros [= <-]. split; [done|]. simpl. rewrite lookup_insert_eq. eauto.
Qed.

Lemma get_for_update_pessimistic t s k r t' s' :
  txn_mode t = Pessimistic -> Txn.get_for_update t s k = (r, t', s') -> is_ok r = true ->
  status t = Active /\ t' = Txn.set_locked t (k :: locked t) /\ Mvcc.lock_key s k k (start_ts t) = Ok s'.
Proof.
  intros Hm. unfold Txn.get_for_update, Txn.guard, Txn.is_active. rewrite Hm.
  case_bool_decide; [|intros; by simplify_eq]. cbn [kv_lock Mvcc_backend].
  destruct (Mvcc.lock_key s k k (start_ts t)) as [s1|e] eqn:E; [|intros; by simplify_eq].
  destruct (get_frame (Txn.set_locked t (k :: locked t)) s1 k) as [r0 ->]. intros; by simplify_eq.
Qed.

(** A pessimistic lock of its own never blocks a transaction's read. *)
Lemma get_after_own_lock t k (s' : Mvcc.Store) :
  status t = Active -> Mvcc.locks s' !! k = Some (Mvcc.mkLock k (start_ts t) None) ->
  exists v, Txn.get (Txn.set_locked t (k :: locked t)) s' k = (Ok v, Txn.set_locked t (k :: locked t), s').
Proof.
  intros Ha Hl. unfold Txn.get, Txn.guard, Txn.is_active. simpl. rewrite Ha, bool_decide_true by done.
  destruct (Buffer.lookup _ k); [eauto|]. cbn [kv_read Mvcc_backend]. unfold Mvcc.read, Mvcc.blocks.
  rewrite Hl. simpl. rewrite andb_false_r. eauto.
Qed.

(** A key locked by another transaction blocks a pessimistic
    [get_for_update], which changes nothing. *)
Lemma get_for_update_blocked t s k l :
  txn_mode t = Pessimistic -> status t = Active -> Mvcc.locks s !! k = Some l ->
  Mvcc.lock_ts l <> start_ts t ->
  transaction_get_for_update t s k = (Err KeyLockedTimeout, t, s).
Proof.
  intros Hm Ha Hk Hts. unfold transaction_get_for_update, Txn.get_for_update, Txn.guard, Txn.is_active.
  rewrite Ha, bool_decide_true, Hm by done. cbn [kv_lock Mvcc_backend]. unfold Mvcc.lock_key.
  by rewrite Hk, decide_False.
Qed.

(** A pessimistic [get_for_update] of an unlocked key that no version
    committed since the transaction's start succeeds. *)
Lemma get_for_update_unlocked t s k :
  txn_mode t = Pessimistic -> status t = Active -> Mvcc.locks s !! k = None ->
  Mvcc.write_conflict s k (start_ts t) = false ->
  exists v t' s', transaction_get_for_update t s k = (Ok v, t', s').
Proof.
  intros Hm Ha Hk Hw. unfold transaction_get_for_update, Txn.get_for_update, Txn.guard, Txn.is_active.
  rewrite Ha, bool_decide_true, Hm by done. cbn [kv_lock Mvcc_backend]. unfold Mvcc.lock_key.
  rewrite Hk, Hw.
  destruct (get_after_own_lock t k
              (Mvcc.with_locks s (<[k := Mvcc.mkLock k (start_ts t) None]> (Mvcc.locks s)))
              Ha ltac:(simpl; by rewrite lookup_insert_eq)) as [v Hg].
  rewrite Hg. simpl. eauto.
Qed.

End Pessimistic.

(** C8. Pessimistic locks exclude each other (section 8): after a
    pessimistic transaction's [transaction_get_for_update(k)] succeeds,
    another pessimistic transaction's [transaction_get_for_update(k)]
    fails with [KeyLockedTimeout] and changes nothing; once the first
    transaction has rolled back, the second one's succeeds, unless a
    version of [k] committed at or after its start. *)
Theorem bridge_get_for_update_excludes t1 t2 s k v t1' s1 :
  txn_mode t1 = Pessimistic -> txn_mode t2 = Pessimistic -> status t2 = Active ->
  start_ts t1 <> start_ts t2 ->
  transaction_get_for_update t1 s k = (Ok v, t1', s1) ->
  transaction_get_for_update t2 s1 k = (Err KeyLockedTimeout, t2, s1) /\
  (forall r t1'' s2, transaction_rollback t1' s1 = (r, t1'', s2) ->
     Mvcc.write_conflict s k (start_ts t2) = false ->
     exists v2 t2' s3, transaction_get_for_update t2 s2 k = (Ok v2, t2', s3)).
Proof.
  intros Hm1 Hm2 Ha2 Hne Hg. apply map_out_inv in Hg as (r0 & Hg & Hr).
  destruct r0 as [v0|]; [|done].
  destruct (get_for_update_pessimistic _ _ _ _ _ _ Hm1 Hg eq_refl) as (Ha1 & -> & Hl).
  destruct (lock_key_Ok _ _ _ _ _ Hl) as (Hv & l & Hk & Hts). split.
  - apply (get_for_update_blocked t2 s1 k l); [done|done|done|congruence].
  - intros r t1'' s2 Hrb Hw. unfold transaction_rollback, map_out, Txn.rollback, Txn.set_locked in Hrb.
    cbn [status locked start_ts] in Hrb. rewrite Ha1 in Hrb.
    destruct (rollback_all_seq s1 (k :: locked t1) (start_ts t1)) as (s2' & E & Hv2 & _ & Hl2).
    rewrite E in Hrb. simpl in Hrb. injection Hrb as _ _ <-.
    assert (Hk2 : Mvcc.locks s2' !! k = None).
    { rewrite Hl2, decide_True by set_solver. rewrite Hk, decide_True by done. done. }
    apply get_for_update_unlocked; [done|done|done|].
    revert Hw. unfold Mvcc.write_conflict, Mvcc.versions_of. by rewrite Hv2, Hv.
Qed.

(** C25. The bridge trusts the commit timestamp C++ passes to
    [transaction_commit_secondary]: for any [Prewriting] or
    [Committing] transaction whose secondaries hold its prewrite locks,
    and any [u64] [c], every secondary is committed at exactly [c] (its
    lock erased, its newest version a write from the transaction's
    start timestamp to [c]) and the transaction is [Committed], whatever
    the primary's commit timestamp was; with [c] below the start
    timestamp the store loses its well-formedness ([store_ok]): the
    secondary's version ends before it begins. *)
Theorem commit_secondary_ts_unchecked t (s : Mvcc.Store) c k :
  (status t = Prewriting \/ status t = Committing) -> Buffer.wf (buffer t) ->
  (forall k', k' ∈ Txn.secondaries t ->
     exists p m, Mvcc.locks s !! k' = Some (Mvcc.mkLock p (lock_start t) (Some m))) ->
  k ∈ Txn.secondaries t -> (0 <= c < u64_modulus)%Z ->
  status (transaction_commit_secondary t s c).1 = Committed /\
  Mvcc.locks (transaction_commit_secondary t s c).2 !! k = None /\
  (exists m, head (Mvcc.versions_of (transaction_commit_secondary t s c).2 k) =
               Some (Mvcc.mkWrite (lock_start t) c m)) /\
  ((c < lock_start t)%Z -> ~ store_ok (transaction_commit_secondary t s c).2).
Proof.
  intros Hst Hwf Hl Hk Hc. unfold transaction_commit_secondary. rewrite version_from_version by done.
  unfold Txn.commit_secondary, Txn.guard. rewrite bool_decide_eq_true_2 by done.
  destruct (commit_all_seq s (Txn.secondaries t) (lock_start t) c) as (s' & -> & _ & Hs');
    [by apply NoDup_filter|exact Hl|].
  simpl. destruct (proj1 (Hs' k) Hk) as (HN & p & m & _ & Hv).
  assert (Hvo : Mvcc.versions_of s' k = Mvcc.mkWrite (lock_start t) c m :: Mvcc.versions_of s k)
    by (unfold Mvcc.versions_of; by rewrite Hv).
  split_and!; [done|done|exists m; by rewrite Hvo|].
  intros Hlt [Hch _]. specialize (Hch k). rewrite Hvo in Hch. simpl in Hch.
  apply andb_prop in Hch as [[H1 _]%andb_prop _]. apply bool_decide_eq_true in H1. simpl in H1. lia.
Qed.

(** On [demo_split_store], the run above: a snapshot between the two
    timestamps sees the transaction's secondary write but not its
    primary one; a snapshot after the primary's commit sees both. *)
Example commit_secondary_ts_demo :
  snapshot_get (mkSnapshot 4) demo_split_store (bs "a") = Ok (mkOptionalValue true []) /\
  snapshot_get (mkSnapshot 4) demo_split_store (bs "b") = Ok (mkOptionalValue false (bs "2")) /\
  snapshot_get (mkSnapshot 6) demo_split_store (bs "a") = Ok (mkOptionalValue false (bs "1")) /\
  chain (Mvcc.versions_of demo_split_store (bs "b")) = false.
Proof. vm_compute. split_and!; reflexivity. Qed.


(** The bridge also trusts the primary and start timestamp C++ passes
    to [transaction_prewrite_secondary]: a transaction given another
    one's (an issued timestamp, as [call_ok] allows) takes that
    transaction's lock on a key both write for its own and replaces the
    mutation; the other transaction's commit then publishes, at its
    commit timestamp, the value the first one buffered, while the first
    one is still [Prewriting] and the committing one never wrote it. *)
Example prewrite_secondary_foreign_start :
  Buffer.lookup (buffer demo_foreign_t1) (bs "k") = Some (Put (bs "1")) /\
  status demo_foreign_run.1.1 = Committed /\ status demo_foreign_run.1.2 = Prewriting /\
  snapshot_get (mkSnapshot 3) demo_foreign_run.2 (bs "k") = Ok (mkOptionalValue false (bs "2")) /\
  snapshot_get (mkSnapshot 3) demo_foreign_run.2 (bs "a") = Ok (mkOptionalValue false (bs "x")).
Proof. vm_compute. split_and!; reflexivity. Qed.

(** ** Witness *)

Lemma triple_eta {A B C} (x : A * B * C) : x = (x.1.1, x.1.2, x.2).
Proof. by destruct x as [[a b] c]. Qed.

(** Every bridge call the caller may make is a step of the system. *)
Lemma sys_step_call ts s i t c :
  ts !! i = Some t -> call_ok s t c ->
  sys_step (mkSys ts s) (mkSys (<[i := (bridge_call Backoff.no_wait c t s).1.2]> ts)
                               (bridge_call Backoff.no_wait c t s).2).
Proof. intros Hi Hc. exact (SCall ts s i t c _ _ _ Hi Hc (triple_eta _)). Qed.

Lemma demo_sys_reachable : rtc sys_step (mkSys [] Mvcc.init) demo_sys_final.
Proof.
  eapply rtc_l; [exact (SClient [] Mvcc.init CBegin (Some demo_sys_t1) demo_sys_s1 I eq_refl)|].
  eapply rtc_l; [exact (sys_step_call [demo_sys_t1] demo_sys_s1 0 demo_sys_t1 (CPut (bs "a") (bs "1")) eq_refl I)|].
  eapply rtc_l; [exact (sys_step_call (<[0 := demo_call_put.1.2]> [demo_sys_t1]) demo_call_put.2 0
                          demo_call_put.1.2 CCommit eq_refl I)|].
  apply rtc_refl.
Qed.

Lemma no_overlapping_commits_witness :
  rtc sys_step (mkSys [] Mvcc.init) demo_sys_final /\
  ((forall w1 w2, w1 ∈ Mvcc.versions_of (store demo_sys_final) (bs "a") ->
      w2 ∈ Mvcc.versions_of (store demo_sys_final) (bs "a") -> w1 <> w2 ->
      (Mvcc.write_commit w1 < Mvcc.write_start w2 \/ Mvcc.write_commit w2 < Mvcc.write_start w1)%Z) /\
   (forall l, Mvcc.locks (store demo_sys_final) !! (bs "a") = Some l ->
      Forall (fun w => Mvcc.write_commit w < Mvcc.lock_ts l)%Z
        (Mvcc.versions_of (store demo_sys_final) (bs "a")))).
Proof.
  split; [exact demo_sys_reachable|].
  exact (no_overlapping_commits demo_sys_final demo_sys_reachable (bs "a")).
Defined.

Lemma bridge_commit_conflict_witness :
  status demo_t2 = Active /\ bs "b" ∈ Buffer.keys (buffer demo_t2) /\
  conflict_at demo_locked_store (bs "b") (start_ts demo_t2) /\
  exists e t' s', transaction_commit Backoff.no_wait demo_t2 demo_locked_store = (Err e, t', s') /\
    status t' = Failed /\ (e = LockConflict \/ e = WriteConflict).
Proof.
  assert (Hk : bs "b" ∈ Buffer.keys (buffer demo_t2)) by (apply list_elem_of_In; simpl; auto).
  assert (Hc : conflict_at demo_locked_store (bs "b") (start_ts demo_t2))
    by (left; eexists; split; [reflexivity|simpl; lia]).
  split; [reflexivity|]. split; [exact Hk|]. split; [exact Hc|].
  exact (bridge_commit_conflict demo_t2 demo_locked_store (bs "b") eq_refl Hk Hc).
Defined.

Lemma bridge_get_for_update_excludes_witness :
  txn_mode demo_pess_t1 = Pessimistic /\ txn_mode demo_pess_t2 = Pessimistic /\
  status demo_pess_t2 = Active /\ start_ts demo_pess_t1 <> start_ts demo_pess_t2 /\
  transaction_get_for_update demo_pess_t1 demo_pess_s (bs "a") =
    (Ok (mkOptionalValue true []), (transaction_get_for_update demo_pess_t1 demo_pess_s (bs "a")).1.2,
     (transaction_get_for_update demo_pess_t1 demo_pess_s (bs "a")).2) /\
  (transaction_get_for_update demo_pess_t2 (transaction_get_for_update demo_pess_t1 demo_pess_s (bs "a")).2
     (bs "a") = (Err KeyLockedTimeout, demo_pess_t2, (transaction_get_for_update demo_pess_t1 demo_pess_s (bs "a")).2) /\
   (forall r t1'' s2,
      transaction_rollback (transaction_get_for_update demo_pess_t1 demo_pess_s (bs "a")).1.2
        (transaction_get_for_update demo_pess_t1 demo_pess_s (bs "a")).2 = (r, t1'', s2) ->
      Mvcc.write_conflict demo_pess_s (bs "a") (start_ts demo_pess_t2) = false ->
      exists v2 t2' s3, transaction_get_for_update demo_pess_t2 s2 (bs "a") = (Ok v2, t2', s3))).
Proof.
  assert (Hne : start_ts demo_pess_t1 <> start_ts demo_pess_t2) by (simpl; lia).
  assert (Hg : transaction_get_for_update demo_pess_t1 demo_pess_s (bs "a") =
    (Ok (mkOptionalValue true []), (transaction_get_for_update demo_pess_t1 demo_pess_s (bs "a")).1.2,
     (transaction_get_for_update demo_pess_t1 demo_pess_s (bs "a")).2)) by (vm_compute; reflexivity).
  split; [reflexivity|]. split; [reflexivity|]. split; [reflexivity|]. split; [exact Hne|].
  split; [exact Hg|].
  exact (bridge_get_for_update_excludes demo_pess_t1 demo_pess_t2 demo_pess_s (bs "a") _ _ _
           eq_refl eq_refl eq_refl Hne Hg).
Defined.

Lemma commit_secondary_ts_unchecked_witness :
  let t := demo_split_committing.1 in let s := demo_split_committing.2 in
  (status t = Prewriting \/ status t = Committing) /\ Buffer.wf (buffer t) /\
  (forall k', k' ∈ Txn.secondaries t ->
     exists p m, Mvcc.locks s !! k' = Some (Mvcc.mkLock p (lock_start t) (Some m))) /\
  bs "b" ∈ Txn.secondaries t /\ (0 <= 3 < u64_modulus)%Z /\
  (status (transaction_commit_secondary t s 3).1 = Committed /\
   Mvcc.locks (transaction_commit_secondary t s 3).2 !! bs "b" = None /\
   (exists m, head (Mvcc.versions_of (transaction_commit_secondary t s 3).2 (bs "b")) =
                Some (Mvcc.mkWrite (lock_start t) 3 m)) /\
   ((3 < lock_start t)%Z -> ~ store_ok (transaction_commit_secondary t s 3).2)).
Proof.
  intros t s.
  assert (H1 : status t = Prewriting \/ status t = Committing) by (right; vm_compute; reflexivity).
  assert (H2 : Buffer.wf (buffer t)) by (apply (bool_decide_unpack _); vm_compute; reflexivity).
  assert (Hsec : Txn.secondaries t = [bs "b"]) by (vm_compute; reflexivity).
  assert (H3 : forall k', k' ∈ Txn.secondaries t ->
     exists p m, Mvcc.locks s !! k' = Some (Mvcc.mkLock p (lock_start t) (Some m))).
  { rewrite Hsec. intros k' ->%list_elem_of_singleton. exists (bs "a"), (Put (bs "2")).
    vm_compute. reflexivity. }
  assert (H4 : bs "b" ∈ Txn.secondaries t) by (rewrite Hsec; by left).
  assert (H5 : (0 <= 3 < u64_modulus)%Z) by (unfold u64_modulus; lia).
  refine (conj H1 (conj H2 (conj H3 (conj H4 (conj H5 _))))).
  exact (commit_secondary_ts_unchecked t s 3 (bs "b") H1 H2 H3 H4 H5).
Defined.
