(* ===== verification/Pessimistic.v ===== *)
(** * Pessimistic locks are released by the commit

    Section 5 of the specification: pessimistic mode acquires locks at
    [get_for_update] time, "blocking other transactions' pessimistic
    locks on the same key until release (commit or rollback)".  The
    rollback half is in [Concurrency]; this file proves the commit half:
    a pessimistic transaction that locked a key with
    [transaction_get_for_update] (lib.rs 329-343) without writing it,
    and then committed with [transaction_commit] (lib.rs 424-427), no
    longer blocks another transaction's [get_for_update] of that key.
    The commit's last step, [Txn.release_locks], erases the locks of the
    keys it read but did not write. *)

From S2P Require Import Prelude Ffi Buffer Timestamp Backoff Mvcc Transaction Bridge Concurrency.

(** A pessimistic transaction started at 6 that writes ["a"], which
    locks ["k"] and commits; [demo_pess_t2] (started at 7) then locks
    ["k"]. *)
Definition demo_rel_t1 : Transaction :=
  Txn.set_buffer demo_pess_t1 (Buffer.put [] (bs "a") (bs "1")).
Definition demo_rel_gfu : result OptionalValue * Transaction * Mvcc.Store :=
  transaction_get_for_update demo_rel_t1 demo_pess_s (bs "k").
Definition demo_rel_commit : result unit * Transaction * Mvcc.Store :=
  transaction_commit Backoff.no_wait demo_rel_gfu.1.2 demo_rel_gfu.2.

Section Release.

(** A successful commit of a transaction alone on the store leaves the
    lock and the versions of a key it does not write as they were, up
    to the release of its pessimistic locks at the end; the transaction
    keeps its buffer, its locked keys and its start timestamp. *)
Lemma commit_unwritten t (s : Mvcc.Store) co t' s' k :
  Buffer.wf (buffer t) -> k ∉ Buffer.keys (buffer t) ->
  Txn.commit Backoff.no_wait t s = (Ok co, t', s') ->
  exists s4, s' = Txn.release_locks t' s4 /\ Mvcc.locks s4 !! k = Mvcc.locks s !! k /\
    Mvcc.versions s4 !! k = Mvcc.versions s !! k /\
    buffer t' = buffer t /\ locked t' = locked t /\ start_ts t' = start_ts t.
Proof.
  intros Hwf Hk Hc. unfold Txn.commit, Txn.guard, Txn.is_active in Hc.
  case_bool_decide; [|done]. destruct (buffer t) as [|km b] eqn:Eb.
  { injection Hc as <- <- <-. by exists s. }
  rewrite <- Eb in *.
  destruct (Txn.prewrite_primary _ t s None) as [[[[p ts]|e] t1] s1] eqn:E1; [|done].
  destruct (Txn.prewrite_secondary _ t1 s1 p ts) as [[[[]|e] t2] s2] eqn:E2; [|done].
  destruct (Txn.commit_primary t2 _) as [[[c|e] t3] s3] eqn:E3; [|done].
  destruct (Txn.commit_secondary t3 s3 c) as [[r t4] s4] eqn:E4. injection Hc as <- <- <-.
  destruct (prewrite_phase_seq t s p ts t1 s1 t2 s2 Hwf E1 E2) as (-> & -> & Hp & Hv2 & Ht2 & Hl2).
  destruct (commit_phase_seq t s2 p (start_ts t) c t3 s3 r t4 s4 Hwf) as (_ & _ & -> & _ & Hs4);
    [|done|done|done|].
  { intros k' Hk'. destruct (Buffer.lookup_keys_Some _ _ Hk') as [m Em]. exists m. by rewrite Hl2, Em. }
  exists s4. destruct (Hs4 k) as [_ [Hl4 Hv4]]; [done|]. split_and!; try done.
  - rewrite Hl4, Hl2. by rewrite (proj2 (Buffer.lookup_None_keys _ _)).
  - by rewrite Hv4, Hv2.
Qed.

(** C9. A pessimistic lock is held until the commit: after a
    pessimistic transaction's [transaction_get_for_update(k)] succeeds,
    another pessimistic transaction's [get_for_update(k)] fails with
    [KeyLockedTimeout]; once the first has committed without writing
    [k] ([transaction_commit] returns [Ok]), the second one's succeeds,
    unless a version of [k] committed at or after its start. *)
Theorem bridge_commit_releases_lock t1 t2 s k v t1' s1 t1'' s2 :
  txn_mode t1 = Pessimistic -> txn_mode t2 = Pessimistic -> status t2 = Active ->
  start_ts t1 <> start_ts t2 -> Buffer.wf (buffer t1) -> k ∉ Buffer.keys (buffer t1) ->
  transaction_get_for_update t1 s k = (Ok v, t1', s1) ->
  transaction_commit Backoff.no_wait t1' s1 = (Ok tt, t1'', s2) ->
  Mvcc.write_conflict s k (start_ts t2) = false ->
  transaction_get_for_update t2 s1 k = (Err KeyLockedTimeout, t2, s1) /\
  exists v2 t2' s3, transaction_get_for_update t2 s2 k = (Ok v2, t2', s3).
Proof.
  intros Hm1 Hm2 Ha2 Hne Hwf Hk Hg Hc Hw.
  apply map_out_inv in Hg as ([v0|] & Hg & Hr); [|done].
  destruct (get_for_update_pessimistic _ _ _ _ _ _ Hm1 Hg eq_refl) as (Ha1 & -> & Hl).
  destruct (lock_key_Ok _ _ _ _ _ Hl) as (Hv & l & Hkl & Hts).
  split; [apply (get_for_update_blocked t2 s1 k l); [done|done|done|congruence]|].
  apply map_out_inv in Hc as ([co|] & Hc & Hrc); [|done].
  destruct (commit_unwritten (Txn.set_locked t1 (k :: locked t1)) s1 _ _ _ k Hwf Hk Hc) as (s4 & -> & Hl4 & Hv4 & Hb & Hlk & Hst).
  unfold Txn.release_locks.
  destruct (rollback_all_seq s4 (filter (fun k' => k' ∉ Buffer.keys (buffer t1'')) (locked t1''))
              (start_ts t1'')) as (s5 & -> & Hv5 & _ & Hl5).
  apply get_for_update_unlocked; [done|done| |].
  - rewrite Hl5, decide_True.
    + rewrite Hl4, Hkl, decide_True; [done|]. rewrite Hst. simpl. congruence.
    + apply list_elem_of_filter. rewrite Hb, Hlk. simpl. split; [done|]. by left.
  - revert Hw. unfold Mvcc.write_conflict, Mvcc.versions_of. simpl. by rewrite Hv5, Hv4, Hv.
Qed.
End Release.

(** ** Witness *)

Lemma bridge_commit_releases_lock_witness :
  txn_mode demo_rel_t1 = Pessimistic /\ txn_mode demo_pess_t2 = Pessimistic /\
  status demo_pess_t2 = Active /\ start_ts demo_rel_t1 <> start_ts demo_pess_t2 /\
  Buffer.wf (buffer demo_rel_t1) /\ bs "k" ∉ Buffer.keys (buffer demo_rel_t1) /\
  transaction_get_for_update demo_rel_t1 demo_pess_s (bs "k") =
    (Ok (mkOptionalValue true []), demo_rel_gfu.1.2, demo_rel_gfu.2) /\
  transaction_commit Backoff.no_wait demo_rel_gfu.1.2 demo_rel_gfu.2 =
    (Ok tt, demo_rel_commit.1.2, demo_rel_commit.2) /\
  Mvcc.write_conflict demo_pess_s (bs "k") (start_ts demo_pess_t2) = false /\
  exists v2 t2' s3, transaction_get_for_update demo_pess_t2 demo_rel_commit.2 (bs "k") = (Ok v2, t2', s3).
Proof.
  assert (Hwf : Buffer.wf (buffer demo_rel_t1)) by (vm_compute; repeat constructor; set_solver).
  assert (Hk : bs "k" ∉ Buffer.keys (buffer demo_rel_t1)) by (vm_compute; set_solver).
  assert (Hne : start_ts demo_rel_t1 <> start_ts demo_pess_t2) by (simpl; lia).
  assert (Hg : transaction_get_for_update demo_rel_t1 demo_pess_s (bs "k") =
                 (Ok (mkOptionalValue true []), demo_rel_gfu.1.2, demo_rel_gfu.2)) by reflexivity.
  assert (Hc : transaction_commit Backoff.no_wait demo_rel_gfu.1.2 demo_rel_gfu.2 =
                 (Ok tt, demo_rel_commit.1.2, demo_rel_commit.2)) by reflexivity.
  assert (Hw : Mvcc.write_conflict demo_pess_s (bs "k") (start_ts demo_pess_t2) = false) by reflexivity.
  do 9 (split; [assumption || reflexivity|]).
  exact (proj2 (bridge_commit_releases_lock demo_rel_t1 demo_pess_t2 demo_pess_s (bs "k") _ _ _ _ _
                  eq_refl eq_refl eq_refl Hne Hwf Hk Hg Hc Hw)).
Defined.
